(** * Tetris: board, pieces and session transitions of [App.tsx]

    Two rulesets live in the repository: the "Solo" one (a single next
    piece, uniform random supply, flat scoring) and the "AAA" one (a
    shuffled seven-piece bag, three previews, hold, ghost piece, tiered
    scoring).  Both are embedded below, each in its own module, over a
    common model of the JavaScript arrays they work on. *)

From stdpp Require Import base tactics option list numbers strings.
From Stdlib Require Import ZArith Lia.

Local Open Scope Z_scope.

(** ** Constants *)

Definition ROWS : nat := 20.
Definition COLS : nat := 10.
Definition START_SPEED : Z := 500.

(** ** Outcomes of JavaScript code

    [TypeError] is the exception raised by a property access on
    [undefined] (the row [g[r]] of a missing row index, [m[0].map] on
    an empty matrix).  [Undefined] marks the point where [undefined]
    enters an array of numbers: an element read outside the indices of a
    row whose value is kept as a cell, or a store [row[c] = v] whose
    column is not an index of the row (JavaScript then grows the array
    leaving holes, [c >= length], or attaches a non-index property,
    [c < 0]); the array stops being a dense [number[]] and the embedding,
    whose cells are numbers, does not follow it further.  [OutOfFuel]
    is not a behaviour of the program: the [while] loops are run with a
    step budget, and a loop that has not exited within it answers
    [OutOfFuel]. *)

Inductive outcome (A : Type) : Type :=
| Ok (a : A)
| TypeError
| Undefined
| OutOfFuel.
Arguments Ok {A} a.
Arguments TypeError {A}.
Arguments Undefined {A}.
Arguments OutOfFuel {A}.

Definition bind {A B} (m : outcome A) (k : A -> outcome B) : outcome B :=
  match m with
  | Ok a => k a
  | TypeError => TypeError
  | Undefined => Undefined
  | OutOfFuel => OutOfFuel
  end.

Notation "'let*' x ':=' m 'in' k" := (bind m (fun x => k))
  (at level 10, x pattern, m at level 100, k at level 200).

(** ** Data *)

(** A cell is a JavaScript [number]; a board and a shape are [number[][]]. *)
Abbreviation Row := (list Z).
Abbreviation Board := (list (list Z)).
Abbreviation Shape := (list (list Z)).

(** [type Piece = { shape; x; y; colorIdx }] *)
Record Piece : Type := mkPiece {
  shape : Shape;
  px : Z;
  py : Z;
  colorIdx : nat;
}.

Definition with_x (p : Piece) (v : Z) : Piece :=
  mkPiece (shape p) v (py p) (colorIdx p).
Definition with_y (p : Piece) (v : Z) : Piece :=
  mkPiece (shape p) (px p) v (colorIdx p).
Definition with_shape (p : Piece) (s : Shape) : Piece :=
  mkPiece s (px p) (py p) (colorIdx p).

(** Truthiness of a number: everything but [0]. *)
Definition truthy (v : Z) : bool := negb (v =? 0).

(** [SHAPES]: O, I, T, S, Z, L, J. *)
Definition SHAPES : list Shape :=
  [ [[1;1];[1;1]];
    [[1;1;1;1]];
    [[0;1;0];[1;1;1]];
    [[0;1;1];[1;1;0]];
    [[1;1;0];[0;1;1]];
    [[1;0;0];[1;1;1]];
    [[0;0;1];[1;1;1]] ].

(** [Array(COLS).fill(0)] and [emptyGrid()]. *)
Definition zeroRow : Row := replicate COLS 0.
Definition emptyGrid : Board := replicate ROWS zeroRow.

(** ** Array helpers *)

(** [arr.some((elem, index) => ...)]: left to right, stops at the first
    truthy answer; an exception in the callback escapes. *)
Fixpoint some_from {A} (f : A -> nat -> outcome bool) (i : nat) (l : list A)
  : outcome bool :=
  match l with
  | [] => Ok false
  | a :: l' =>
      match f a i with
      | Ok true => Ok true
      | Ok false => some_from f (S i) l'
      | TypeError => TypeError
      | Undefined => Undefined
      | OutOfFuel => OutOfFuel
      end
  end.

Definition some {A} (f : A -> nat -> outcome bool) (l : list A) : outcome bool :=
  some_from f 0%nat l.

(** [arr.forEach((elem, index) => ...)] whose callback updates [s]. *)
Fixpoint forEach_from {A St} (f : A -> nat -> St -> outcome St) (i : nat)
    (l : list A) (s : St) : outcome St :=
  match l with
  | [] => Ok s
  | a :: l' => let* s' := f a i s in forEach_from f (S i) l' s'
  end.

Definition forEach {A St} (f : A -> nat -> St -> outcome St) (l : list A)
    (s : St) : outcome St :=
  forEach_from f 0%nat l s.

(** [arr.map((elem, index) => ...)]. *)
Fixpoint map_from {A B} (f : A -> nat -> outcome B) (i : nat) (l : list A)
  : outcome (list B) :=
  match l with
  | [] => Ok []
  | a :: l' =>
      let* b := f a i in
      let* bs := map_from f (S i) l' in
      Ok (b :: bs)
  end.

Definition mapi {A B} (f : A -> nat -> outcome B) (l : list A)
  : outcome (list B) :=
  map_from f 0%nat l.

(** [for (let i = start; i < start + count; i++) body]. *)
Fixpoint for_from {St} (body : nat -> St -> outcome St) (start count : nat)
    (s : St) : outcome St :=
  match count with
  | O => Ok s
  | S count' => let* s' := body start s in for_from body (S start) count' s'
  end.

Definition for_upto {St} (n : nat) (body : nat -> St -> outcome St) (s : St)
  : outcome St :=
  for_from body 0%nat n s.

(** The read [g[r][c]] used as a condition: a missing row throws, a
    missing column reads [undefined], which is falsy. *)
Definition occupiedAt (g : Board) (r c : Z) : outcome bool :=
  if r <? 0 then TypeError
  else match g !! Z.to_nat r with
       | None => TypeError
       | Some row =>
           Ok (if c <? 0 then false
               else match row !! Z.to_nat c with
                    | Some v => truthy v
                    | None => false
                    end)
       end.

(** The read [r[i]] whose value is kept as a cell. *)
Definition readCell (r : Row) (i : nat) : outcome Z :=
  match r !! i with
  | Some v => Ok v
  | None => Undefined
  end.

(** The store [ng[r][c] = v].  On a missing row it throws.  A column
    outside the row is outside the embedding: JavaScript then gives
    the row a property or new slots, for which a list of cells has no
    place, and the answer here is [Undefined]. *)
Definition storeCell (ng : Board) (r c : Z) (v : Z) : outcome Board :=
  if r <? 0 then TypeError
  else match ng !! Z.to_nat r with
       | None => TypeError
       | Some row =>
           if (0 <=? c) && (c <? Z.of_nat (length row))
           then Ok (<[Z.to_nat r := <[Z.to_nat c := v]> row]> ng)
           else Undefined
       end.

(** [r.some(c => c === 0)] *)
Definition hasEmpty (r : Row) : Prop := Exists (fun c => c = 0) r.

#[global] Instance hasEmpty_dec r : Decision (hasEmpty r).
Proof. unfold hasEmpty. apply _. Defined.

(** [{ newGrid, cleared }] *)
Record Cleared : Type := mkCleared { newGrid : Board; cleared : Z }.

(** [Math.floor((COLS - shape[0].length) / 2)] *)
Definition centreX (sh : Shape) : outcome Z :=
  match sh with
  | [] => TypeError
  | r0 :: _ => Ok ((Z.of_nat COLS - Z.of_nat (length r0)) / 2)
  end.

(** ** Randomness

    [Math.random()] is an oracle: the [k]-th call in the life of the page
    yields [floor(random * n)], any index below [n]; it is read off an
    arbitrary sequence of naturals, reduced below [n]. *)
Record Rng : Type := mkRng { draws : nat -> nat; cursor : nat }.

(** [Math.floor(Math.random() * n)] *)
Definition randomBelow (n : nat) (r : Rng) : nat * Rng :=
  ((draws r (cursor r) mod n)%nat, mkRng (draws r) (S (cursor r))).

(** ** The Solo ruleset *)

Module Solo.

(** [rotate(m)]: [m[0].map((_, i) => m.map(r => r[i]).reverse())] *)
Definition rotate (m : Shape) : outcome Shape :=
  match m with
  | [] => TypeError
  | m0 :: _ =>
      mapi (fun _ i =>
        let* col := mapi (fun r _ => readCell r i) m in
        Ok (reverse col)) m0
  end.

(** [randomPiece()] *)
Definition randomPiece (r : Rng) : outcome (Piece * Rng) :=
  let '(colorIdx, r') := randomBelow (length SHAPES) r in
  match SHAPES !! colorIdx with
  | None => TypeError
  | Some sh =>
      let* x := centreX sh in
      Ok (mkPiece sh x 0 colorIdx, r')
  end.

(** [collides(g, p)] *)
Definition collides (g : Board) (p : Piece) : outcome bool :=
  some (fun row dy => some (fun v dx =>
    if truthy v then
      if Z.of_nat ROWS <=? py p + Z.of_nat dy then Ok true
      else if px p + Z.of_nat dx <? 0 then Ok true
      else if Z.of_nat COLS <=? px p + Z.of_nat dx then Ok true
      else if 0 <=? py p + Z.of_nat dy
           then occupiedAt g (py p + Z.of_nat dy) (px p + Z.of_nat dx)
           else Ok false
    else Ok false) row) (shape p).

(** [merge(g, p)].  [g.map(r => [...r])] builds fresh rows with the
    cells of [g]; as a value that copy is [g] itself (the stores below
    go to the copy, see [Heap.merge] for the rows as objects). *)
Definition merge (g : Board) (p : Piece) : outcome Board :=
  let ng := g in
  forEach (fun row dy ng =>
    forEach (fun v dx ng =>
      if truthy v && (0 <=? py p + Z.of_nat dy)
      then storeCell ng (py p + Z.of_nat dy) (px p + Z.of_nat dx)
             (Z.of_nat (colorIdx p) + 1)
      else Ok ng) row ng) (shape p) ng.

(** [while (kept.length < ROWS) kept.unshift(Array(COLS).fill(0))];
    every turn lengthens [kept], so [ROWS] turns are always enough. *)
Fixpoint unshiftZeros (turns : nat) (kept : Board) : Board :=
  match turns with
  | O => kept
  | S turns' =>
      if (length kept <? ROWS)%nat
      then unshiftZeros turns' (zeroRow :: kept)
      else kept
  end.

(** [clearLines(g)] *)
Definition clearLines (g : Board) : Cleared :=
  let kept := filter hasEmpty g in
  let cleared := Z.of_nat ROWS - Z.of_nat (length kept) in
  mkCleared (unshiftZeros ROWS kept) cleared.

(** The component's state.  A handler or timer callback is one
    transition: the state setters it calls take effect together, and
    the session after it is the state of the next render. *)
Record Session : Type := mkSession {
  grid : Board;
  piece : Piece;
  nextPiece : Piece;
  score : Z;
  level : Z;
  started : bool;
  over : bool;
  countdown : option Z;
  paused : bool;
  rng : Rng;
}.

Definition setPiece (p : Piece) (s : Session) : Session :=
  mkSession (grid s) p (nextPiece s) (score s) (level s) (started s)
    (over s) (countdown s) (paused s) (rng s).
Definition setOver (b : bool) (s : Session) : Session :=
  mkSession (grid s) (piece s) (nextPiece s) (score s) (level s) (started s)
    b (countdown s) (paused s) (rng s).
Definition setPaused (b : bool) (s : Session) : Session :=
  mkSession (grid s) (piece s) (nextPiece s) (score s) (level s) (started s)
    (over s) (countdown s) b (rng s).

(** [resetGame()]; [paused] is not touched. *)
Definition resetGame (s : Session) : outcome Session :=
  let* (p, r1) := randomPiece (rng s) in
  let* (n, r2) := randomPiece r1 in
  Ok (mkSession emptyGrid p n 0 0 false false None (paused s) r2).

(** [Math.max(100, START_SPEED - level * 20)], the period of the
    gravity interval. *)
Definition speed (level : Z) : Z := Z.max 100 (START_SPEED - level * 20).

(** One firing of the gravity interval; the interval only exists
    while [started && !over && !paused]. *)
Definition gravityTick (s : Session) : outcome Session :=
  if negb (started s) || over s || paused s then Ok s
  else
    let p := piece s in
    let nxt := with_y p (py p + 1) in
    let* hit := collides (grid s) nxt in
    if hit then
      if py p =? 0 then Ok (setOver true s)
      else
        let* merged := merge (grid s) p in
        let r := clearLines merged in
        let* (fresh, rng') := randomPiece (rng s) in
        Ok (mkSession (newGrid r) (nextPiece s) fresh
              (score s + 10 + cleared r * 100) (level s + cleared r)
              (started s) (over s) (countdown s) (paused s) rng')
    else Ok (setPiece nxt s).

(** [while (!collides(grid, {...np, y: np.y + 1})) np.y++] *)
Fixpoint dropLoop (fuel : nat) (g : Board) (np : Piece) : outcome Piece :=
  match fuel with
  | O => OutOfFuel
  | S fuel' =>
      let* hit := collides g (with_y np (py np + 1)) in
      if hit then Ok np else dropLoop fuel' g (with_y np (py np + 1))
  end.

(** The updater of [onKey]: the candidate piece [np], then
    [collides(grid, np) ? p : np]. *)
Definition keyUpdater (fuel : nat) (key : string) (g : Board) (p : Piece)
  : outcome Piece :=
  let np := p in
  let np := if String.eqb key "ArrowLeft" then with_x np (px np - 1) else np in
  let np := if String.eqb key "ArrowRight" then with_x np (px np + 1) else np in
  let np := if String.eqb key "ArrowDown" then with_y np (py np + 1) else np in
  let* np := if String.eqb key " "
             then let* sh := rotate (shape p) in Ok (with_shape np sh)
             else Ok np in
  let* np := if String.eqb key "ArrowUp" then dropLoop fuel g np else Ok np in
  let* hit := collides g np in
  Ok (if hit then p else np).

(** [onKey(e)] of the controls effect. *)
Definition onKey (fuel : nat) (key : string) (s : Session) : outcome Session :=
  if negb (started s) || over s then Ok s
  else
    let* p' := keyUpdater fuel key (grid s) (piece s) in
    let s' := setPiece p' s in
    if String.eqb key "r" then resetGame s' else Ok s'.

(** The pause listener: [if (e.key === 'p') setPaused(p => !p)]. *)
Definition onPauseKey (key : string) (s : Session) : Session :=
  if negb (started s) || over s then s
  else if String.eqb key "p" then setPaused (negb (paused s)) s else s.

(** The touch buttons. *)
Definition moveLeft (s : Session) : outcome Session :=
  let p := piece s in
  let np := with_x p (px p - 1) in
  let* hit := collides (grid s) np in
  Ok (setPiece (if hit then p else np) s).

Definition moveRight (s : Session) : outcome Session :=
  let p := piece s in
  let np := with_x p (px p + 1) in
  let* hit := collides (grid s) np in
  Ok (setPiece (if hit then p else np) s).

Definition moveDown (s : Session) : outcome Session :=
  let p := piece s in
  let np := with_y p (py p + 1) in
  let* hit := collides (grid s) np in
  Ok (setPiece (if hit then p else np) s).

Definition rotatePiece (s : Session) : outcome Session :=
  let p := piece s in
  let* sh := rotate (shape p) in
  let np := with_shape p sh in
  let* hit := collides (grid s) np in
  Ok (setPiece (if hit then p else np) s).

Definition hardDrop (fuel : nat) (s : Session) : outcome Session :=
  let* np := dropLoop fuel (grid s) (piece s) in
  Ok (setPiece np s).

Definition handlePause (s : Session) : Session :=
  setPaused (negb (paused s)) s.

End Solo.

(** ** The AAA ruleset *)

Module Aaa.

(** [[bag[i], bag[j]] = [bag[j], bag[i]]] *)
Definition swap (i j : nat) (bag : list nat) : outcome (list nat) :=
  match bag !! j, bag !! i with
  | Some bj, Some bi => Ok (<[j := bi]> (<[i := bj]> bag))
  | _, _ => Undefined
  end.

(** The Fisher-Yates loop [for (let i = ...; i > 0; i--)], entered
    with the current [i]. *)
Fixpoint shuffleFrom (i : nat) (bag : list nat) (r : Rng)
  : outcome (list nat * Rng) :=
  match i with
  | O => Ok (bag, r)
  | S i' =>
      let '(j, r') := randomBelow (i + 1) r in
      let* bag' := swap i j bag in
      shuffleFrom i' bag' r'
  end.

(** [class PieceBag]: the private [bag], with the random source it
    shuffles from. *)
Record PieceBag : Type := mkBag { bag : list nat; rng : Rng }.

(** [refillBag()] *)
Definition refillBag (r : Rng) : outcome PieceBag :=
  let fresh := [0; 1; 2; 3; 4; 5; 6]%nat in
  let* (shuffled, r') := shuffleFrom (length fresh - 1) fresh r in
  Ok (mkBag shuffled r').

(** [new PieceBag()] *)
Definition newPieceBag (r : Rng) : outcome PieceBag := refillBag r.

(** [next()]; [pop()] on an empty array and [SHAPES[colorIdx]] off the
    table both give [undefined], on which [shape[0]] throws. *)
Definition next (b : PieceBag) : outcome (Piece * PieceBag) :=
  let* b1 := if (length (bag b) =? 0)%nat then refillBag (rng b) else Ok b in
  match last (bag b1) with
  | None => TypeError
  | Some colorIdx =>
      let rest := take (length (bag b1) - 1) (bag b1) in
      match SHAPES !! colorIdx with
      | None => TypeError
      | Some sh =>
          let* x := centreX sh in
          Ok (mkPiece sh x 0 colorIdx, mkBag rest (rng b1))
      end
  end.

(** [rotate(shape)] *)
Definition rotate (sh : Shape) : outcome Shape :=
  let rows := length sh in
  match sh with
  | [] => TypeError
  | s0 :: _ =>
      let cols := length s0 in
      let rotated := replicate cols (replicate rows 0) in
      for_upto rows (fun i rotated =>
        for_upto cols (fun j rotated =>
          match sh !! i with
          | None => TypeError
          | Some r =>
              let* v := readCell r j in
              storeCell rotated (Z.of_nat j)
                (Z.of_nat rows - 1 - Z.of_nat i) v
          end) rotated) rotated
  end.

(** [collides(grid, piece)] *)
Definition collides (grid : Board) (piece : Piece) : outcome bool :=
  some (fun row dy => some (fun cell dx =>
    if negb (truthy cell) then Ok false
    else
      let newX := px piece + Z.of_nat dx in
      let newY := py piece + Z.of_nat dy in
      if newX <? 0 then Ok true
      else if Z.of_nat COLS <=? newX then Ok true
      else if Z.of_nat ROWS <=? newY then Ok true
      else if 0 <=? newY then occupiedAt grid newY newX
           else Ok false) row) (shape piece).

(** The loop of [getGhostPiece]. *)
Fixpoint ghostLoop (fuel : nat) (grid : Board) (ghost : Piece)
  : outcome Piece :=
  match fuel with
  | O => OutOfFuel
  | S fuel' =>
      let* hit := collides grid (with_y ghost (py ghost + 1)) in
      if hit then Ok ghost
      else ghostLoop fuel' grid (with_y ghost (py ghost + 1))
  end.

(** [getGhostPiece(piece, grid)] *)
Definition getGhostPiece (fuel : nat) (piece : Piece) (grid : Board)
  : outcome Piece :=
  let ghost := piece in
  ghostLoop fuel grid ghost.

(** [while (kept.length < ROWS) kept.unshift(Array(COLS).fill(0))] *)
Fixpoint unshiftZeros (turns : nat) (kept : Board) : Board :=
  match turns with
  | O => kept
  | S turns' =>
      if (length kept <? ROWS)%nat
      then unshiftZeros turns' (zeroRow :: kept)
      else kept
  end.

(** [clearLines(grid)] *)
Definition clearLines (grid : Board) : Cleared :=
  let kept := filter hasEmpty grid in
  let cleared := Z.of_nat ROWS - Z.of_nat (length kept) in
  mkCleared (unshiftZeros ROWS kept) cleared.

(** [calculateScore(lines, level)] *)
Definition calculateScore (lines level : Z) : Z :=
  let baseScore :=
    if lines =? 1 then 100
    else if lines =? 2 then 300
    else if lines =? 3 then 500
    else if lines =? 4 then 800
    else 0 in
  baseScore * (level + 1).

(** The component's state, with the bag held in the [pieceBag] ref.
    A handler or timer callback is one transition: the state setters it
    calls take effect together.  Where [lockPiece()] is called inside
    a [setPiece] updater, the order of its [setPiece(newPiece)] and of
    the updater's own result is React's, see [UpdaterRun]. *)
Record Session : Type := mkSession {
  grid : Board;
  piece : option Piece;
  nextPieces : list Piece;
  holdPiece : option Piece;
  canHold : bool;
  score : Z;
  level : Z;
  lines : Z;
  started : bool;
  over : bool;
  countdown : option Z;
  paused : bool;
  pieceBag : PieceBag;
}.

Definition setPiece (p : option Piece) (s : Session) : Session :=
  mkSession (grid s) p (nextPieces s) (holdPiece s) (canHold s) (score s)
    (level s) (lines s) (started s) (over s) (countdown s) (paused s)
    (pieceBag s).
Definition setScore (v : Z) (s : Session) : Session :=
  mkSession (grid s) (piece s) (nextPieces s) (holdPiece s) (canHold s) v
    (level s) (lines s) (started s) (over s) (countdown s) (paused s)
    (pieceBag s).
Definition setLevel (v : Z) (s : Session) : Session :=
  mkSession (grid s) (piece s) (nextPieces s) (holdPiece s) (canHold s)
    (score s) v (lines s) (started s) (over s) (countdown s) (paused s)
    (pieceBag s).
Definition setPaused (b : bool) (s : Session) : Session :=
  mkSession (grid s) (piece s) (nextPieces s) (holdPiece s) (canHold s)
    (score s) (level s) (lines s) (started s) (over s) (countdown s) b
    (pieceBag s).

(** The first block of [lockPiece]: [merged], the copy of the grid
    with the piece written in. *)
Definition mergedGrid (grid : Board) (piece : Piece) : outcome Board :=
  let merged := grid in
  forEach (fun row dy merged =>
    forEach (fun cell dx merged =>
      if truthy cell && (0 <=? py piece + Z.of_nat dy)
      then storeCell merged (py piece + Z.of_nat dy)
             (px piece + Z.of_nat dx) (Z.of_nat (colorIdx piece) + 1)
      else Ok merged) row merged) (shape piece) merged.

(** [lockPiece()]; [nextPieces[0]] of an empty queue is [undefined],
    on which [collides] throws. *)
Definition lockPiece (s : Session) : outcome Session :=
  match piece s with
  | None => Ok s
  | Some p =>
      let* merged := mergedGrid (grid s) p in
      let r := clearLines merged in
      let score' :=
        if 0 <? cleared r
        then score s + calculateScore (cleared r) (level s)
        else score s in
      let lines' := if 0 <? cleared r then lines s + cleared r else lines s in
      let* (fresh, bag') := next (pieceBag s) in
      match nextPieces s with
      | [] => TypeError
      | newPiece :: rest =>
          let newNextPieces := rest ++ [fresh] in
          let* hit := collides (newGrid r) newPiece in
          Ok (mkSession (newGrid r) (Some newPiece) newNextPieces
                (holdPiece s) true score' (level s) lines' (started s)
                (if hit then true else over s) (countdown s) (paused s)
                bag')
      end
  end.

(** [rotatePiece()] *)
Definition rotatePiece (s : Session) : outcome Session :=
  match piece s with
  | None => Ok s
  | Some p =>
      let* rotatedShape := rotate (shape p) in
      let rotatedPiece := with_shape p rotatedShape in
      let* hit := collides (grid s) rotatedPiece in
      if negb hit then Ok (setPiece (Some rotatedPiece) s) else Ok s
  end.

(** The loop of [hardDrop], which also counts the rows. *)
Fixpoint hardDropLoop (fuel : nat) (grid : Board) (droppedPiece : Piece)
    (dropDistance : Z) : outcome (Piece * Z) :=
  match fuel with
  | O => OutOfFuel
  | S fuel' =>
      let* hit := collides grid (with_y droppedPiece (py droppedPiece + 1)) in
      if hit then Ok (droppedPiece, dropDistance)
      else hardDropLoop fuel' grid
             (with_y droppedPiece (py droppedPiece + 1)) (dropDistance + 1)
  end.

(** [hardDrop()] *)
Definition hardDrop (fuel : nat) (s : Session) : outcome Session :=
  match piece s with
  | None => Ok s
  | Some p =>
      let* (droppedPiece, dropDistance) := hardDropLoop fuel (grid s) p 0 in
      Ok (setScore (score s + dropDistance * 2)
            (setPiece (Some droppedPiece) s))
  end.

(** [{ ...q, x: Math.floor((COLS - q.shape[0].length) / 2), y: 0 }] *)
Definition recentred (q : Piece) : outcome Piece :=
  let* x := centreX (shape q) in
  Ok (mkPiece (shape q) x 0 (colorIdx q)).

(** [holdPieceAction()] *)
Definition holdPieceAction (s : Session) : outcome Session :=
  match piece s with
  | None => Ok s
  | Some p =>
      if negb (canHold s) then Ok s
      else
        match holdPiece s with
        | Some h =>
            let* newHold := recentred p in
            let* swapped := recentred h in
            Ok (mkSession (grid s) (Some swapped) (nextPieces s)
                  (Some newHold) false (score s) (level s) (lines s)
                  (started s) (over s) (countdown s) (paused s)
                  (pieceBag s))
        | None =>
            let* newHold := recentred p in
            let* (fresh, bag') := next (pieceBag s) in
            let newNextPieces := drop 1 (nextPieces s) ++ [fresh] in
            Ok (mkSession (grid s) (head (nextPieces s)) newNextPieces
                  (Some newHold) false (score s) (level s) (lines s)
                  (started s) (over s) (countdown s) (paused s) bag')
        end
  end.

(** When React runs the updater [u] of a call [setPiece(u)].  A
    component without pending work gets it run at once, inside
    [setPiece]: the updates the updater makes itself are queued first
    and its result is applied after them ([Eager]).  Otherwise it runs
    while the component renders, and the updates made inside it are
    applied after its result ([InRender]).  Which of the two happens
    is React's choice, not the component's: it is an input of every
    event that passes such an updater. *)
Inductive UpdaterRun : Type :=
| Eager
| InRender.

(** What the gravity interval, the soft drop and the down swipe run
    inside [setPiece]: one row down, or [lockPiece(); return p].
    After [lockPiece()] the updater returns the piece it was given:
    run eagerly, that value is applied after [lockPiece]'s own
    [setPiece(newPiece)], so that the locked piece stays the active
    one; run in a render, [setPiece(newPiece)] is applied last. *)
Definition stepDown (run : UpdaterRun) (s : Session) : outcome Session :=
  match piece s with
  | None => Ok s
  | Some p =>
      let newPiece := with_y p (py p + 1) in
      let* hit := collides (grid s) newPiece in
      if hit then
        match run with
        | InRender => lockPiece s
        | Eager => let* s' := lockPiece s in Ok (setPiece (Some p) s')
        end
      else Ok (setPiece (Some newPiece) s)
  end.

(** [Math.max(100, START_SPEED - level * 30)], the period of the
    gravity interval. *)
Definition speed (level : Z) : Z := Z.max 100 (START_SPEED - level * 30).

(** One firing of the gravity interval; the interval only exists
    while [started && !over && !paused && piece]. *)
Definition gravityTick (run : UpdaterRun) (s : Session) : outcome Session :=
  if negb (started s) || over s || paused s then Ok s
  else stepDown run s.

(** [case 'ArrowLeft'] *)
Definition arrowLeft (s : Session) : outcome Session :=
  match piece s with
  | None => Ok s
  | Some p =>
      let newPiece := with_x p (px p - 1) in
      let* hit := collides (grid s) newPiece in
      Ok (setPiece (Some (if hit then p else newPiece)) s)
  end.

(** [case 'ArrowRight'] *)
Definition arrowRight (s : Session) : outcome Session :=
  match piece s with
  | None => Ok s
  | Some p =>
      let newPiece := with_x p (px p + 1) in
      let* hit := collides (grid s) newPiece in
      Ok (setPiece (Some (if hit then p else newPiece)) s)
  end.

(** [resetGame()] *)
Definition resetGame (s : Session) : outcome Session :=
  let* b0 := newPieceBag (rng (pieceBag s)) in
  let* (p1, b1) := next b0 in
  let* (p2, b2) := next b1 in
  let* (p3, b3) := next b2 in
  let initialPieces := [p1; p2; p3] in
  Ok (mkSession emptyGrid (Some p1) initialPieces None true 0 0 0
        false false None (paused s) b3).

(** [handleKeyDown(e)] *)
Definition handleKeyDown (run : UpdaterRun) (fuel : nat) (key : string)
    (s : Session) : outcome Session :=
  if negb (started s) || over s || paused s then Ok s
  else if String.eqb key "ArrowLeft" then arrowLeft s
  else if String.eqb key "ArrowRight" then arrowRight s
  else if String.eqb key "ArrowDown" then stepDown run s
  else if String.eqb key "ArrowUp" then hardDrop fuel s
  else if String.eqb key " " then rotatePiece s
  else if String.eqb key "c" || String.eqb key "C" then holdPieceAction s
  else if String.eqb key "p" || String.eqb key "P"
       then Ok (setPaused (negb (paused s)) s)
  else if String.eqb key "r" || String.eqb key "R" then resetGame s
  else Ok s.

(** What [handleTouchEnd] reads off a touch: the outcomes of the five
    comparisons it makes on the touch coordinates and times, which are
    numbers of the browser and stay outside the embedding. *)
Record Touch : Type := mkTouch {
  near : bool;       (* distance < 30 *)
  quick : bool;      (* deltaTime < 300 *)
  sideways : bool;   (* Math.abs(deltaX) > Math.abs(deltaY) *)
  rightward : bool;  (* deltaX > 0 *)
  downward : bool;   (* deltaY > 0 *)
}.

(** [handleTouchEnd(e)]; the touch effect installs it only while
    [isMobileDevice && started && !over && !paused].  A short tap
    rotates, a swipe moves to the side, soft-drops (with the updater
    of the key ArrowDown) or hard-drops. *)
Definition handleTouchEnd (isMobileDevice : bool) (run : UpdaterRun)
    (fuel : nat) (t : Touch) (s : Session) : outcome Session :=
  if negb isMobileDevice || negb (started s) || over s || paused s then Ok s
  else if near t then (if quick t then rotatePiece s else Ok s)
  else if sideways t then (if rightward t then arrowRight s else arrowLeft s)
  else if downward t then stepDown run s
  else hardDrop fuel s.

(** The level effect: [Math.floor(lines / 10)], stored when it
    differs. *)
Definition levelEffect (s : Session) : Session :=
  let newLevel := lines s / 10 in
  if negb (newLevel =? level s) then setLevel newLevel s else s.

End Aaa.

(** ** Rows as objects

    [merge] copies the board before it writes.  To see that its stores
    reach the copy only, the row arrays are placed in a store and a
    board is the list of the addresses of its rows. *)

Module Heap.

(** The store of row arrays, addressed by position, and a board as the
    addresses of its rows. *)
Abbreviation Store := (list (list Z)).
Abbreviation BoardRef := (list nat).

(** [[...r]]: a fresh array with the elements of the row at [a];
    spreading [undefined] throws. *)
Definition copyRow (a : nat) (h : Store) : outcome (nat * Store) :=
  match h !! a with
  | None => TypeError
  | Some row => Ok (length h, h ++ [row])
  end.

(** [g.map(r => [...r])] *)
Fixpoint copyRows (g : BoardRef) (h : Store) : outcome (BoardRef * Store) :=
  match g with
  | [] => Ok ([], h)
  | a :: g' =>
      let* (a', h1) := copyRow a h in
      let* (rest, h2) := copyRows g' h1 in
      Ok (a' :: rest, h2)
  end.

(** [ng[r][c] = v] *)
Definition storeCell (ng : BoardRef) (r c : Z) (v : Z) (h : Store)
  : outcome Store :=
  if r <? 0 then TypeError
  else match ng !! Z.to_nat r with
       | None => TypeError
       | Some a =>
           match h !! a with
           | None => TypeError
           | Some row =>
               if (0 <=? c) && (c <? Z.of_nat (length row))
               then Ok (<[a := <[Z.to_nat c := v]> row]> h)
               else Undefined
           end
       end.

(** [merge(g, p)] over the store: the new board and the store after. *)
Definition merge (g : BoardRef) (p : Piece) (h : Store)
  : outcome (BoardRef * Store) :=
  let* (ng, h1) := copyRows g h in
  let* h2 :=
    forEach (fun row dy h =>
      forEach (fun v dx h =>
        if truthy v && (0 <=? py p + Z.of_nat dy)
        then storeCell ng (py p + Z.of_nat dy) (px p + Z.of_nat dx)
               (Z.of_nat (colorIdx p) + 1) h
        else Ok h) row h) (shape p) h1 in
  Ok (ng, h2).


End Heap.

(** ** The rest of the Solo component: start, buttons, listeners *)

Module SoloApp.

(** [COLORS] (O, I, T, S, Z, L, J) *)
Definition COLORS : list string :=
  ["#faca0d"; "#00e5ff"; "#a335ee"; "#3cff3c"; "#ff4949"; "#ff9b00";
   "#3c59ff"].

(** [useState] initial values: an empty grid, two random pieces. *)
Definition initial (r : Rng) : outcome Solo.Session :=
  let* (p, r1) := Solo.randomPiece r in
  let* (n, r2) := Solo.randomPiece r1 in
  Ok (Solo.mkSession emptyGrid p n 0 0 false false None false r2).

Definition setStarted (b : bool) (s : Solo.Session) : Solo.Session :=
  Solo.mkSession (Solo.grid s) (Solo.piece s) (Solo.nextPiece s)
    (Solo.score s) (Solo.level s) b (Solo.over s) (Solo.countdown s)
    (Solo.paused s) (Solo.rng s).
Definition setCountdown (c : option Z) (s : Solo.Session) : Solo.Session :=
  Solo.mkSession (Solo.grid s) (Solo.piece s) (Solo.nextPiece s)
    (Solo.score s) (Solo.level s) (Solo.started s) (Solo.over s) c
    (Solo.paused s) (Solo.rng s).

(** [startGame()]: [let t = 3; setCountdown(t)], and an interval is
    installed whose callback owns [t]; the first component is that
    [t]. *)
Definition startGame (s : Solo.Session) : Z * Solo.Session :=
  let t := 3 in (t, setCountdown (Some t) s).

(** One firing of the countdown interval with its current [t]:
    [t--; if (t === 0) { clearInterval(id); setCountdown(null);
    setStarted(true) } else setCountdown(t)].  [None] in the first
    component: the interval has been cleared. *)
Definition countdownTick (t : Z) (s : Solo.Session)
  : option Z * Solo.Session :=
  let t := t - 1 in
  if t =? 0 then (None, setStarted true (setCountdown None s))
  else (Some t, setCountdown (Some t) s).

(** A [keydown] event reaches both listeners, [onKey] of the controls
    effect and then the pause listener, each with the [started] and
    [over] of the render they were installed in. *)
Definition keyDown (fuel : nat) (key : string) (s : Solo.Session)
  : outcome Solo.Session :=
  let* s1 := Solo.onKey fuel key s in
  if negb (Solo.started s) || Solo.over s then Ok s1
  else if String.eqb key "p"
       then Ok (Solo.setPaused (negb (Solo.paused s1)) s1)
       else Ok s1.

(** The buttons of the pause screen: RESUME, REPLAY, EXIT. *)
Definition resume (s : Solo.Session) : Solo.Session :=
  Solo.setPaused false s.

Definition replay (s : Solo.Session) : outcome Solo.Session :=
  let* s1 := Solo.resetGame s in
  Ok (setStarted true (Solo.setPaused false s1)).

Definition exit (s : Solo.Session) : outcome Solo.Session :=
  Solo.resetGame s.

(** What the JSX renders: the start button, the touch buttons (on a
    mobile device), the pause screen. *)
Definition startVisible (s : Solo.Session) : bool :=
  negb (Solo.started s) && bool_decide (Solo.countdown s = None).

Definition touchVisible (isMobileDevice : bool) (s : Solo.Session) : bool :=
  isMobileDevice && Solo.started s && negb (Solo.over s).

Definition pauseScreenVisible (s : Solo.Session) : bool :=
  Solo.paused s && Solo.started s && negb (Solo.over s).

(** The colours the drawing effect looks up: [COLORS[v-1]] for a
    board cell [v] (when [v] is truthy), [COLORS[colorIdx]] for a
    piece; [None] stands for [undefined]. *)
Definition cellColor (v : Z) : option string :=
  if v - 1 <? 0 then None else COLORS !! Z.to_nat (v - 1).

Definition pieceColor (p : Piece) : option string :=
  COLORS !! colorIdx p.

End SoloApp.

(** ** The rest of the AAA component: mount, start, buttons *)

Module AaaApp.

(** [COLORS] (O, I, T, S, Z, L, J) *)
Definition COLORS : list string :=
  ["#FFD700"; "#00E5FF"; "#A335EE"; "#3CFF3C"; "#FF4949"; "#FF9B00";
   "#3C59FF"].

(** [useState] initial values and the [pieceBag] ref. *)
Definition initial (r : Rng) : outcome Aaa.Session :=
  let* b := Aaa.newPieceBag r in
  Ok (Aaa.mkSession emptyGrid None [] None true 0 0 0 false false None
        false b).

(** The mount effect: three draws, the first of which is also made
    the active piece. *)
Definition mount (s : Aaa.Session) : outcome Aaa.Session :=
  let* (p1, b1) := Aaa.next (Aaa.pieceBag s) in
  let* (p2, b2) := Aaa.next b1 in
  let* (p3, b3) := Aaa.next b2 in
  let initialPieces := [p1; p2; p3] in
  Ok (Aaa.mkSession (Aaa.grid s) (head initialPieces) initialPieces
        (Aaa.holdPiece s) (Aaa.canHold s) (Aaa.score s) (Aaa.level s)
        (Aaa.lines s) (Aaa.started s) (Aaa.over s) (Aaa.countdown s)
        (Aaa.paused s) b3).

Definition setStarted (b : bool) (s : Aaa.Session) : Aaa.Session :=
  Aaa.mkSession (Aaa.grid s) (Aaa.piece s) (Aaa.nextPieces s)
    (Aaa.holdPiece s) (Aaa.canHold s) (Aaa.score s) (Aaa.level s)
    (Aaa.lines s) b (Aaa.over s) (Aaa.countdown s) (Aaa.paused s)
    (Aaa.pieceBag s).
Definition setCountdown (c : option Z) (s : Aaa.Session) : Aaa.Session :=
  Aaa.mkSession (Aaa.grid s) (Aaa.piece s) (Aaa.nextPieces s)
    (Aaa.holdPiece s) (Aaa.canHold s) (Aaa.score s) (Aaa.level s)
    (Aaa.lines s) (Aaa.started s) (Aaa.over s) c (Aaa.paused s)
    (Aaa.pieceBag s).

(** [startGame()] and one firing of its countdown interval, as in the
    Solo component. *)
Definition startGame (s : Aaa.Session) : Z * Aaa.Session :=
  let t := 3 in (t, setCountdown (Some t) s).

Definition countdownTick (t : Z) (s : Aaa.Session)
  : option Z * Aaa.Session :=
  let t := t - 1 in
  if t =? 0 then (None, setStarted true (setCountdown None s))
  else (Some t, setCountdown (Some t) s).

(** The pause button and the buttons of the pause and game-over
    screens: RESUME, NEW GAME / PLAY AGAIN, EXIT / MAIN MENU. *)
Definition pauseButton (s : Aaa.Session) : Aaa.Session :=
  Aaa.setPaused (negb (Aaa.paused s)) s.

Definition resume (s : Aaa.Session) : Aaa.Session :=
  Aaa.setPaused false s.

Definition newGame (s : Aaa.Session) : outcome Aaa.Session :=
  let* s1 := Aaa.resetGame s in
  Ok (Aaa.setPaused false s1).

Definition exit (s : Aaa.Session) : outcome Aaa.Session :=
  Aaa.resetGame s.

(** What the JSX renders: the start menu, the pause screen, the
    game-over screen. *)
Definition startVisible (s : Aaa.Session) : bool :=
  negb (Aaa.started s) && bool_decide (Aaa.countdown s = None).

Definition pauseScreenVisible (s : Aaa.Session) : bool :=
  Aaa.paused s && Aaa.started s && negb (Aaa.over s).

Definition overScreenVisible (s : Aaa.Session) : bool := Aaa.over s.

(** The colours the drawing effect looks up: [COLORS[cell - 1]] for a
    board cell with [cell > 0], [COLORS[colorIdx]] for a piece;
    [None] stands for [undefined]. *)
Definition cellColor (cell : Z) : option string :=
  if cell - 1 <? 0 then None else COLORS !! Z.to_nat (cell - 1).

Definition pieceColor (p : Piece) : option string :=
  COLORS !! colorIdx p.

End AaaApp.

(** ** Specification vocabulary *)

(** The board has exactly [ROWS] rows of [COLS] cells. *)
Definition wf_board (g : Board) : Prop :=
  length g = ROWS /\ Forall (fun r => length r = COLS) g.

(** Cell [(dy, dx)] of the piece's shape is occupied. *)
Definition occupied (p : Piece) (dy dx : nat) : Prop :=
  exists row v, shape p !! dy = Some row /\ row !! dx = Some v /\ v <> 0.

(** Board cell at row [r], column [c] (both non-negative) is non-empty. *)
Definition filled (g : Board) (r c : Z) : Prop :=
  exists row v,
    g !! Z.to_nat r = Some row /\ row !! Z.to_nat c = Some v /\ v <> 0.

(** What the specification says makes an occupied cell collide. *)
Definition hits (g : Board) (p : Piece) (dy dx : nat) : Prop :=
  let c := px p + Z.of_nat dx in
  let r := py p + Z.of_nat dy in
  c < 0 \/ Z.of_nat COLS <= c \/ Z.of_nat ROWS <= r \/ (0 <= r /\ filled g r c).

(** The content of cell [(r, c)] of a board, when it has one. *)
Definition cellAt (g : Board) (r c : nat) : option Z :=
  match g !! r with
  | Some row => row !! c
  | None => None
  end.

(** Occupied cell [(dy, dx)] of the piece lies on board cell [(r, c)]. *)
Definition covers (p : Piece) (dy dx r c : nat) : Prop :=
  occupied p dy dx /\ py p + Z.of_nat dy = Z.of_nat r
  /\ px p + Z.of_nat dx = Z.of_nat c.

(** Every occupied cell of the piece at a row [>= 0] is a cell of the
    board. *)
Definition fits (g : Board) (p : Piece) : Prop :=
  forall dy dx, occupied p dy dx -> 0 <= py p + Z.of_nat dy ->
    0 <= px p + Z.of_nat dx /\
    is_Some (cellAt g (Z.to_nat (py p + Z.of_nat dy))
               (Z.to_nat (px p + Z.of_nat dx))).

(** The piece crosses neither a wall nor the floor; rows above the top
    of the board are allowed.  Both callers of [merge] hand it such a
    piece: it is what [collides] has checked of the piece whatever the
    board holds. *)
Definition withinWalls (p : Piece) : Prop :=
  forall dy dx, occupied p dy dx ->
    0 <= px p + Z.of_nat dx < Z.of_nat COLS /\
    py p + Z.of_nat dy < Z.of_nat ROWS.

(** The result of a computation, transformed. *)
Definition omap {A B} (f : A -> B) (m : outcome A) : outcome B :=
  bind m (fun a => Ok (f a)).

(** [merge] as the specification describes it: it returns a board with
    the rows of [g], where the cells under the occupied cells of the
    piece hold [colorIdx + 1] and every other cell is as in [g] (cells
    of the piece above row 0 lie on no cell of the board). *)
Definition merge_writes (g : Board) (p : Piece) (result : outcome Board) : Prop :=
  exists ng, result = Ok ng /\
    (length <$> ng) = (length <$> g) /\
    (forall r c dy dx, covers p dy dx r c ->
       cellAt ng r c = Some (Z.of_nat (colorIdx p) + 1)) /\
    (forall r c, (forall dy dx, ~ covers p dy dx r c) ->
       cellAt ng r c = cellAt g r c).

(** The O piece as [randomPiece] and [next] build it. *)
Definition pieceO : Piece := mkPiece [[1;1];[1;1]] 4 0 0.

(** A row is full when it contains no empty (zero) cell. *)
Definition fullRow (r : Row) : Prop := Forall (fun c => c <> 0) r.

#[global] Instance fullRow_dec r : Decision (fullRow r).
Proof. unfold fullRow. apply _. Defined.

(** An [R] by [C] matrix: [R] rows of [C] cells. *)
Definition rect (sh : Shape) (R C : nat) : Prop :=
  length sh = R /\ Forall (fun r => length r = C) sh.

(** The tiered table of the specification: 1 -> 100, 2 -> 300,
    3 -> 500, 4 -> 800, nothing otherwise. *)
Definition tierTable (n : Z) : Z :=
  match n with
  | 1 => 100
  | 2 => 300
  | 3 => 500
  | 4 => 800
  | _ => 0
  end.

(** The O piece with its lower row one below the floor. *)
Definition pieceSunk : Piece := mkPiece [[1;1];[1;1]] 4 19 0.

(** The I, T and S pieces as [randomPiece] and [next] build them. *)
Definition pieceI : Piece := mkPiece [[1;1;1;1]] 3 0 1.
Definition pieceT : Piece := mkPiece [[0;1;0];[1;1;1]] 3 0 2.
Definition pieceS : Piece := mkPiece [[0;1;1];[1;1;0]] 3 0 3.

(** [n] successive calls of [next()], with the pieces drawn in order. *)
Fixpoint drawMany (n : nat) (b : Aaa.PieceBag)
  : outcome (list Piece * Aaa.PieceBag) :=
  match n with
  | O => Ok ([], b)
  | S n' =>
      let* (p, b1) := Aaa.next b in
      let* (ps, b2) := drawMany n' b1 in
      Ok (p :: ps, b2)
  end.

(** The bags a session can hold: a new one, or one after a draw. *)
Inductive bagReachable : Aaa.PieceBag -> Prop :=
| reach_new r b : Aaa.newPieceBag r = Ok b -> bagReachable b
| reach_next b p b' :
    bagReachable b -> Aaa.next b = Ok (p, b') -> bagReachable b'.

(** The seven type indices. *)
Definition allTypes : list nat := [0; 1; 2; 3; 4; 5; 6]%nat.

(** [n] soft-drop keys in a row. *)
Fixpoint softDrops (run : Aaa.UpdaterRun) (n : nat) (s : Aaa.Session)
  : outcome Aaa.Session :=
  match n with
  | O => Ok s
  | S n' =>
      let* s' := Aaa.handleKeyDown run 0 "ArrowDown" s in softDrops run n' s'
  end.

(** [n] firings of the Solo gravity interval in a row. *)
Fixpoint soloTicks (n : nat) (t : Solo.Session) : outcome Solo.Session :=
  match n with
  | O => Ok t
  | S n' => let* t' := Solo.gravityTick t in soloTicks n' t'
  end.

(** The empty board with the O piece on the floor below its spawn
    column. *)
Definition restingO : Board :=
  replicate 18 zeroRow ++ replicate 2 [0;0;0;0;1;1;0;0;0;0].

(** The held slot holds piece [p] put back at its spawn position:
    same shape and type, centred, at row 0. *)
Definition recentred_hold (p : Piece) (slot : option Piece) : Prop :=
  exists h, slot = Some h /\
    shape h = shape p /\ colorIdx h = colorIdx p /\ py h = 0 /\
    match shape p with
    | [] => False
    | r0 :: _ => px h = (Z.of_nat COLS - Z.of_nat (length r0)) / 2
    end.

(** A random source, for concrete runs. *)
Definition demoRng : Rng := mkRng (fun k => (3 * k + 1)%nat) 0.

(** A running AAA session on board [g] with active piece [p], three
    previews, nothing held and three types left in the bag (as after
    the first lock of a game whose bag began O, I, T, S). *)
Definition aaaRunning (g : Board) (p : Piece) : Aaa.Session :=
  Aaa.mkSession g (Some p) [pieceI; pieceT; pieceS] None true 0 0 0
    true false None false (Aaa.mkBag [4; 6; 5]%nat demoRng).

(** A running Solo session on board [g] with active piece [p]. *)
Definition soloRunning (g : Board) (p : Piece) : Solo.Session :=
  Solo.mkSession g p pieceT 0 0 true false None false demoRng.

(** The Solo session with the O piece resting on the floor of the
    empty board. *)
Definition soloResting : Solo.Session :=
  soloRunning emptyGrid (with_y pieceO 18).

(** The two bottom rows filled but for columns 4 and 5. *)
Definition gapGrid : Board :=
  replicate 18 zeroRow ++ replicate 2 [1;1;1;1;0;0;1;1;1;1].

(** Ten O pieces dropped from the spawn position: columns 4 and 5
    filled in every row. *)
Definition towerGrid : Board := replicate ROWS [0;0;0;0;1;1;0;0;0;0].

(** The cells already written when the scan of the shape stands at
    [(dy, dx)]: those under an occupied cell that comes earlier. *)
Definition written (p : Piece) (dy dx r c : nat) : Prop :=
  exists dy' dx', ((dy' < dy)%nat \/ dy' = dy /\ (dx' < dx)%nat) /\
    covers p dy' dx' r c.

Definition merge_inv (g : Board) (p : Piece) (dy dx : nat) (ng : Board) : Prop :=
  (length <$> ng) = (length <$> g) /\
  (forall r c, written p dy dx r c ->
     cellAt ng r c = Some (Z.of_nat (colorIdx p) + 1)) /\
  (forall r c, ~ written p dy dx r c -> cellAt ng r c = cellAt g r c).

(** The state of [rotated] when the loops of [Aaa.rotate] stand at
    [(i, j)]: the cells whose source comes earlier are filled in, the
    others still hold the initial 0. *)
Definition rotate_inv (sh : Shape) (R C i j : nat) (rot : Shape) : Prop :=
  (length <$> rot) = replicate C R /\
  forall j' k, (j' < C)%nat -> (k < R)%nat ->
    cellAt rot j' k =
      if decide ((R - 1 - k < i)%nat \/ (R - 1 - k)%nat = i /\ (j' < j)%nat)
      then cellAt sh (R - 1 - k) j' else Some 0.

(** What is in the bag is part of one arrangement of the seven types. *)
Definition bagInv (b : Aaa.PieceBag) : Prop :=
  exists drawn, Aaa.bag b ++ drawn ≡ₚ allTypes.

(** Decide the comparisons of the pressed key with the key names. *)
Ltac eval_keys :=
  repeat match goal with
  | |- context [String.eqb ?a ?b] =>
      let v := eval vm_compute in (String.eqb a b) in
      change (String.eqb a b) with v
  end;
  cbv beta iota zeta.

(** *** Vocabulary of the further properties *)

(** Four quarter turns in a row. *)
Definition soloRotate4 (sh : Shape) : outcome Shape :=
  let* a := Solo.rotate sh in
  let* b := Solo.rotate a in
  let* c := Solo.rotate b in
  Solo.rotate c.

Definition aaaRotate4 (sh : Shape) : outcome Shape :=
  let* a := Aaa.rotate sh in
  let* b := Aaa.rotate a in
  let* c := Aaa.rotate b in
  Aaa.rotate c.

(** Every cell holds 0 or a palette index 1..7. *)
Definition palette (g : Board) : Prop :=
  Forall (Forall (fun v => 0 <= v <= 7)) g.

(** A piece as the supply builds it: a base shape with its type index,
    centred, at row 0. *)
Definition spawned (p : Piece) : Prop :=
  SHAPES !! colorIdx p = Some (shape p) /\
  centreX (shape p) = Ok (px p) /\ py p = 0.

(** A piece of a valid type whose shape is a matrix of at most 4 by 4
    with an occupied cell. *)
Definition goodPiece (p : Piece) : Prop :=
  (colorIdx p < 7)%nat /\
  (exists R C, (1 <= R <= 4)%nat /\ (1 <= C <= 4)%nat /\ rect (shape p) R C) /\
  exists dy dx, occupied p dy dx.

(** The piece lies inside the board: at or below row 0, and every
    occupied cell in a column of the board and above the floor. *)
Definition inBounds (p : Piece) : Prop :=
  0 <= py p /\
  forall dy dx, occupied p dy dx ->
    0 <= px p + Z.of_nat dx < Z.of_nat COLS /\
    py p + Z.of_nat dy < Z.of_nat ROWS.

(** The states of a game in progress, AAA ruleset: a board of the
    right shape and palette without a full row, an active piece inside
    it, three spawned previews, a sound held piece and bag, counters
    that are not negative.  [aaa_ok] adds that the level effect has
    run. *)
Record aaa_sound (s : Aaa.Session) : Prop := mk_aaa_sound {
  aaa_grid_wf : wf_board (Aaa.grid s);
  aaa_grid_palette : palette (Aaa.grid s);
  aaa_piece : exists p, Aaa.piece s = Some p /\ goodPiece p /\ inBounds p;
  aaa_queue : length (Aaa.nextPieces s) = 3%nat /\
              Forall spawned (Aaa.nextPieces s);
  aaa_hold : forall h, Aaa.holdPiece s = Some h -> goodPiece h;
  aaa_bag : bagInv (Aaa.pieceBag s);
  aaa_counts : 0 <= Aaa.score s /\ 0 <= Aaa.lines s /\ 0 <= Aaa.level s;
  aaa_grid_settled : Forall (fun r => ~ fullRow r) (Aaa.grid s);
}.

Definition aaa_ok (s : Aaa.Session) : Prop :=
  aaa_sound s /\ Aaa.level s = Aaa.lines s / 10.

(** The states of a game in progress, Solo ruleset. *)
Record solo_ok (t : Solo.Session) : Prop := mk_solo_ok {
  solo_grid_wf : wf_board (Solo.grid t);
  solo_grid_palette : palette (Solo.grid t);
  solo_piece : goodPiece (Solo.piece t) /\ inBounds (Solo.piece t);
  solo_next : spawned (Solo.nextPiece t);
  solo_counts : 0 <= Solo.score t /\ 0 <= Solo.level t;
  solo_grid_settled : Forall (fun r => ~ fullRow r) (Solo.grid t);
}.

(** What can happen to the AAA component: the gravity interval fires,
    a key goes down, a touch ends, a button is clicked.  The first
    three pass an updater to [setPiece] and come with the way React
    runs it. *)
Inductive AaaEvent : Type :=
| ATick (run : Aaa.UpdaterRun)
| AKey (key : string) (run : Aaa.UpdaterRun)
| ATouchEnd (touch : Aaa.Touch) (run : Aaa.UpdaterRun)
| APauseButton
| AResume
| ANewGame
| AExit.

(** The handler of an event, followed by the level effect of the
    render it causes; [isMobileDevice] is set once, by the mount
    effect. *)
Definition aaaStep (isMobileDevice : bool) (fuel : nat) (ev : AaaEvent)
    (s : Aaa.Session) : outcome Aaa.Session :=
  omap Aaa.levelEffect
    match ev with
    | ATick run => Aaa.gravityTick run s
    | AKey key run => Aaa.handleKeyDown run fuel key s
    | ATouchEnd touch run =>
        Aaa.handleTouchEnd isMobileDevice run fuel touch s
    | APauseButton => Ok (AaaApp.pauseButton s)
    | AResume => Ok (AaaApp.resume s)
    | ANewGame => AaaApp.newGame s
    | AExit => AaaApp.exit s
    end.

Fixpoint aaaRun (isMobileDevice : bool) (fuel : nat) (evs : list AaaEvent)
    (s : Aaa.Session) : outcome Aaa.Session :=
  match evs with
  | [] => Ok s
  | ev :: evs' =>
      let* s' := aaaStep isMobileDevice fuel ev s in
      aaaRun isMobileDevice fuel evs' s'
  end.

(** What can happen to the Solo component. *)
Inductive SoloEvent : Type :=
| STick
| SKey (key : string)
| SLeft
| SRight
| SDown
| SRotate
| SHardDrop
| SPauseButton
| SResume
| SReplay
| SExit.

Definition soloStep (fuel : nat) (ev : SoloEvent) (t : Solo.Session)
  : outcome Solo.Session :=
  match ev with
  | STick => Solo.gravityTick t
  | SKey key => SoloApp.keyDown fuel key t
  | SLeft => Solo.moveLeft t
  | SRight => Solo.moveRight t
  | SDown => Solo.moveDown t
  | SRotate => Solo.rotatePiece t
  | SHardDrop => Solo.hardDrop fuel t
  | SPauseButton => Ok (Solo.handlePause t)
  | SResume => Ok (SoloApp.resume t)
  | SReplay => SoloApp.replay t
  | SExit => SoloApp.exit t
  end.

Fixpoint soloRun (fuel : nat) (evs : list SoloEvent) (t : Solo.Session)
  : outcome Solo.Session :=
  match evs with
  | [] => Ok t
  | ev :: evs' => let* t' := soloStep fuel ev t in soloRun fuel evs' t'
  end.

(** The events whose control is on the page in state [t] (the key
    listeners are always installed, the pause button always shown; the
    gravity interval exists while the game runs). *)
Definition soloEnabled (isMobileDevice : bool) (ev : SoloEvent)
    (t : Solo.Session) : bool :=
  match ev with
  | STick => Solo.started t && negb (Solo.over t) && negb (Solo.paused t)
  | SKey _ | SPauseButton => true
  | SLeft | SRight | SDown | SRotate | SHardDrop =>
      SoloApp.touchVisible isMobileDevice t
  | SResume | SReplay | SExit => SoloApp.pauseScreenVisible t
  end.

(** A run in which every event is enabled when it happens. *)
Fixpoint soloRunEnabled (isMobileDevice : bool) (fuel : nat)
    (evs : list SoloEvent) (t : Solo.Session) : bool :=
  match evs with
  | [] => true
  | ev :: evs' =>
      soloEnabled isMobileDevice ev t &&
      match soloStep fuel ev t with
      | Ok t' => soloRunEnabled isMobileDevice fuel evs' t'
      | _ => true
      end
  end.

(** The events of the keyboard and of the gravity interval. *)
Definition aaaKeyOrTick (ev : AaaEvent) : bool :=
  match ev with
  | ATick _ | AKey _ _ => true
  | _ => false
  end.

(** [k] firings of the countdown interval after [startGame()]: the
    interval's [t] (when it is still installed) and the session. *)
Fixpoint aaaCountdown (k : nat) (timer : option Z) (s : Aaa.Session)
  : option Z * Aaa.Session :=
  match k, timer with
  | S k', Some t =>
      let '(timer', s') := AaaApp.countdownTick t s in
      aaaCountdown k' timer' s'
  | _, _ => (timer, s)
  end.

Fixpoint soloCountdown (k : nat) (timer : option Z) (t : Solo.Session)
  : option Z * Solo.Session :=
  match k, timer with
  | S k', Some c =>
      let '(timer', t') := SoloApp.countdownTick c t in
      soloCountdown k' timer' t'
  | _, _ => (timer, t)
  end.

(** The start button clicked and the countdown run to its end. *)
Definition aaaStarted (s : Aaa.Session) : Aaa.Session :=
  let '(t, s0) := AaaApp.startGame s in snd (aaaCountdown 3 (Some t) s0).

Definition soloStarted (t : Solo.Session) : Solo.Session :=
  let '(c, t0) := SoloApp.startGame t in snd (soloCountdown 3 (Some c) t0).

(** The counters of [s'] are at least those of [s]. *)
Definition aaa_le (s s' : Aaa.Session) : Prop :=
  Aaa.score s <= Aaa.score s' /\ Aaa.lines s <= Aaa.lines s' /\
  Aaa.level s <= Aaa.level s'.

Definition solo_le (t t' : Solo.Session) : Prop :=
  Solo.score t <= Solo.score t' /\ Solo.level t <= Solo.level t'.

(** The events that call [resetGame()]. *)
Definition aaaRestarts (ev : AaaEvent) : bool :=
  match ev with
  | AKey key _ => String.eqb key "r" || String.eqb key "R"
  | ANewGame | AExit => true
  | _ => false
  end.

(** The events that pass the updater [stepDown] to [setPiece]: the
    gravity tick, the key ArrowDown and the down swipe. *)
Definition aaaDescends (ev : AaaEvent) : bool :=
  match ev with
  | ATick _ => true
  | AKey key _ => String.eqb key "ArrowDown"
  | ATouchEnd t _ =>
      negb (Aaa.near t) && negb (Aaa.sideways t) && Aaa.downward t
  | _ => false
  end.

Definition soloRestarts (ev : SoloEvent) : bool :=
  match ev with
  | SKey key => String.eqb key "r"
  | SReplay | SExit => true
  | _ => false
  end.

(** ** Properties of [some] *)

Section SomeSpec.
Context {A : Type}.
Implicit Types (f : A -> nat -> outcome bool) (P : nat -> A -> Prop).

(** When the callback answers on every element, [some] answers, and it
    says [true] exactly when the callback does on some element. *)
Lemma some_from_spec f P l i :
  (forall k a, l !! k = Some a ->
     exists b, f a (i + k)%nat = Ok b /\ (b = true <-> P (i + k)%nat a)) ->
  exists b, some_from f i l = Ok b /\
    (b = true <-> exists k a, l !! k = Some a /\ P (i + k)%nat a).
Proof.
  revert i. induction l as [|a l IH]; intros i H; simpl.
  - exists false. split; [done|]. split; [done|].
    intros (k & a & Hk & _). by rewrite lookup_nil in Hk.
  - destruct (H 0%nat a eq_refl) as (b & Hb & Hiff).
    rewrite Nat.add_0_r in Hb, Hiff. rewrite Hb. destruct b.
    + exists true. split; [done|]. split; [|done]. intros _.
      exists 0%nat, a. rewrite Nat.add_0_r. split; [done|]. by apply Hiff.
    + destruct (IH (S i)) as (b & Hs & Hb').
      { intros k c Hk. replace (S i + k)%nat with (i + S k)%nat by lia.
        by apply H. }
      exists b. split; [done|]. rewrite Hb'. split.
      * intros (k & c & Hk & HP). exists (S k), c. split; [done|].
        by replace (i + S k)%nat with (S i + k)%nat by lia.
      * intros (k & c & Hk & HP). destruct k as [|k].
        -- simpl in Hk. injection Hk as <-. rewrite Nat.add_0_r in HP.
           apply Hiff in HP. discriminate.
        -- exists k, c. split; [done|].
           by replace (S i + k)%nat with (i + S k)%nat by lia.
Qed.

Lemma some_spec f P l :
  (forall k a, l !! k = Some a ->
     exists b, f a k = Ok b /\ (b = true <-> P k a)) ->
  exists b, some f l = Ok b /\
    (b = true <-> exists k a, l !! k = Some a /\ P k a).
Proof. intros H. by apply (some_from_spec f P l 0). Qed.
End SomeSpec.

(** The nested scan of a shape, as both [collides] write it. *)
Lemma scan_spec (f : nat -> Z -> nat -> outcome bool)
    (P : nat -> nat -> Z -> Prop) (sh : Shape) :
  (forall dy dx v, exists b, f dy v dx = Ok b /\ (b = true <-> P dy dx v)) ->
  exists b, some (fun row dy => some (f dy) row) sh = Ok b /\
    (b = true <->
     exists dy dx row v, sh !! dy = Some row /\ row !! dx = Some v /\ P dy dx v).
Proof.
  intros H.
  destruct (some_spec (fun row dy => some (f dy) row)
              (fun dy row => exists dx v, row !! dx = Some v /\ P dy dx v) sh)
    as (b & Hb & Hiff).
  { intros dy row _. apply (some_spec (f dy) (fun dx v => P dy dx v)).
    intros dx v _. apply H. }
  exists b. split; [done|]. rewrite Hiff. split.
  - intros (dy & row & Hr & dx & v & Hv & HP). by exists dy, dx, row, v.
  - intros (dy & dx & row & v & Hr & Hv & HP). exists dy, row.
    split; [done|]. by exists dx, v.
Qed.

(** ** Collision *)

Lemma truthy_true v : truthy v = true <-> v <> 0.
Proof. unfold truthy. rewrite negb_true_iff, Z.eqb_neq. done. Qed.

Lemma truthy_false v : truthy v = false <-> v = 0.
Proof. unfold truthy. rewrite negb_false_iff, Z.eqb_eq. done. Qed.

(** On a board of [ROWS] rows a guarded read never throws. *)
Lemma occupiedAt_spec (g : Board) r c :
  length g = ROWS -> 0 <= r < Z.of_nat ROWS -> 0 <= c ->
  exists b, occupiedAt g r c = Ok b /\ (b = true <-> filled g r c).
Proof.
  intros Hlen Hr Hc. unfold occupiedAt, filled.
  destruct (Z.ltb_spec r 0); [lia|].
  destruct (Z.ltb_spec c 0); [lia|].
  destruct (lookup_lt_is_Some_2 g (Z.to_nat r)) as [row Hrow]; [lia|].
  rewrite Hrow. destruct (row !! Z.to_nat c) as [v|] eqn:Hv.
  - exists (truthy v). split; [done|]. rewrite truthy_true. split.
    + intros Hne. by exists row, v.
    + intros (row' & v' & Hr' & Hv' & Hne). congruence.
  - exists false. split; [done|]. split; [done|].
    intros (row' & v' & Hr' & Hv' & Hne). congruence.
Qed.

Lemma Solo_collides_spec (g : Board) (p : Piece) :
  length g = ROWS ->
  exists b, Solo.collides g p = Ok b /\
    (b = true <-> exists dy dx, occupied p dy dx /\ hits g p dy dx).
Proof.
  intros Hlen. unfold Solo.collides.
  destruct (scan_spec
    (fun dy v dx =>
      if truthy v then
        if Z.of_nat ROWS <=? py p + Z.of_nat dy then Ok true
        else if px p + Z.of_nat dx <? 0 then Ok true
        else if Z.of_nat COLS <=? px p + Z.of_nat dx then Ok true
        else if 0 <=? py p + Z.of_nat dy
             then occupiedAt g (py p + Z.of_nat dy) (px p + Z.of_nat dx)
             else Ok false
      else Ok false)
    (fun dy dx v => v <> 0 /\ hits g p dy dx) (shape p)) as (b & Hb & Hiff).
  { intros dy dx v. unfold hits. destruct (truthy v) eqn:Hv.
    - apply truthy_true in Hv.
      destruct (Z.leb_spec (Z.of_nat ROWS) (py p + Z.of_nat dy));
        [exists true; split; [done|]; split; [intros _; split; [done|lia]|done]|].
      destruct (Z.ltb_spec (px p + Z.of_nat dx) 0);
        [exists true; split; [done|]; split; [intros _; split; [done|lia]|done]|].
      destruct (Z.leb_spec (Z.of_nat COLS) (px p + Z.of_nat dx));
        [exists true; split; [done|]; split; [intros _; split; [done|lia]|done]|].
      destruct (Z.leb_spec 0 (py p + Z.of_nat dy)).
      + destruct (occupiedAt_spec g (py p + Z.of_nat dy) (px p + Z.of_nat dx))
          as (b & Hb & Hiff); [done|lia|lia|].
        exists b. split; [done|]. rewrite Hiff. split.
        * intros Hf. split; [done|]. right. right. right. done.
        * intros [_ [?|[?|[?|[_ ?]]]]]; try lia. done.
      + exists false. split; [done|]. split; [done|].
        intros [_ [?|[?|[?|[? _]]]]]; lia.
    - apply truthy_false in Hv. exists false. split; [done|].
      split; [done|]. intros [? _]. done. }
  exists b. split; [done|]. rewrite Hiff. unfold occupied. split.
  - intros (dy & dx & row & v & Hr & Hv & Hne & Hh).
    exists dy, dx. split; [|done]. by exists row, v.
  - intros (dy & dx & (row & v & Hr & Hv & Hne) & Hh).
    by exists dy, dx, row, v.
Qed.

Lemma Aaa_collides_spec (g : Board) (p : Piece) :
  length g = ROWS ->
  exists b, Aaa.collides g p = Ok b /\
    (b = true <-> exists dy dx, occupied p dy dx /\ hits g p dy dx).
Proof.
  intros Hlen. unfold Aaa.collides.
  destruct (scan_spec
    (fun dy cell dx =>
      if negb (truthy cell) then Ok false
      else
        let newX := px p + Z.of_nat dx in
        let newY := py p + Z.of_nat dy in
        if newX <? 0 then Ok true
        else if Z.of_nat COLS <=? newX then Ok true
        else if Z.of_nat ROWS <=? newY then Ok true
        else if 0 <=? newY then occupiedAt g newY newX
             else Ok false)
    (fun dy dx v => v <> 0 /\ hits g p dy dx) (shape p)) as (b & Hb & Hiff).
  { intros dy dx v. unfold hits. cbv zeta. destruct (truthy v) eqn:Hv; simpl.
    - apply truthy_true in Hv.
      destruct (Z.ltb_spec (px p + Z.of_nat dx) 0);
        [exists true; split; [done|]; split; [intros _; split; [done|lia]|done]|].
      destruct (Z.leb_spec (Z.of_nat COLS) (px p + Z.of_nat dx));
        [exists true; split; [done|]; split; [intros _; split; [done|lia]|done]|].
      destruct (Z.leb_spec (Z.of_nat ROWS) (py p + Z.of_nat dy));
        [exists true; split; [done|]; split; [intros _; split; [done|lia]|done]|].
      destruct (Z.leb_spec 0 (py p + Z.of_nat dy)).
      + destruct (occupiedAt_spec g (py p + Z.of_nat dy) (px p + Z.of_nat dx))
          as (b & Hb & Hiff); [done|lia|lia|].
        exists b. split; [done|]. rewrite Hiff. split.
        * intros Hf. split; [done|]. right. right. right. done.
        * intros [_ [?|[?|[?|[_ ?]]]]]; try lia. done.
      + exists false. split; [done|]. split; [done|].
        intros [_ [?|[?|[?|[? _]]]]]; lia.
    - apply truthy_false in Hv. exists false. split; [done|].
      split; [done|]. intros [? _]. done. }
  exists b. split; [done|]. rewrite Hiff. unfold occupied. split.
  - intros (dy & dx & row & v & Hr & Hv & Hne & Hh).
    exists dy, dx. split; [|done]. by exists row, v.
  - intros (dy & dx & (row & v & Hr & Hv & Hne) & Hh).
    by exists dy, dx, row, v.
Qed.

(** C1. On a board of [ROWS] rows of [COLS] cells, [collides] (in
    either ruleset) returns, and it returns [true] exactly when some
    occupied cell of the shape, moved by [(x, y)], has its column outside
    [0, COLS), or its row at or past [ROWS], or has a row [>= 0] and
    lies on a non-empty board cell.  A piece whose occupied cells all
    have a negative row collides only through the column bounds,
    whatever the board holds. *)
Theorem collides_iff (B : Board) (P : Piece) :
  wf_board B ->
  (exists b, Solo.collides B P = Ok b /\ Aaa.collides B P = Ok b) /\
  (Solo.collides B P = Ok true <->
     exists dy dx, occupied P dy dx /\ hits B P dy dx) /\
  (Aaa.collides B P = Ok true <->
     exists dy dx, occupied P dy dx /\ hits B P dy dx) /\
  ((forall dy dx, occupied P dy dx -> py P + Z.of_nat dy < 0) ->
     (Solo.collides B P = Ok true <->
        exists dy dx, occupied P dy dx /\
          (px P + Z.of_nat dx < 0 \/ Z.of_nat COLS <= px P + Z.of_nat dx))).
Proof.
  intros [Hlen _].
  destruct (Solo_collides_spec B P Hlen) as (b1 & H1 & I1).
  destruct (Aaa_collides_spec B P Hlen) as (b2 & H2 & I2).
  assert (b1 = b2) as <-.
  { destruct b1, b2; try done.
    - symmetry. apply I2, I1. done.
    - apply I1, I2. done. }
  split; [by exists b1|].
  rewrite H1, H2.
  assert (forall b : bool, Ok b = Ok true <-> b = true) as Hinj.
  { intros b. split; [by intros [= ->]|by intros ->]. }
  rewrite !Hinj. split; [done|]. split; [done|].
  intros Hneg. rewrite I1. split.
  - intros (dy & dx & Ho & Hh). exists dy, dx. split; [done|].
    specialize (Hneg dy dx Ho). unfold hits in Hh.
    destruct Hh as [?|[?|[?|[? _]]]]; [by left|by right|lia|lia].
  - intros (dy & dx & Ho & Hh). exists dy, dx. split; [done|].
    unfold hits. destruct Hh; [by left|by right; left].
Qed.

Lemma collides_iff_witness :
  Solo.collides emptyGrid pieceO = Ok true <->
  exists dy dx, occupied pieceO dy dx /\ hits emptyGrid pieceO dy dx.
Proof.
  apply (collides_iff emptyGrid pieceO).
  split; [reflexivity | apply Forall_replicate; reflexivity].
Defined.

(** ** Merging a piece into the board *)

Lemma bind_Ok {A B} (m : outcome A) (k : A -> outcome B) b :
  bind m k = Ok b <-> exists a, m = Ok a /\ k a = Ok b.
Proof.
  destruct m; simpl; split; try done.
  - intros H. by exists a.
  - by intros (a' & [= ->] & H).
  - by intros (a' & ? & _).
  - by intros (a' & ? & _).
  - by intros (a' & ? & _).
Qed.

Section Loops.
Context {A St : Type}.
Implicit Types (f : A -> nat -> St -> outcome St) (Inv : nat -> St -> Prop).

(** A [forEach] whose callback keeps an index-dependent invariant and
    never fails under it runs to the end and establishes the
    invariant for the whole array. *)
Lemma forEach_from_inv f Inv l i s :
  Inv i s ->
  (forall k a s, l !! k = Some a -> Inv (i + k)%nat s ->
     exists s', f a (i + k)%nat s = Ok s' /\ Inv (S (i + k)) s') ->
  exists s', forEach_from f i l s = Ok s' /\ Inv (i + length l)%nat s'.
Proof.
  revert i s. induction l as [|a l IH]; intros i s HI Hstep; simpl.
  - exists s. by rewrite Nat.add_0_r.
  - destruct (Hstep 0%nat a s eq_refl) as (s1 & Hf & HI1).
    { by rewrite Nat.add_0_r. }
    rewrite Nat.add_0_r in Hf, HI1. rewrite Hf. simpl.
    destruct (IH (S i) s1 HI1) as (s' & Hs' & HI').
    { intros k c s2 Hk HI2.
      replace (S i + k)%nat with (i + S k)%nat in * by lia.
      by apply Hstep. }
    exists s'. split; [done|].
    by replace (i + S (length l))%nat with (S i + length l)%nat by lia.
Qed.

Lemma forEach_inv f Inv l s :
  Inv 0%nat s ->
  (forall k a s, l !! k = Some a -> Inv k s ->
     exists s', f a k s = Ok s' /\ Inv (S k) s') ->
  exists s', forEach f l s = Ok s' /\ Inv (length l) s'.
Proof. intros HI Hstep. by apply (forEach_from_inv f Inv l 0). Qed.
End Loops.

Lemma cellAt_insert (g : Board) (r c : nat) row v r' c' :
  g !! r = Some row -> (c < length row)%nat ->
  cellAt (<[r := <[c := v]> row]> g) r' c' =
    if decide (r' = r /\ c' = c) then Some v else cellAt g r' c'.
Proof.
  intros Hrow Hc. unfold cellAt.
  destruct (decide (r' = r)) as [->|Hr].
  - rewrite list_lookup_insert_eq by (by eapply lookup_lt_Some).
    rewrite Hrow. destruct (decide (c' = c)) as [->|Hc'].
    + rewrite list_lookup_insert_eq by done. by rewrite decide_True.
    + rewrite list_lookup_insert_ne by done. rewrite decide_False; [done|].
      by intros [_ ?].
  - rewrite list_lookup_insert_ne by done. rewrite decide_False; [done|].
    by intros [? _].
Qed.

(** A store inside the board succeeds, changes that cell only and
    keeps every row's length. *)
Lemma storeCell_inside (ng : Board) (r c : nat) v :
  is_Some (cellAt ng r c) ->
  exists ng', storeCell ng (Z.of_nat r) (Z.of_nat c) v = Ok ng' /\
    (length <$> ng') = (length <$> ng) /\
    forall r' c', cellAt ng' r' c' =
      if decide (r' = r /\ c' = c) then Some v else cellAt ng r' c'.
Proof.
  intros [w Hw]. unfold cellAt in Hw. unfold storeCell.
  destruct (Z.ltb_spec (Z.of_nat r) 0); [lia|].
  rewrite Nat2Z.id. destruct (ng !! r) as [row|] eqn:Hrow; [|done].
  assert (c < length row)%nat as Hc by (by eapply lookup_lt_Some).
  destruct (Z.leb_spec 0 (Z.of_nat c)); [|lia].
  destruct (Z.ltb_spec (Z.of_nat c) (Z.of_nat (length row))); [|lia].
  simpl. rewrite Nat2Z.id. eexists. split; [done|]. split.
  - apply list_eq. intros k. rewrite !list_lookup_fmap.
    destruct (decide (k = r)) as [->|Hk].
    + rewrite list_lookup_insert_eq by (by eapply lookup_lt_Some).
      rewrite Hrow. simpl. by rewrite length_insert.
    + by rewrite list_lookup_insert_ne.
  - intros r' c'. by apply cellAt_insert.
Qed.

(** A store to a row the board does not have throws. *)
Lemma storeCell_below (ng : Board) (r c v : Z) :
  Z.of_nat (length ng) <= r -> storeCell ng r c v = TypeError.
Proof.
  intros Hr. unfold storeCell. destruct (r <? 0); [done|].
  rewrite lookup_ge_None_2; [done|lia].
Qed.

Lemma cellAt_is_Some_dims (g g' : Board) r c :
  (length <$> g') = (length <$> g) ->
  is_Some (cellAt g r c) -> is_Some (cellAt g' r c).
Proof.
  intros Hd [v Hv]. unfold cellAt in *.
  assert (length <$> g' !! r = length <$> g !! r) as Hr.
  { by rewrite <- !list_lookup_fmap, Hd. }
  destruct (g !! r) as [row|]; [|done].
  destruct (g' !! r) as [row'|]; [|done].
  simpl in Hr. injection Hr as Hr.
  apply lookup_lt_is_Some_2. rewrite Hr. by eapply lookup_lt_Some.
Qed.

Lemma merge_inv_next_row g p dy row ng :
  shape p !! dy = Some row ->
  merge_inv g p dy (length row) ng -> merge_inv g p (S dy) 0 ng.
Proof.
  intros Hrow (Hd & Hw & Hn).
  assert (forall r c, written p (S dy) 0 r c <-> written p dy (length row) r c)
    as Heq.
  { intros r c. split; intros (dy' & dx' & Hlt & Hc); exists dy', dx';
      (split; [|done]).
    - destruct (decide (dy' = dy)) as [->|]; [|lia]. right. split; [done|].
      destruct Hc as ((row' & v & Hr' & Hv & _) & _).
      rewrite Hrow in Hr'. injection Hr' as <-. by eapply lookup_lt_Some.
    - lia. }
  split; [done|]. split; intros r c H.
  - apply Hw. by apply Heq.
  - apply Hn. by rewrite <- Heq.
Qed.

Lemma merge_cell_step g p dy dx row v ng :
  fits g p -> shape p !! dy = Some row -> row !! dx = Some v ->
  merge_inv g p dy dx ng ->
  exists ng',
    (if truthy v && (0 <=? py p + Z.of_nat dy)
     then storeCell ng (py p + Z.of_nat dy) (px p + Z.of_nat dx)
            (Z.of_nat (colorIdx p) + 1)
     else Ok ng) = Ok ng' /\
    merge_inv g p dy (S dx) ng'.
Proof.
  intros Hfit Hrow Hv (Hd & Hw & Hn).
  destruct (truthy v && (0 <=? py p + Z.of_nat dy)) eqn:Hcond.
  - apply andb_true_iff in Hcond as [Ht Hy].
    apply truthy_true in Ht. apply Z.leb_le in Hy.
    assert (occupied p dy dx) as Hocc by (by exists row, v).
    destruct (Hfit dy dx Hocc Hy) as [Hx Hin].
    set (r := Z.to_nat (py p + Z.of_nat dy)) in *.
    set (c := Z.to_nat (px p + Z.of_nat dx)) in *.
    destruct (storeCell_inside ng r c (Z.of_nat (colorIdx p) + 1))
      as (ng' & Hst & Hd' & Hcell).
    { by apply (cellAt_is_Some_dims g). }
    replace (Z.of_nat r) with (py p + Z.of_nat dy) in Hst by (subst r; lia).
    replace (Z.of_nat c) with (px p + Z.of_nat dx) in Hst by (subst c; lia).
    exists ng'. split; [done|]. split; [congruence|].
    split; intros r' c' H; rewrite Hcell.
    + destruct (decide (r' = r /\ c' = c)); [done|].
      apply Hw. destruct H as (dy' & dx' & Hlt & Hc).
      exists dy', dx'. split; [|done].
      destruct (decide (dy' = dy /\ dx' = dx)) as [[-> ->]|]; [|lia].
      destruct Hc as (_ & ? & ?). exfalso. apply n. subst r c. lia.
    + rewrite decide_False.
      * apply Hn. intros (dy' & dx' & Hlt & Hc). apply H.
        exists dy', dx'. split; [lia|done].
      * intros [-> ->]. apply H. exists dy, dx. split; [lia|].
        split; [done|]. subst r c. lia.
  - exists ng. split; [done|]. split; [done|].
    assert (forall r c, written p dy (S dx) r c <-> written p dy dx r c) as Heq.
    { intros r c. split; intros (dy' & dx' & Hlt & Hc); exists dy', dx';
        (split; [|done]); [|lia].
      destruct (decide (dy' = dy /\ dx' = dx)) as [[-> ->]|]; [|lia].
      exfalso. destruct Hc as ((row' & v' & Hr' & Hv' & Hne) & Hy & _).
      rewrite Hrow in Hr'. injection Hr' as <-.
      rewrite Hv in Hv'. injection Hv' as <-.
      apply andb_false_iff in Hcond as [Ht|Hy'].
      + by apply truthy_false in Ht.
      + apply Z.leb_gt in Hy'. lia. }
    split; intros r c H.
    + apply Hw. by apply Heq.
    + apply Hn. by rewrite <- Heq.
Qed.

(** [merge] on a piece that fits the board: it returns, every row
    keeps its length, the cells under occupied cells of the piece hold
    [colorIdx + 1], and every other cell is as in [g]. *)
Lemma merge_spec (g : Board) (p : Piece) :
  fits g p -> merge_writes g p (Solo.merge g p).
Proof.
  intros Hfit. unfold merge_writes, Solo.merge.
  destruct (forEach_inv
    (fun row dy ng =>
      forEach (fun v dx ng =>
        if truthy v && (0 <=? py p + Z.of_nat dy)
        then storeCell ng (py p + Z.of_nat dy) (px p + Z.of_nat dx)
               (Z.of_nat (colorIdx p) + 1)
        else Ok ng) row ng)
    (fun dy ng => merge_inv g p dy 0 ng) (shape p) g) as (ng & Hm & Hinv).
  - split; [done|]. split; intros r c H; [|done].
    destruct H as (dy' & dx' & Hlt & _). lia.
  - intros dy row ng Hrow Hinv.
    destruct (forEach_inv
      (fun v dx ng =>
        if truthy v && (0 <=? py p + Z.of_nat dy)
        then storeCell ng (py p + Z.of_nat dy) (px p + Z.of_nat dx)
               (Z.of_nat (colorIdx p) + 1)
        else Ok ng)
      (fun dx ng => merge_inv g p dy dx ng) row ng Hinv) as (ng' & Hm & Hinv').
    + intros dx v ng1 Hv Hinv1. by eapply merge_cell_step.
    + exists ng'. split; [done|]. by eapply merge_inv_next_row.
  - exists ng. split; [done|]. destruct Hinv as (Hd & Hw & Hn).
    split; [done|]. split.
    + intros r c dy dx Hc. apply Hw. exists dy, dx. split; [|done].
      left. destruct Hc as ((row & v & Hr & _) & _). by eapply lookup_lt_Some.
    + intros r c Hno. apply Hn. intros (dy & dx & _ & Hc). by apply (Hno dy dx).
Qed.

Lemma Aaa_mergedGrid_eq : Aaa.mergedGrid = Solo.merge.
Proof. reflexivity. Qed.

(** *** The copy is what gets written *)







Section Simulation.
Context {A S T : Type} (phi : S -> T) (I : S -> Prop).
Implicit Types (fH : A -> nat -> T -> outcome T)
  (fP : A -> nat -> S -> outcome S).

Lemma forEach_from_pres fP l i s s' :
  (forall a k s s', I s -> fP a k s = Ok s' -> I s') ->
  I s -> forEach_from fP i l s = Ok s' -> I s'.
Proof.
  intros Hp. revert i s. induction l as [|a l IH]; intros i s HI H.
  - by injection H as <-.
  - simpl in H. apply bind_Ok in H as (s1 & H1 & H2).
    eapply IH; [|done]. by eapply Hp.
Qed.

End Simulation.



Lemma collides_false_withinWalls (B : Board) (P : Piece) :
  length B = ROWS -> Solo.collides B P = Ok false -> withinWalls P.
Proof.
  intros Hlen Hfree dy dx Hocc.
  destruct (Solo_collides_spec B P Hlen) as (b & Hb & Hiff).
  rewrite Hfree in Hb. injection Hb as <-.
  assert (~ hits B P dy dx) as Hno.
  { intros Hh. assert (false = true) by (apply Hiff; by exists dy, dx). done. }
  unfold hits in Hno. lia.
Qed.

Lemma inBounds_withinWalls (P : Piece) : inBounds P -> withinWalls P.
Proof. intros [_ Hin] dy dx Hocc. by apply Hin. Qed.


(** The O piece lies on the empty board down to row 18. *)
Lemma fits_emptyGrid_O k :
  0 <= k <= 18 -> fits emptyGrid (with_y pieceO k).
Proof.
  intros Hk dy dx (row & v & Hr & Hv & Hne) Hy.
  cbn [py px with_y pieceO] in *.
  destruct dy as [|[|dy]]; simpl in Hr; simplify_eq;
    destruct dx as [|[|dx]]; simpl in Hv; simplify_eq;
    (split; [lia|]); unfold cellAt, emptyGrid;
    (rewrite lookup_replicate_2 by (unfold ROWS; lia)); by eexists.
Qed.


(** Outside that domain [merge] has no check of its own: handed the O
    piece whose lower row is row 20 of the 20-row board (which no
    caller does), it throws on the missing row. *)
Example merge_below_floor :
  Solo.merge emptyGrid pieceSunk = TypeError /\
  ~ merge_writes emptyGrid pieceSunk (Solo.merge emptyGrid pieceSunk).
Proof.
  assert (Solo.merge emptyGrid pieceSunk = TypeError) as H by reflexivity.
  split; [done|]. rewrite H. by intros (ng & ? & _).
Qed.

(** ** Clearing lines *)

Lemma hasEmpty_iff r : hasEmpty r <-> ~ fullRow r.
Proof.
  unfold hasEmpty, fullRow. induction r as [|c r IH].
  - rewrite Exists_nil. split; [done|]. intros H. apply H. constructor.
  - rewrite Exists_cons, Forall_cons, IH.
    destruct (decide (c = 0)); tauto.
Qed.

Lemma filter_hasEmpty (g : Board) :
  filter hasEmpty g = filter (fun r => ~ fullRow r) g.
Proof. apply list_filter_iff. intros r. apply hasEmpty_iff. Qed.

Lemma length_filter_split (g : Board) :
  (length (filter fullRow g) + length (filter (fun r => ~ fullRow r) g))%nat
  = length g.
Proof.
  rewrite <- length_app. apply Permutation_length, filter_app_complement.
Qed.

(** The refill loop exits with the rows it was short of put on top. *)
Lemma unshiftZeros_spec turns (kept : Board) :
  (ROWS - length kept <= turns)%nat ->
  Solo.unshiftZeros turns kept =
    replicate (ROWS - length kept) zeroRow ++ kept.
Proof.
  revert kept. induction turns as [|turns IH]; intros kept Hle;
    cbn [Solo.unshiftZeros].
  - by replace (ROWS - length kept)%nat with 0%nat by lia.
  - destruct (Nat.ltb_spec (length kept) ROWS) as [Hlt|Hge].
    + rewrite IH by (cbn [length]; lia). cbn [length].
      replace (ROWS - length kept)%nat with (S (ROWS - S (length kept)))
        by lia.
      by rewrite replicate_S_end, <- app_assoc.
    + by replace (ROWS - length kept)%nat with 0%nat by lia.
Qed.

(** C3. On a board of [ROWS] rows of [COLS] cells, [clearLines] (the
    same in both rulesets) keeps, in their order, exactly the rows that
    are not full, puts as many all-zero rows on top as there were full
    rows, so that the result again has [ROWS] rows of [COLS] cells, and
    reports the number of full rows; when no row is full it returns the
    board itself and 0. *)
Theorem clearLines_spec (B : Board) :
  wf_board B ->
  let k := length (filter fullRow B) in
  Solo.clearLines B =
    mkCleared (replicate k zeroRow ++ filter (fun r => ~ fullRow r) B)
      (Z.of_nat k) /\
  Aaa.clearLines B = Solo.clearLines B /\
  wf_board (newGrid (Solo.clearLines B)) /\
  (Forall (fun r => ~ fullRow r) B -> Solo.clearLines B = mkCleared B 0).
Proof.
  intros [Hlen Hcols] k.
  pose proof (length_filter_split B) as Hsplit. fold k in Hsplit.
  assert (Solo.clearLines B =
    mkCleared (replicate k zeroRow ++ filter (fun r => ~ fullRow r) B)
      (Z.of_nat k)) as Heq.
  { unfold Solo.clearLines. rewrite filter_hasEmpty.
    rewrite unshiftZeros_spec by apply Nat.le_sub_l.
    replace (ROWS - length (filter (fun r => ~ fullRow r) B))%nat with k by lia.
    f_equal. lia. }
  split; [done|]. split; [done|]. split.
  - rewrite Heq. simpl. split.
    + rewrite length_app, length_replicate. lia.
    + apply Forall_app. split.
      * apply Forall_replicate. apply length_replicate.
      * apply Forall_forall. intros r [_ Hr]%list_elem_of_filter.
        by eapply Forall_forall in Hcols.
  - intros Hnone. rewrite Heq.
    assert (filter (fun r => ~ fullRow r) B = B) as HB.
    { clear -Hnone. induction Hnone as [|r B Hr _ IH]; [done|].
      rewrite filter_cons_True by done. by rewrite IH. }
    rewrite HB in *. assert (k = 0)%nat as -> by lia. done.
Qed.

Lemma clearLines_spec_witness :
  Solo.clearLines emptyGrid = mkCleared emptyGrid 0.
Proof.
  apply (clearLines_spec emptyGrid).
  - split; [reflexivity | apply Forall_replicate; reflexivity].
  - apply Forall_replicate. intros H. by inversion H.
Defined.

(** ** Rotation *)

Lemma map_from_spec {A B} (f : A -> nat -> outcome B) (g : nat -> A -> B) l i :
  (forall k a, l !! k = Some a -> f a (i + k)%nat = Ok (g (i + k)%nat a)) ->
  map_from f i l = Ok (imap (fun k => g (i + k)%nat) l).
Proof.
  revert i. induction l as [|a l IH]; intros i H; [done|].
  simpl. rewrite <- (Nat.add_0_r i) at 1.
  rewrite (H 0%nat a eq_refl). simpl.
  rewrite (IH (S i)).
  - simpl. rewrite Nat.add_0_r. f_equal. f_equal. apply imap_ext.
    intros k c _. simpl. f_equal. lia.
  - intros k c Hk. replace (S i + k)%nat with (i + S k)%nat by lia.
    by apply H.
Qed.

Lemma rect_lookup (sh : Shape) R C i :
  rect sh R C -> (i < R)%nat ->
  exists r, sh !! i = Some r /\ length r = C.
Proof.
  intros [Hlen Hall] Hi.
  destruct (lookup_lt_is_Some_2 sh i) as [r Hr]; [lia|].
  exists r. split; [done|]. by eapply Forall_lookup_1 in Hall.
Qed.

Lemma rect_cellAt (sh : Shape) R C i j :
  rect sh R C -> (i < R)%nat -> (j < C)%nat -> is_Some (cellAt sh i j).
Proof.
  intros Hrect Hi Hj. destruct (rect_lookup sh R C i Hrect Hi) as (r & Hr & Hl).
  unfold cellAt. rewrite Hr. apply lookup_lt_is_Some_2. lia.
Qed.

(** Two matrices with the same row lengths and the same cells are equal. *)
Lemma matrix_ext (a b : Shape) :
  (length <$> a) = (length <$> b) ->
  (forall j k, cellAt a j k = cellAt b j k) ->
  a = b.
Proof.
  intros Hd Hc. apply list_eq. intros j.
  assert (length <$> a !! j = length <$> b !! j) as Hj.
  { by rewrite <- !list_lookup_fmap, Hd. }
  specialize (Hc j). unfold cellAt in Hc.
  destruct (a !! j) as [ra|], (b !! j) as [rb|]; try done.
  f_equal. by apply list_eq.
Qed.

Lemma Solo_rotate_spec (sh : Shape) R C :
  (1 <= R)%nat -> rect sh R C ->
  exists rot, Solo.rotate sh = Ok rot /\
    (length <$> rot) = replicate C R /\
    forall j k, (j < C)%nat -> (k < R)%nat ->
      cellAt rot j k = cellAt sh (R - 1 - k) j.
Proof.
  intros HR Hrect. pose proof Hrect as [Hlen Hall].
  unfold Solo.rotate. destruct sh as [|m0 m']; [simpl in Hlen; lia|].
  set (m := m0 :: m') in *.
  assert (length m0 = C) as Hm0 by (by inversion Hall).
  set (col := fun i : nat => (fun r : list Z => r !!! i) <$> m).
  assert (forall i, (i < C)%nat ->
    mapi (fun r (_ : nat) => readCell r i) m = Ok (col i)) as Hcol.
  { intros i Hi. unfold mapi.
    rewrite (map_from_spec _ (fun _ r => r !!! i)).
    - f_equal. unfold col.
      rewrite <- (imap_const (fun r : list Z => r !!! i)). by apply imap_ext.
    - intros k r Hr. unfold readCell.
      assert (length r = C) as Hl by (by eapply Forall_lookup_1 in Hall).
      rewrite list_lookup_lookup_total_lt by lia. done. }
  unfold mapi at 1.
  rewrite (map_from_spec _ (fun i _ => reverse (col i))).
  2:{ intros i c Hi. simpl. rewrite Hcol; [done|].
      rewrite <- Hm0. by eapply lookup_lt_Some. }
  eexists. split; [done|]. split.
  - apply list_eq. intros j. rewrite list_lookup_fmap, list_lookup_imap.
    destruct (m0 !! j) as [c|] eqn:Hj; simpl.
    + rewrite lookup_replicate_2 by (rewrite <- Hm0; by eapply lookup_lt_Some).
      f_equal. unfold col. by rewrite length_reverse, length_fmap.
    + symmetry. apply lookup_replicate_None.
      apply lookup_ge_None in Hj. lia.
  - intros j k Hj Hk. unfold cellAt at 1. rewrite list_lookup_imap.
    destruct (lookup_lt_is_Some_2 m0 j) as [c Hc]; [lia|]. rewrite Hc. simpl.
    assert (length (col j) = R) as Hlc by (unfold col; by rewrite length_fmap).
    rewrite reverse_lookup by lia. rewrite Hlc.
    replace (R - S k)%nat with (R - 1 - k)%nat by lia.
    unfold col. rewrite list_lookup_fmap. unfold cellAt.
    destruct (rect_lookup m R C (R - 1 - k) Hrect) as (r & Hr & Hl); [lia|].
    rewrite Hr. simpl. rewrite list_lookup_lookup_total_lt by lia. done.
Qed.

Section ForLoops.
Context {St : Type}.
Implicit Types (body : nat -> St -> outcome St) (Inv : nat -> St -> Prop).

Lemma for_from_inv body Inv start count s :
  Inv start s ->
  (forall k s, (k < count)%nat -> Inv (start + k)%nat s ->
     exists s', body (start + k)%nat s = Ok s' /\ Inv (S (start + k)) s') ->
  exists s', for_from body start count s = Ok s' /\
    Inv (start + count)%nat s'.
Proof.
  revert start s. induction count as [|count IH]; intros start s HI Hstep.
  - exists s. by rewrite Nat.add_0_r.
  - simpl. destruct (Hstep 0%nat s) as (s1 & Hb & HI1); [lia| |].
    { by rewrite Nat.add_0_r. }
    rewrite Nat.add_0_r in Hb, HI1. rewrite Hb. simpl.
    destruct (IH (S start) s1 HI1) as (s' & Hs' & HI').
    { intros k s2 Hk HI2.
      replace (S start + k)%nat with (start + S k)%nat in * by lia.
      apply Hstep; [lia|done]. }
    exists s'. split; [done|].
    by replace (start + S count)%nat with (S start + count)%nat by lia.
Qed.

Lemma for_upto_inv body Inv n s :
  Inv 0%nat s ->
  (forall k s, (k < n)%nat -> Inv k s ->
     exists s', body k s = Ok s' /\ Inv (S k) s') ->
  exists s', for_upto n body s = Ok s' /\ Inv n s'.
Proof. intros HI Hstep. by apply (for_from_inv body Inv 0 n). Qed.
End ForLoops.

Lemma dims_cellAt (rot : Shape) R C j k :
  (length <$> rot) = replicate C R -> (j < C)%nat -> (k < R)%nat ->
  is_Some (cellAt rot j k).
Proof.
  intros Hd Hj Hk. unfold cellAt.
  assert (length <$> rot !! j = Some R) as Hr.
  { rewrite <- list_lookup_fmap, Hd. by apply lookup_replicate_2. }
  destruct (rot !! j) as [r|]; [|done]. injection Hr as Hr.
  apply lookup_lt_is_Some_2. lia.
Qed.

Lemma Aaa_rotate_spec (sh : Shape) R C :
  (1 <= R)%nat -> rect sh R C ->
  exists rot, Aaa.rotate sh = Ok rot /\
    (length <$> rot) = replicate C R /\
    forall j k, (j < C)%nat -> (k < R)%nat ->
      cellAt rot j k = cellAt sh (R - 1 - k) j.
Proof.
  intros HR Hrect. pose proof Hrect as [Hlen Hall].
  unfold Aaa.rotate. destruct sh as [|s0 s']; [simpl in Hlen; lia|].
  set (sh := s0 :: s') in *.
  assert (length s0 = C) as -> by (by inversion Hall).
  rewrite Hlen.
  destruct (for_upto_inv
    (fun i rotated =>
      for_upto C (fun j rotated =>
        match sh !! i with
        | None => TypeError
        | Some r =>
            let* v := readCell r j in
            storeCell rotated (Z.of_nat j) (Z.of_nat R - 1 - Z.of_nat i) v
        end) rotated)
    (fun i rot => rotate_inv sh R C i 0 rot) R
    (replicate C (replicate R 0))) as (rot & Hrot & Hd & Hcells).
  - split.
    + by rewrite fmap_replicate, length_replicate.
    + intros j' k Hj Hk. rewrite decide_False by lia.
      unfold cellAt. rewrite lookup_replicate_2 by done.
      by apply lookup_replicate_2.
  - intros i rot0 Hi Hinv0.
    destruct (rect_lookup sh R C i Hrect Hi) as (r & Hr & Hl).
    destruct (for_upto_inv
      (fun j rotated =>
        match sh !! i with
        | None => TypeError
        | Some r =>
            let* v := readCell r j in
            storeCell rotated (Z.of_nat j) (Z.of_nat R - 1 - Z.of_nat i) v
        end)
      (fun j rot => rotate_inv sh R C i j rot) C rot0 Hinv0)
      as (rot1 & Hrot1 & Hd1 & Hc1).
    + intros j rot2 Hj (Hd2 & Hc2). rewrite Hr.
      destruct (lookup_lt_is_Some_2 r j) as [v Hv]; [lia|].
      unfold readCell. rewrite Hv. simpl.
      replace (Z.of_nat R - 1 - Z.of_nat i) with (Z.of_nat (R - 1 - i)) by lia.
      destruct (storeCell_inside rot2 j (R - 1 - i) v)
        as (rot3 & Hst & Hd3 & Hc3).
      { apply (dims_cellAt rot2 R C); [done|done|lia]. }
      exists rot3. split; [done|]. split; [congruence|].
      intros j' k Hj' Hk. rewrite Hc3, Hc2 by done.
      destruct (decide (j' = j /\ k = (R - 1 - i)%nat)) as [[-> ->]|Hne].
      * rewrite decide_True by lia.
        replace (R - 1 - (R - 1 - i))%nat with i by lia.
        unfold cellAt. by rewrite Hr.
      * destruct (decide (_ \/ _)), (decide (_ \/ _)); try done; lia.
    + exists rot1. split; [done|]. split; [done|].
      intros j' k Hj' Hk. rewrite Hc1 by done.
      destruct (decide (_ \/ _)), (decide (_ \/ _)); try done; lia.
  - exists rot. split; [done|]. split; [done|].
    intros j k Hj Hk. rewrite Hcells by done. rewrite decide_True; [done|lia].
Qed.

(** C4. For a matrix of [R >= 1] rows of [C] cells, both [rotate]
    functions return the same matrix of [C] rows of [R] cells, with
    [rotated[j][R-1-i] = shape[i][j]] for all [i < R] and [j < C]. *)
Theorem rotate_clockwise (sh : Shape) (R C : nat) :
  (1 <= R)%nat -> rect sh R C ->
  exists rotated,
    Solo.rotate sh = Ok rotated /\
    Aaa.rotate sh = Ok rotated /\
    rect rotated C R /\
    forall i j, (i < R)%nat -> (j < C)%nat ->
      exists v, cellAt sh i j = Some v /\
                cellAt rotated j (R - 1 - i) = Some v.
Proof.
  intros HR Hrect.
  destruct (Solo_rotate_spec sh R C HR Hrect) as (rot & Hs & Hd & Hc).
  destruct (Aaa_rotate_spec sh R C HR Hrect) as (rot' & Ha & Hd' & Hc').
  assert (rot' = rot) as ->.
  { apply matrix_ext; [congruence|]. intros j k.
    destruct (decide (j < C)%nat) as [Hj|Hj].
    - destruct (decide (k < R)%nat) as [Hk|Hk].
      + by rewrite Hc, Hc'.
      + unfold cellAt.
        assert (forall m : Shape, (length <$> m) = replicate C R ->
          match m !! j with Some row => row !! k | None => None end = None)
          as Hout.
        { intros m Hm.
          assert (length <$> m !! j = Some R) as Hr.
          { rewrite <- list_lookup_fmap, Hm. by apply lookup_replicate_2. }
          destruct (m !! j) as [r|]; [|done]. injection Hr as Hr.
          apply lookup_ge_None. lia. }
        by rewrite !Hout.
    - unfold cellAt.
      assert (forall m : Shape, (length <$> m) = replicate C R ->
        m !! j = None) as Hout.
      { intros m Hm. apply lookup_ge_None.
        rewrite <- (length_fmap length), Hm, length_replicate. lia. }
      by rewrite !Hout. }
  exists rot. split; [done|]. split; [done|]. split.
  - split.
    + by rewrite <- (length_fmap length), Hd, length_replicate.
    + apply Forall_forall. intros r Hr.
      assert (length r ∈ length <$> rot) as Hin by (by apply list_elem_of_fmap_2).
      rewrite Hd in Hin. by apply elem_of_replicate in Hin as [-> _].
  - intros i j Hi Hj.
    destruct (rect_cellAt sh R C i j Hrect Hi Hj) as [v Hv].
    exists v. split; [done|]. rewrite Hc by lia.
    by replace (R - 1 - (R - 1 - i))%nat with i by lia.
Qed.

Lemma rotate_clockwise_witness :
  exists rotated,
    Solo.rotate [[0;1;0];[1;1;1]] = Ok rotated /\
    Aaa.rotate [[0;1;0];[1;1;1]] = Ok rotated /\
    rect rotated 3 2 /\
    forall i j, (i < 2)%nat -> (j < 3)%nat ->
      exists v, cellAt [[0;1;0];[1;1;1]] i j = Some v /\
                cellAt rotated j (2 - 1 - i) = Some v.
Proof.
  apply (rotate_clockwise [[0;1;0];[1;1;1]] 2 3).
  - lia.
  - split; [reflexivity | repeat constructor].
Defined.

(** ** Scoring *)

Lemma calculateScore_tier (n level : Z) :
  Aaa.calculateScore n level = tierTable n * (level + 1).
Proof.
  unfold Aaa.calculateScore.
  destruct (Z.eqb_spec n 1) as [->|]; [done|].
  destruct (Z.eqb_spec n 2) as [->|]; [done|].
  destruct (Z.eqb_spec n 3) as [->|]; [done|].
  destruct (Z.eqb_spec n 4) as [->|]; [done|].
  destruct n as [|[[|[]|]|[|[]|]|]|]; done.
Qed.

Lemma tierTable_nonpos n : n <= 0 -> tierTable n = 0.
Proof. intros H. destruct n; [done|lia|done]. Qed.

(** What a lock adds to the score. *)
Lemma lockPiece_score (s s' : Aaa.Session) p merged :
  Aaa.piece s = Some p -> Aaa.mergedGrid (Aaa.grid s) p = Ok merged ->
  Aaa.lockPiece s = Ok s' ->
  Aaa.score s' =
    Aaa.score s +
    tierTable (cleared (Aaa.clearLines merged)) * (Aaa.level s + 1).
Proof.
  intros Hp Hm H. unfold Aaa.lockPiece in H. rewrite Hp, Hm in H.
  cbn [bind] in H.
  apply bind_Ok in H as ([fresh bag'] & _ & H).
  destruct (Aaa.nextPieces s) as [|newPiece rest]; [done|].
  apply bind_Ok in H as (hit & _ & H). injection H as <-. cbn [Aaa.score].
  unfold Aaa.clearLines. cbn [cleared].
  destruct (Z.ltb_spec 0
    (Z.of_nat ROWS - Z.of_nat (length (filter hasEmpty merged)))).
  - by rewrite calculateScore_tier.
  - rewrite tierTable_nonpos by done. lia.
Qed.

(** ** The descent loops *)

Lemma with_y_with_y p a b : with_y (with_y p a) b = with_y p b.
Proof. done. Qed.

Lemma with_y_id p : with_y p (py p) = p.
Proof. by destruct p. Qed.

(** On a board of [ROWS] rows the two [collides] agree. *)
Lemma Solo_Aaa_collides (g : Board) p :
  length g = ROWS -> Solo.collides g p = Aaa.collides g p.
Proof.
  intros Hlen.
  destruct (Solo_collides_spec g p Hlen) as (b1 & H1 & I1).
  destruct (Aaa_collides_spec g p Hlen) as (b2 & H2 & I2).
  rewrite H1, H2. f_equal. destruct b1, b2; try done.
  - symmetry. apply I2, I1. done.
  - apply I1, I2. done.
Qed.

(** A piece with an occupied cell collides once that cell is at or
    below the floor. *)
Lemma collides_floor (g : Board) p dy dx :
  length g = ROWS -> occupied p dy dx ->
  Z.of_nat ROWS <= py p + Z.of_nat dy ->
  Aaa.collides g p = Ok true.
Proof.
  intros Hlen Hocc Hy.
  destruct (Aaa_collides_spec g p Hlen) as (b & Hb & Hiff).
  rewrite Hb. f_equal. apply Hiff. exists dy, dx. split; [done|].
  unfold hits. right. right. left. done.
Qed.

(** A piece without occupied cell never collides. *)
Lemma collides_no_cell (g : Board) p :
  length g = ROWS -> (forall dy dx, ~ occupied p dy dx) ->
  Aaa.collides g p = Ok false.
Proof.
  intros Hlen Hno.
  destruct (Aaa_collides_spec g p Hlen) as (b & Hb & Hiff).
  rewrite Hb. f_equal. destruct b; [|done].
  destruct Hiff as [Hex _]. destruct (Hex eq_refl) as (dy & dx & Ho & _).
  by destruct (Hno dy dx).
Qed.

(** The ghost loop, given enough fuel, exits: it has moved the piece
    down by some [n >= 0] rows, every position passed on the way is
    free, and the position one row below the last is blocked. *)
Lemma ghostLoop_exits (g : Board) dy dx fuel p :
  length g = ROWS -> occupied p dy dx ->
  (Z.to_nat (Z.of_nat ROWS - py p) < fuel)%nat ->
  exists n, 0 <= n /\
    Aaa.ghostLoop fuel g p = Ok (with_y p (py p + n)) /\
    Aaa.collides g (with_y p (py p + n + 1)) = Ok true /\
    forall k, 0 < k <= n -> Aaa.collides g (with_y p (py p + k)) = Ok false.
Proof.
  intros Hlen. revert p. induction fuel as [|fuel IH]; intros p Hocc Hfuel;
    [lia|].
  cbn [Aaa.ghostLoop].
  destruct (Aaa_collides_spec g (with_y p (py p + 1)) Hlen) as (b & Hb & Hiff).
  rewrite Hb. simpl. destruct b.
  - exists 0. split; [lia|]. rewrite Z.add_0_r, with_y_id.
    split; [done|]. split; [done|]. intros k Hk. lia.
  - assert (py p + 1 + Z.of_nat dy < Z.of_nat ROWS) as Hroom.
    { destruct (Z.lt_ge_cases (py p + 1 + Z.of_nat dy) (Z.of_nat ROWS));
        [done|].
      rewrite (collides_floor g (with_y p (py p + 1)) dy dx) in Hb; done. }
    destruct (IH (with_y p (py p + 1))) as (n & Hn & Hloop & Hhit & Hfree).
    { done. }
    { simpl. lia. }
    simpl in Hloop, Hhit, Hfree. rewrite !with_y_with_y in *.
    exists (n + 1). split; [lia|].
    replace (py p + (n + 1)) with (py p + 1 + n) by lia.
    split; [done|]. split; [done|].
    intros k Hk. destruct (decide (k = 1)) as [->|]; [done|].
    specialize (Hfree (k - 1)). rewrite with_y_with_y in Hfree.
    replace (py p + 1 + (k - 1)) with (py p + k) in Hfree by lia.
    apply Hfree. lia.
Qed.

(** Without an occupied cell the loop never exits, whatever the fuel. *)
Lemma ghostLoop_no_cell (g : Board) fuel p :
  length g = ROWS -> (forall dy dx, ~ occupied p dy dx) ->
  Aaa.ghostLoop fuel g p = OutOfFuel.
Proof.
  intros Hlen. revert p. induction fuel as [|fuel IH]; intros p Hno; [done|].
  cbn [Aaa.ghostLoop]. rewrite collides_no_cell by done. simpl.
  by apply IH.
Qed.

(** The other loops run the same descent. *)
Lemma dropLoop_ghostLoop (g : Board) fuel p :
  length g = ROWS -> Solo.dropLoop fuel g p = Aaa.ghostLoop fuel g p.
Proof.
  intros Hlen. revert p. induction fuel as [|fuel IH]; intros p; [done|].
  cbn [Solo.dropLoop Aaa.ghostLoop]. rewrite Solo_Aaa_collides by done.
  destruct (Aaa.collides g _) as [[|]| | |]; try done. simpl. apply IH.
Qed.

Lemma hardDropLoop_ghostLoop (g : Board) fuel p d :
  Aaa.hardDropLoop fuel g p d =
  omap (fun q => (q, d + (py q - py p))) (Aaa.ghostLoop fuel g p).
Proof.
  revert p d. induction fuel as [|fuel IH]; intros p d; [done|].
  cbn [Aaa.hardDropLoop Aaa.ghostLoop].
  destruct (Aaa.collides g _) as [[|]| | |]; try done; simpl.
  - by rewrite Z.sub_diag, Z.add_0_r.
  - rewrite IH. destruct (Aaa.ghostLoop fuel g _); try done. simpl.
    do 2 f_equal. lia.
Qed.

(** C7. [calculateScore] is the tiered table times [level + 1], for
    every level: 1 -> 100, 2 -> 300, 3 -> 500, 4 -> 800 and 0 for any
    other count; four lines at level 0 give exactly 800; and a lock adds
    to the score exactly the table entry of the lines it cleared times
    [level + 1]. *)
Theorem tiered_points (s s' : Aaa.Session) (p : Piece) (merged : Board)
    (n level : Z) :
  Aaa.piece s = Some p ->
  Aaa.mergedGrid (Aaa.grid s) p = Ok merged ->
  Aaa.lockPiece s = Ok s' ->
  Aaa.calculateScore n level = tierTable n * (level + 1) /\
  Aaa.calculateScore 4 0 = 800 /\
  Aaa.score s' =
    Aaa.score s +
    tierTable (cleared (Aaa.clearLines merged)) * (Aaa.level s + 1).
Proof.
  intros Hp Hm Hl. split; [apply calculateScore_tier|]. split; [done|].
  by apply (lockPiece_score s s' p merged).
Qed.

Lemma tiered_points_witness :
  exists s', Aaa.lockPiece (aaaRunning gapGrid (with_y pieceO 18)) = Ok s' /\
    Aaa.score s' = 300.
Proof.
  destruct (Aaa.lockPiece (aaaRunning gapGrid (with_y pieceO 18)))
    as [s'| | |] eqn:E; try (vm_compute in E; discriminate).
  exists s'. split; [done|].
  destruct (Solo.merge gapGrid (with_y pieceO 18)) as [merged| | |] eqn:Em;
    try (vm_compute in Em; discriminate).
  destruct (tiered_points (aaaRunning gapGrid (with_y pieceO 18)) s'
              (with_y pieceO 18) merged 4 0 eq_refl Em E) as (_ & _ & ->).
  vm_compute in Em. injection Em as <-. reflexivity.
Defined.

(** C10 (as amended). On a board of [ROWS] rows, for a piece with an
    occupied cell, the descent loops of the ghost projection and of the
    hard drops exit (for every fuel above [ROWS - y]) after moving the
    piece down some [n >= 0] rows: the position one row below the final
    one collides, every position passed on the way down is free, and
    the final position is free whenever the starting position is.  For
    a piece without occupied cell the loops never exit. *)
Theorem descent_loops (g : Board) (p : Piece) :
  length g = ROWS ->
  ((exists dy dx, occupied p dy dx) ->
   exists n, 0 <= n /\
     (forall fuel, (Z.to_nat (Z.of_nat ROWS - py p) < fuel)%nat ->
        Aaa.getGhostPiece fuel p g = Ok (with_y p (py p + n)) /\
        Aaa.hardDropLoop fuel g p 0 = Ok (with_y p (py p + n), n) /\
        Solo.dropLoop fuel g p = Ok (with_y p (py p + n))) /\
     Aaa.collides g (with_y p (py p + n + 1)) = Ok true /\
     (forall k, 0 < k <= n ->
        Aaa.collides g (with_y p (py p + k)) = Ok false) /\
     (Aaa.collides g p = Ok false ->
        Aaa.collides g (with_y p (py p + n)) = Ok false)) /\
  ((forall dy dx, ~ occupied p dy dx) ->
   forall fuel,
     Aaa.getGhostPiece fuel p g = OutOfFuel /\
     Aaa.hardDropLoop fuel g p 0 = OutOfFuel /\
     Solo.dropLoop fuel g p = OutOfFuel).
Proof.
  intros Hlen. split.
  - intros (dy & dx & Hocc).
    destruct (ghostLoop_exits g dy dx (S (Z.to_nat (Z.of_nat ROWS - py p))) p)
      as (n & Hn & _ & Hhit & Hfree); [done|done|lia|].
    exists n. split; [done|]. split; [|split; [done|split; [done|]]].
    + intros fuel Hfuel.
      destruct (ghostLoop_exits g dy dx fuel p)
        as (n' & Hn' & Hloop' & Hhit' & Hfree'); [done|done|lia|].
      assert (n' = n) as ->.
      { destruct (Z.lt_trichotomy n' n) as [Hlt|[Heq|Hgt]]; [|done|].
        - specialize (Hfree (n' + 1)). rewrite Z.add_assoc in Hfree.
          rewrite Hfree in Hhit' by lia. discriminate.
        - specialize (Hfree' (n + 1)). rewrite Z.add_assoc in Hfree'.
          rewrite Hfree' in Hhit by lia. discriminate. }
      unfold Aaa.getGhostPiece. split; [done|].
      rewrite hardDropLoop_ghostLoop, dropLoop_ghostLoop, Hloop' by done.
      split; [|done]. simpl. do 2 f_equal. lia.
    + intros Hstart. destruct (decide (n = 0)) as [->|Hne].
      * by rewrite Z.add_0_r, with_y_id.
      * apply Hfree. lia.
  - intros Hno fuel. unfold Aaa.getGhostPiece.
    rewrite hardDropLoop_ghostLoop, dropLoop_ghostLoop by done.
    by rewrite ghostLoop_no_cell.
Qed.

Lemma descent_loops_witness :
  exists n, 0 <= n /\
    (forall fuel, (Z.to_nat (Z.of_nat ROWS - py pieceO) < fuel)%nat ->
       Aaa.getGhostPiece fuel pieceO emptyGrid
         = Ok (with_y pieceO (py pieceO + n)) /\
       Aaa.hardDropLoop fuel emptyGrid pieceO 0
         = Ok (with_y pieceO (py pieceO + n), n) /\
       Solo.dropLoop fuel emptyGrid pieceO
         = Ok (with_y pieceO (py pieceO + n))) /\
    Aaa.collides emptyGrid (with_y pieceO (py pieceO + n + 1)) = Ok true /\
    (forall k, 0 < k <= n ->
       Aaa.collides emptyGrid (with_y pieceO (py pieceO + k)) = Ok false) /\
    (Aaa.collides emptyGrid pieceO = Ok false ->
       Aaa.collides emptyGrid (with_y pieceO (py pieceO + n)) = Ok false).
Proof.
  apply (descent_loops emptyGrid pieceO).
  - reflexivity.
  - exists 0%nat, 0%nat, [1; 1], 1. done.
Defined.

(** C10 as stated fails: on the board with columns 4 and 5 filled to
    the top, the O piece at its spawn position collides and so does the
    position one row lower; the loop exits at once, at a position that
    collides. *)
Lemma ghost_stops_on_collision :
  length towerGrid = ROWS /\ occupied pieceO 0 0 /\
  Aaa.getGhostPiece 21 pieceO towerGrid = Ok pieceO /\
  Solo.dropLoop 21 towerGrid pieceO = Ok pieceO /\
  ~ (exists q, Aaa.getGhostPiece 21 pieceO towerGrid = Ok q /\
       Aaa.collides towerGrid q = Ok false /\
       Aaa.collides towerGrid (with_y q (py q + 1)) = Ok true).
Proof.
  split; [done|]. split; [exists [1; 1], 1; done|].
  assert (Aaa.getGhostPiece 21 pieceO towerGrid = Ok pieceO) as H
    by (vm_compute; reflexivity).
  split; [done|]. split; [vm_compute; reflexivity|].
  intros (q & Hq & Hfree & _). rewrite H in Hq. injection Hq as <-.
  vm_compute in Hfree. discriminate.
Qed.

(** ** The piece bag *)

Lemma insert_head_perm (l : list nat) j x y :
  l !! j = Some y -> y :: <[j := x]> l ≡ₚ x :: l.
Proof.
  revert j. induction l as [|a l IH]; intros j Hj; [done|].
  destruct j as [|j]; simpl in *.
  - injection Hj as ->. apply perm_swap.
  - rewrite (perm_swap a y), (IH j Hj). apply perm_swap.
Qed.

(** Exchanging two elements of a list permutes it. *)
Lemma swap_perm (l : list nat) i j :
  (i < length l)%nat -> (j < length l)%nat ->
  exists l', Aaa.swap i j l = Ok l' /\ l' ≡ₚ l.
Proof.
  intros Hi Hj. unfold Aaa.swap.
  destruct (lookup_lt_is_Some_2 l j Hj) as [bj Hbj].
  destruct (lookup_lt_is_Some_2 l i Hi) as [bi Hbi].
  rewrite Hbj, Hbi. eexists. split; [done|].
  clear Hi Hj. revert i j Hbi Hbj.
  induction l as [|a l IH]; intros i j Hbi Hbj; [done|].
  destruct i as [|i], j as [|j]; simpl in *.
  - by injection Hbi as ->; injection Hbj as ->.
  - injection Hbi as ->. by apply insert_head_perm.
  - injection Hbj as ->. by apply insert_head_perm.
  - by rewrite (IH i j).
Qed.

Lemma shuffleFrom_perm i (l : list nat) r :
  (i < length l)%nat ->
  exists l' r', Aaa.shuffleFrom i l r = Ok (l', r') /\ l' ≡ₚ l.
Proof.
  revert l r. induction i as [|i IH]; intros l r Hi.
  - by exists l, r.
  - cbn [Aaa.shuffleFrom]. unfold randomBelow.
    destruct (swap_perm l (S i) (draws r (cursor r) mod (S i + 1)) Hi)
      as (l1 & Hsw & Hp1).
    { assert (draws r (cursor r) mod (S i + 1) < S i + 1)%nat
        by (apply Nat.mod_upper_bound; lia). lia. }
    rewrite Hsw. simpl.
    destruct (IH l1 (mkRng (draws r) (S (cursor r)))) as (l' & r' & Hsh & Hp).
    { rewrite (Permutation_length Hp1). lia. }
    exists l', r'. split; [done|]. by rewrite Hp.
Qed.

(** A refill always succeeds and leaves the seven types, once each. *)
Lemma refillBag_perm r :
  exists b, Aaa.refillBag r = Ok b /\ Aaa.bag b ≡ₚ allTypes.
Proof.
  unfold Aaa.refillBag.
  destruct (shuffleFrom_perm 6 allTypes r) as (l' & r' & Hsh & Hp);
    [simpl; lia|].
  change (length [0; 1; 2; 3; 4; 5; 6]%nat - 1)%nat with 6%nat.
  change [0; 1; 2; 3; 4; 5; 6]%nat with allTypes.
  rewrite Hsh. simpl. by exists (Aaa.mkBag l' r').
Qed.

(** Drawing from a non-empty bag of valid types pops its last entry. *)
Lemma next_pop (l : list nat) c r :
  (c < 7)%nat ->
  exists p, Aaa.next (Aaa.mkBag (l ++ [c]) r) = Ok (p, Aaa.mkBag l r) /\
    colorIdx p = c.
Proof.
  intros Hc. unfold Aaa.next. cbn [Aaa.bag Aaa.rng].
  rewrite length_app. simpl.
  replace (length l + 1 =? 0)%nat with false
    by (symmetry; apply Nat.eqb_neq; lia).
  cbn [bind Aaa.bag Aaa.rng]. rewrite last_snoc.
  rewrite length_app. simpl.
  replace (length l + 1 - 1)%nat with (length l) by lia.
  rewrite take_app_length.
  do 7 (destruct c as [|c]; [eexists; split; [reflexivity|done]|]). lia.
Qed.

Lemma drawMany_all (l : list nat) r :
  Forall (fun c => (c < 7)%nat) l ->
  exists ps, drawMany (length l) (Aaa.mkBag l r) = Ok (ps, Aaa.mkBag [] r) /\
    colorIdx <$> ps = reverse l.
Proof.
  induction l as [|c l IH] using rev_ind; intros Hall.
  - by exists [].
  - apply Forall_app in Hall as [Hl Hc]. apply Forall_inv in Hc.
    destruct (next_pop l c r Hc) as (p & Hnext & Hcol).
    destruct (IH Hl) as (ps & Hps & Hcols).
    exists (p :: ps). rewrite length_app. simpl.
    replace (length l + 1)%nat with (S (length l)) by lia.
    cbn [drawMany]. rewrite Hnext. cbn [bind]. rewrite Hps. cbn [bind].
    split; [done|]. rewrite reverse_snoc, Hcol. f_equal. exact Hcols.
Qed.

Lemma perm_allTypes_bound (l : list nat) :
  l ≡ₚ allTypes -> Forall (fun c => (c < 7)%nat) l.
Proof.
  intros Hp. rewrite Hp. unfold allTypes. repeat constructor.
Qed.

(** A bag that is empty is refilled by the next draw, which then
    proceeds as on the refilled bag. *)
Lemma next_empty b :
  Aaa.bag b = [] ->
  exists b1, Aaa.refillBag (Aaa.rng b) = Ok b1 /\ Aaa.bag b1 ≡ₚ allTypes /\
    Aaa.next b = Aaa.next b1.
Proof.
  intros Hb. destruct (refillBag_perm (Aaa.rng b)) as (b1 & Hre & Hp).
  exists b1. split; [done|]. split; [done|].
  assert (length (Aaa.bag b1) = 7%nat) as Hlen
    by (by rewrite (Permutation_length Hp)).
  unfold Aaa.next. rewrite Hb. cbn [length Nat.eqb]. rewrite Hre.
  cbn [bind]. rewrite Hlen. cbn [Nat.eqb bind]. by rewrite Hlen.
Qed.

Lemma next_nonempty (b : Aaa.PieceBag) l c :
  Aaa.bag b = l ++ [c] -> (c < 7)%nat ->
  exists p, Aaa.next b = Ok (p, Aaa.mkBag l (Aaa.rng b)) /\ colorIdx p = c.
Proof.
  intros Hb Hc. destruct b as [l0 r]. simpl in Hb. subst l0.
  by apply next_pop.
Qed.

Lemma bagInv_next b p b' :
  bagInv b -> Aaa.next b = Ok (p, b') -> bagInv b'.
Proof.
  intros [drawn Hinv] Hnext.
  destruct (Aaa.bag b) as [|c0 l0] eqn:Hb using rev_ind.
  - destruct (next_empty b Hb) as (b1 & _ & Hp & Heq).
    rewrite Heq in Hnext.
    destruct (Aaa.bag b1) as [|c l _] eqn:Hb1 using rev_ind.
    { apply Permutation_length in Hp. done. }
    destruct (next_nonempty b1 l c Hb1) as (q & Hq & _).
    { pose proof (perm_allTypes_bound _ Hp) as Hall.
      apply Forall_app in Hall as [_ Hc]. by apply Forall_inv in Hc. }
    rewrite Hq in Hnext. injection Hnext as <- <-. by exists [c].
  - clear IHl0.
    destruct (next_nonempty b l0 c0 Hb) as (q & Hq & _).
    { assert (Forall (fun c => (c < 7)%nat) ((l0 ++ [c0]) ++ drawn)) as Hall.
      { rewrite Hinv. unfold allTypes. repeat constructor. }
      apply Forall_app in Hall as [Hall _].
      apply Forall_app in Hall as [_ Hc]. by apply Forall_inv in Hc. }
    rewrite Hq in Hnext. injection Hnext as <- <-.
    exists (c0 :: drawn). simpl. by rewrite <- app_assoc in Hinv.
Qed.

Lemma bagReachable_inv b : bagReachable b -> bagInv b.
Proof.
  induction 1 as [r b Hnew|b p b' _ IH Hnext].
  - destruct (refillBag_perm r) as (b0 & Hre & Hp).
    unfold Aaa.newPieceBag in Hnew. rewrite Hre in Hnew.
    injection Hnew as <-. exists []. by rewrite app_nil_r.
  - by eapply bagInv_next.
Qed.

(** C8. Whatever the random draws of the shuffle: a new bag and every
    refill hold the seven type indices once each; seven draws that start
    at a refill boundary (the bag just refilled, or empty so that the
    first draw refills it) succeed, yield each of the seven types
    exactly once and leave the bag empty, at the next boundary; and no
    bag a session can reach contains a type twice or a type outside
    0..6. *)
Theorem bag_cycle (b : Aaa.PieceBag) (r : Rng) :
  (exists b0, Aaa.newPieceBag r = Ok b0 /\ Aaa.bag b0 ≡ₚ allTypes) /\
  (Aaa.bag b ≡ₚ allTypes \/ Aaa.bag b = [] ->
   exists ps b', drawMany 7 b = Ok (ps, b') /\
     colorIdx <$> ps ≡ₚ allTypes /\ Aaa.bag b' = []) /\
  (bagReachable b -> NoDup (Aaa.bag b) /\ Aaa.bag b ⊆ allTypes).
Proof.
  split; [apply refillBag_perm|]. split.
  - assert (forall b1, Aaa.bag b1 ≡ₚ allTypes ->
      exists ps b', drawMany 7 b1 = Ok (ps, b') /\
        colorIdx <$> ps ≡ₚ allTypes /\ Aaa.bag b' = []) as Hfull.
    { intros [l r1] Hp. simpl in Hp.
      destruct (drawMany_all l r1 (perm_allTypes_bound l Hp))
        as (ps & Hps & Hcols).
      rewrite (Permutation_length Hp) in Hps.
      exists ps, (Aaa.mkBag [] r1). split; [done|]. split; [|done].
      by rewrite Hcols, reverse_Permutation. }
    intros [Hp|Hempty]; [by apply Hfull|].
    destruct (next_empty b Hempty) as (b1 & _ & Hp & Heq).
    destruct (Hfull b1 Hp) as (ps & b' & Hdraw & Hres).
    exists ps, b'. split; [|done].
    cbn [drawMany] in *. by rewrite Heq.
  - intros Hreach. destruct (bagReachable_inv b Hreach) as [drawn Hinv].
    assert (NoDup allTypes) as Hnd by (unfold allTypes; apply NoDup_ListNoDup;
      repeat constructor; simpl; intuition lia).
    rewrite <- Hinv in Hnd. apply NoDup_app in Hnd as (Hnd & _ & _).
    split; [done|]. intros c Hc. rewrite <- Hinv. apply elem_of_app. by left.
Qed.

Lemma bag_cycle_witness :
  exists ps b', drawMany 7 (Aaa.mkBag [] demoRng) = Ok (ps, b') /\
    colorIdx <$> ps ≡ₚ allTypes /\ Aaa.bag b' = [].
Proof.
  apply (bag_cycle (Aaa.mkBag [] demoRng) demoRng).
  right. reflexivity.
Defined.

(** ** Session transitions *)

(** A draw from a bag in a valid state succeeds and leaves a valid bag. *)
Lemma next_total b :
  bagInv b -> exists p b', Aaa.next b = Ok (p, b') /\ bagInv b'.
Proof.
  intros Hinv.
  assert (exists p b', Aaa.next b = Ok (p, b')) as (p & b' & Hnext).
  { destruct Hinv as [drawn Hinv].
    destruct (Aaa.bag b) as [|c0 l0 _] eqn:Hb using rev_ind.
    - destruct (next_empty b Hb) as (b1 & _ & Hp & ->).
      destruct (Aaa.bag b1) as [|c l _] eqn:Hb1 using rev_ind.
      { apply Permutation_length in Hp. done. }
      destruct (next_nonempty b1 l c Hb1) as (q & Hq & _); [|by eauto].
      pose proof (perm_allTypes_bound _ Hp) as Hall.
      apply Forall_app in Hall as [_ Hc]. by apply Forall_inv in Hc.
    - destruct (next_nonempty b l0 c0 Hb) as (q & Hq & _); [|by eauto].
      assert (Forall (fun c => (c < 7)%nat) ((l0 ++ [c0]) ++ drawn)) as Hall.
      { rewrite Hinv. unfold allTypes. repeat constructor. }
      apply Forall_app in Hall as [Hall _].
      apply Forall_app in Hall as [_ Hc]. by apply Forall_inv in Hc. }
  exists p, b'. split; [done|]. by eapply bagInv_next.
Qed.

Lemma clearLines_rows (g : Board) :
  length g = ROWS -> length (newGrid (Aaa.clearLines g)) = ROWS.
Proof.
  intros Hlen. unfold Aaa.clearLines. cbn [newGrid].
  change Aaa.unshiftZeros with Solo.unshiftZeros.
  rewrite unshiftZeros_spec by apply Nat.le_sub_l.
  rewrite length_app, length_replicate.
  pose proof (length_filter hasEmpty g). lia.
Qed.

(** A lock goes through when the piece lies on the board, a preview is
    queued and the bag is in a valid state. *)
Lemma lockPiece_total (s : Aaa.Session) p :
  Aaa.piece s = Some p -> length (Aaa.grid s) = ROWS ->
  fits (Aaa.grid s) p -> Aaa.nextPieces s <> [] -> bagInv (Aaa.pieceBag s) ->
  exists s', Aaa.lockPiece s = Ok s'.
Proof.
  intros Hp Hlen Hfit Hq Hbag. unfold Aaa.lockPiece. rewrite Hp.
  destruct (merge_spec (Aaa.grid s) p Hfit) as (merged & Hm & Hd & _).
  rewrite Aaa_mergedGrid_eq, Hm. cbn [bind].
  destruct (next_total _ Hbag) as (fresh & bag' & Hnext & _).
  rewrite Hnext. cbn [bind].
  destruct (Aaa.nextPieces s) as [|newPiece rest]; [done|].
  assert (length merged = ROWS) as Hlm.
  { by rewrite <- (length_fmap length merged), Hd, length_fmap. }
  destruct (Aaa_collides_spec (newGrid (Aaa.clearLines merged)) newPiece)
    as (hit & Hhit & _); [by apply clearLines_rows|].
  rewrite Hhit. cbn [bind]. by eexists.
Qed.

(** A uniformly drawn piece always exists. *)
Lemma randomPiece_total r : exists p r', Solo.randomPiece r = Ok (p, r').
Proof.
  unfold Solo.randomPiece, randomBelow.
  assert (draws r (cursor r) mod length SHAPES < 7)%nat as Hlt
    by (apply Nat.mod_upper_bound; done).
  destruct (draws r (cursor r) mod length SHAPES)%nat as [|n];
    [by eexists _, _|].
  do 6 (destruct n as [|n]; [by eexists _, _|]). lia.
Qed.


Lemma Aaa_setPiece_same (s : Aaa.Session) p :
  Aaa.piece s = Some p -> Aaa.setPiece (Some p) s = s.
Proof. destruct s. simpl. by intros ->. Qed.

Lemma Solo_setPiece_same (t : Solo.Session) :
  Solo.setPiece (Solo.piece t) t = t.
Proof. by destruct t. Qed.

(** While the session runs, the keys reach their handlers. *)
Lemma handleKeyDown_running run fuel key (s : Aaa.Session) :
  Aaa.started s = true -> Aaa.over s = false -> Aaa.paused s = false ->
  Aaa.handleKeyDown run fuel key s =
    if String.eqb key "ArrowLeft" then Aaa.arrowLeft s
    else if String.eqb key "ArrowRight" then Aaa.arrowRight s
    else if String.eqb key "ArrowDown" then Aaa.stepDown run s
    else if String.eqb key "ArrowUp" then Aaa.hardDrop fuel s
    else if String.eqb key " " then Aaa.rotatePiece s
    else if String.eqb key "c" || String.eqb key "C" then Aaa.holdPieceAction s
    else if String.eqb key "p" || String.eqb key "P"
         then Ok (Aaa.setPaused (negb (Aaa.paused s)) s)
    else if String.eqb key "r" || String.eqb key "R" then Aaa.resetGame s
    else Ok s.
Proof. intros Hs Ho Hp. unfold Aaa.handleKeyDown. by rewrite Hs, Ho, Hp. Qed.

Lemma arrowLeft_blocked (s : Aaa.Session) p :
  Aaa.piece s = Some p ->
  Aaa.collides (Aaa.grid s) (with_x p (px p - 1)) = Ok true ->
  Aaa.arrowLeft s = Ok s.
Proof.
  intros Hp Hc. unfold Aaa.arrowLeft. rewrite Hp, Hc. simpl.
  by rewrite Aaa_setPiece_same.
Qed.

Lemma arrowRight_blocked (s : Aaa.Session) p :
  Aaa.piece s = Some p ->
  Aaa.collides (Aaa.grid s) (with_x p (px p + 1)) = Ok true ->
  Aaa.arrowRight s = Ok s.
Proof.
  intros Hp Hc. unfold Aaa.arrowRight. rewrite Hp, Hc. simpl.
  by rewrite Aaa_setPiece_same.
Qed.

Lemma stepDown_free run (s : Aaa.Session) p :
  Aaa.piece s = Some p ->
  Aaa.collides (Aaa.grid s) (with_y p (py p + 1)) = Ok false ->
  Aaa.stepDown run s = Ok (Aaa.setPiece (Some (with_y p (py p + 1))) s).
Proof. intros Hp Hc. unfold Aaa.stepDown. by rewrite Hp, Hc. Qed.

Lemma stepDown_blocked (s : Aaa.Session) p :
  Aaa.piece s = Some p ->
  Aaa.collides (Aaa.grid s) (with_y p (py p + 1)) = Ok true ->
  Aaa.stepDown Aaa.InRender s = Aaa.lockPiece s.
Proof. intros Hp Hc. unfold Aaa.stepDown. by rewrite Hp, Hc. Qed.

Lemma stepDown_blocked_eager (s : Aaa.Session) p :
  Aaa.piece s = Some p ->
  Aaa.collides (Aaa.grid s) (with_y p (py p + 1)) = Ok true ->
  Aaa.stepDown Aaa.Eager s =
    omap (Aaa.setPiece (Some p)) (Aaa.lockPiece s).
Proof. intros Hp Hc. unfold Aaa.stepDown. by rewrite Hp, Hc. Qed.

(** A lock after an event that changed nothing, which React runs
    eagerly: the O piece in the bottom left corner is pushed against
    the wall, then the gravity interval fires.  The piece is merged
    into rows 18 and 19 and stays the active piece; the head of the
    preview queue is dropped. *)
Example eager_lock_keeps_piece :
  exists s',
    aaaRun false 30 [AKey "ArrowLeft" Aaa.InRender; ATick Aaa.Eager]
      (aaaRunning emptyGrid (with_y (with_x pieceO 0) 18)) = Ok s' /\
    Aaa.piece s' = Some (with_y (with_x pieceO 0) 18) /\
    Aaa.grid s' =
      replicate 18 zeroRow ++ replicate 2 [1; 1; 0; 0; 0; 0; 0; 0; 0; 0] /\
    head (Aaa.nextPieces s') = Some pieceT.
Proof. eexists. split; [vm_compute; reflexivity|]. by vm_compute. Qed.

(** What a successful lock leaves behind. *)
Lemma lockPiece_result (s s' : Aaa.Session) p :
  Aaa.piece s = Some p -> Aaa.lockPiece s = Ok s' ->
  exists merged,
    Aaa.mergedGrid (Aaa.grid s) p = Ok merged /\
    Aaa.grid s' = newGrid (Aaa.clearLines merged) /\
    Aaa.score s' =
      Aaa.score s +
      tierTable (cleared (Aaa.clearLines merged)) * (Aaa.level s + 1) /\
    Aaa.piece s' = head (Aaa.nextPieces s) /\
    Aaa.canHold s' = true.
Proof.
  intros Hp H. pose proof H as H0. unfold Aaa.lockPiece in H. rewrite Hp in H.
  apply bind_Ok in H as (merged & Hm & H). exists merged.
  split; [done|]. split; [|split; [by eapply lockPiece_score|]].
  - apply bind_Ok in H as ([fresh bag'] & _ & H).
    destruct (Aaa.nextPieces s) as [|newPiece rest]; [done|].
    apply bind_Ok in H as (hit & _ & H). by injection H as <-.
  - apply bind_Ok in H as ([fresh bag'] & _ & H).
    destruct (Aaa.nextPieces s) as [|newPiece rest]; [done|].
    apply bind_Ok in H as (hit & _ & H). by injection H as <-.
Qed.

Lemma rotatePiece_blocked (s : Aaa.Session) p sh :
  Aaa.piece s = Some p -> Aaa.rotate (shape p) = Ok sh ->
  Aaa.collides (Aaa.grid s) (with_shape p sh) = Ok true ->
  Aaa.rotatePiece s = Ok s.
Proof.
  intros Hp Hr Hc. unfold Aaa.rotatePiece. rewrite Hp, Hr. cbn [bind].
  by rewrite Hc.
Qed.

Lemma hold_used (s : Aaa.Session) :
  Aaa.canHold s = false -> Aaa.holdPieceAction s = Ok s.
Proof.
  intros Hc. unfold Aaa.holdPieceAction. rewrite Hc.
  by destruct (Aaa.piece s).
Qed.

(** The first hold with an empty slot. *)
Lemma hold_empty_slot (s s1 : Aaa.Session) p :
  Aaa.piece s = Some p -> Aaa.canHold s = true -> Aaa.holdPiece s = None ->
  Aaa.holdPieceAction s = Ok s1 ->
  recentred_hold p (Aaa.holdPiece s1) /\
  Aaa.piece s1 = head (Aaa.nextPieces s) /\
  Aaa.canHold s1 = false /\
  Aaa.grid s1 = Aaa.grid s /\ Aaa.score s1 = Aaa.score s /\
  Aaa.started s1 = Aaa.started s /\ Aaa.over s1 = Aaa.over s /\
  Aaa.paused s1 = Aaa.paused s.
Proof.
  intros Hp Hc Hh H. unfold Aaa.holdPieceAction in H.
  rewrite Hp, Hc, Hh in H. cbn [negb] in H.
  apply bind_Ok in H as (newHold & Hre & H).
  apply bind_Ok in H as ([fresh bag'] & _ & H). injection H as <-.
  cbn. split; [|done]. unfold recentred_hold. exists newHold. split; [done|].
  unfold Aaa.recentred in Hre. apply bind_Ok in Hre as (x & Hx & Hre).
  injection Hre as <-. cbn. split; [done|]. split; [done|]. split; [done|].
  destruct (shape p) as [|r0 ?]; [done|]. by injection Hx as <-.
Qed.

Lemma Solo_onKey_running fuel key (t : Solo.Session) :
  Solo.started t = true -> Solo.over t = false ->
  Solo.onKey fuel key t =
    let* p' := Solo.keyUpdater fuel key (Solo.grid t) (Solo.piece t) in
    let s' := Solo.setPiece p' t in
    if String.eqb key "r" then Solo.resetGame s' else Ok s'.
Proof. intros Hs Ho. unfold Solo.onKey. by rewrite Hs, Ho. Qed.

Lemma Solo_left_blocked fuel (t : Solo.Session) :
  Solo.started t = true -> Solo.over t = false ->
  Solo.collides (Solo.grid t)
    (with_x (Solo.piece t) (px (Solo.piece t) - 1)) = Ok true ->
  Solo.onKey fuel "ArrowLeft" t = Ok t /\ Solo.moveLeft t = Ok t.
Proof.
  intros Hs Ho Hc. split.
  - rewrite Solo_onKey_running by done. unfold Solo.keyUpdater. eval_keys.
    cbn [bind]. rewrite Hc. cbn [bind]. by rewrite Solo_setPiece_same.
  - unfold Solo.moveLeft. rewrite Hc. cbn [bind].
    by rewrite Solo_setPiece_same.
Qed.

Lemma Solo_right_blocked fuel (t : Solo.Session) :
  Solo.started t = true -> Solo.over t = false ->
  Solo.collides (Solo.grid t)
    (with_x (Solo.piece t) (px (Solo.piece t) + 1)) = Ok true ->
  Solo.onKey fuel "ArrowRight" t = Ok t /\ Solo.moveRight t = Ok t.
Proof.
  intros Hs Ho Hc. split.
  - rewrite Solo_onKey_running by done. unfold Solo.keyUpdater. eval_keys.
    cbn [bind]. rewrite Hc. cbn [bind]. by rewrite Solo_setPiece_same.
  - unfold Solo.moveRight. rewrite Hc. cbn [bind].
    by rewrite Solo_setPiece_same.
Qed.


Lemma Solo_rotate_blocked fuel (t : Solo.Session) sh :
  Solo.started t = true -> Solo.over t = false ->
  Solo.rotate (shape (Solo.piece t)) = Ok sh ->
  Solo.collides (Solo.grid t) (with_shape (Solo.piece t) sh) = Ok true ->
  Solo.onKey fuel " " t = Ok t /\ Solo.rotatePiece t = Ok t.
Proof.
  intros Hs Ho Hr Hc. split.
  - rewrite Solo_onKey_running by done. unfold Solo.keyUpdater. eval_keys.
    rewrite Hr. cbn [bind]. rewrite Hc. cbn [bind].
    by rewrite Solo_setPiece_same.
  - unfold Solo.rotatePiece. rewrite Hr. cbn [bind]. rewrite Hc. cbn [bind].
    by rewrite Solo_setPiece_same.
Qed.

Lemma hold_total (s : Aaa.Session) p :
  Aaa.piece s = Some p -> Aaa.canHold s = true -> Aaa.holdPiece s = None ->
  shape p <> [] -> bagInv (Aaa.pieceBag s) ->
  exists s1, Aaa.holdPieceAction s = Ok s1.
Proof.
  intros Hp Hc Hh Hsh Hbag. unfold Aaa.holdPieceAction.
  rewrite Hp, Hc, Hh. cbn [negb]. unfold Aaa.recentred.
  destruct (shape p) as [|r0 rest] eqn:Hs; [done|]. cbn [centreX bind].
  destruct (next_total _ Hbag) as (fresh & bag' & Hnext & _).
  rewrite Hnext. cbn [bind]. by eexists.
Qed.

(** C9. A rejected action changes nothing in the session.  AAA
    ruleset, session running with an active piece: a left or right move
    and a rotation whose result collides, and a hold while the hold has
    been used, return the session as it is; after a first hold with an
    empty slot (which goes through: the piece goes to the slot at its
    spawn position, the head of the preview queue becomes active, the
    hold is marked used), a second hold returns the session as it is.
    Solo ruleset: a
    blocked left or right move or rotation, by key or by touch button,
    returns the session as it is. *)
Theorem rejected_is_noop (run : Aaa.UpdaterRun) (fuel : nat)
    (s : Aaa.Session) (p : Piece) (t : Solo.Session) :
  (Aaa.started s = true -> Aaa.over s = false -> Aaa.paused s = false ->
   Aaa.piece s = Some p ->
   (Aaa.collides (Aaa.grid s) (with_x p (px p - 1)) = Ok true ->
      Aaa.handleKeyDown run fuel "ArrowLeft" s = Ok s) /\
   (Aaa.collides (Aaa.grid s) (with_x p (px p + 1)) = Ok true ->
      Aaa.handleKeyDown run fuel "ArrowRight" s = Ok s) /\
   (forall sh, Aaa.rotate (shape p) = Ok sh ->
      Aaa.collides (Aaa.grid s) (with_shape p sh) = Ok true ->
      Aaa.handleKeyDown run fuel " " s = Ok s) /\
   (Aaa.canHold s = false ->
      Aaa.handleKeyDown run fuel "c" s = Ok s /\
      Aaa.handleKeyDown run fuel "C" s = Ok s) /\
   (Aaa.canHold s = true -> Aaa.holdPiece s = None ->
      (shape p <> [] -> bagInv (Aaa.pieceBag s) ->
         exists s1, Aaa.handleKeyDown run fuel "c" s = Ok s1) /\
      forall s1, Aaa.handleKeyDown run fuel "c" s = Ok s1 ->
        recentred_hold p (Aaa.holdPiece s1) /\
        Aaa.piece s1 = head (Aaa.nextPieces s) /\
        Aaa.canHold s1 = false /\
        Aaa.handleKeyDown run fuel "c" s1 = Ok s1)) /\
  (Solo.started t = true -> Solo.over t = false ->
   (Solo.collides (Solo.grid t)
      (with_x (Solo.piece t) (px (Solo.piece t) - 1)) = Ok true ->
      Solo.onKey fuel "ArrowLeft" t = Ok t /\ Solo.moveLeft t = Ok t) /\
   (Solo.collides (Solo.grid t)
      (with_x (Solo.piece t) (px (Solo.piece t) + 1)) = Ok true ->
      Solo.onKey fuel "ArrowRight" t = Ok t /\ Solo.moveRight t = Ok t) /\
   (forall sh, Solo.rotate (shape (Solo.piece t)) = Ok sh ->
      Solo.collides (Solo.grid t) (with_shape (Solo.piece t) sh) = Ok true ->
      Solo.onKey fuel " " t = Ok t /\ Solo.rotatePiece t = Ok t)).
Proof.
  split.
  - intros Hs Ho Hpa Hp.
    split; [|split; [|split; [|split]]].
    + intros Hc. rewrite handleKeyDown_running by done. eval_keys.
      by apply (arrowLeft_blocked s p).
    + intros Hc. rewrite handleKeyDown_running by done. eval_keys.
      by apply (arrowRight_blocked s p).
    + intros sh Hr Hc. rewrite handleKeyDown_running by done. eval_keys.
      by apply (rotatePiece_blocked s p sh).
    + intros Hc. rewrite !handleKeyDown_running by done. eval_keys.
      split; by apply hold_used.
    + intros Hc Hh. split.
      { intros Hsh Hbag. rewrite handleKeyDown_running by done. eval_keys.
        by apply (hold_total s p). }
      intros s1 H1. rewrite handleKeyDown_running in H1 by done.
      revert H1. eval_keys. intros H1.
      destruct (hold_empty_slot s s1 p Hp Hc Hh H1)
        as (Hslot & Hpiece & Hused & _ & _ & Hs1 & Ho1 & Hpa1).
      split; [done|]. split; [done|]. split; [done|].
      rewrite handleKeyDown_running by congruence. eval_keys.
      by apply hold_used.
  - intros Hs Ho. split; [|split].
    + by apply Solo_left_blocked.
    + by apply Solo_right_blocked.
    + intros sh. by apply Solo_rotate_blocked.
Qed.

Lemma rejected_is_noop_witness :
  Aaa.handleKeyDown Aaa.Eager 0 "ArrowLeft" (aaaRunning emptyGrid (with_x pieceO 0))
    = Ok (aaaRunning emptyGrid (with_x pieceO 0)) /\
  (exists s1,
     Aaa.handleKeyDown Aaa.Eager 0 "c" (aaaRunning emptyGrid (with_x pieceO 0)) = Ok s1 /\
     Aaa.piece s1 = Some pieceI /\
     Aaa.handleKeyDown Aaa.Eager 0 "c" s1 = Ok s1) /\
  Solo.onKey 0 "ArrowLeft" (soloRunning emptyGrid (with_x pieceO 0))
    = Ok (soloRunning emptyGrid (with_x pieceO 0)).
Proof.
  destruct (rejected_is_noop Aaa.Eager 0 (aaaRunning emptyGrid (with_x pieceO 0))
              (with_x pieceO 0) (soloRunning emptyGrid (with_x pieceO 0)))
    as [HA HS].
  destruct (HA eq_refl eq_refl eq_refl eq_refl)
    as (Hleft & _ & _ & _ & Hhold).
  split; [|split].
  - apply Hleft. vm_compute. reflexivity.
  - destruct (Hhold eq_refl eq_refl) as [Hfirst Hsecond].
    destruct Hfirst as [s1 H1].
    + discriminate.
    + exists [0; 1; 2; 3]%nat. unfold allTypes. simpl. solve_Permutation.
    + exists s1. split; [done|].
      destruct (Hsecond s1 H1) as (_ & Hp & _ & Hagain). by split.
  - destruct (HS eq_refl eq_refl) as (Hleft' & _).
    apply Hleft'. vm_compute. reflexivity.
Defined.

(** ** Soft drop and gravity *)

Lemma Solo_gravity_running (t : Solo.Session) :
  Solo.started t = true -> Solo.over t = false -> Solo.paused t = false ->
  Solo.collides (Solo.grid t)
    (with_y (Solo.piece t) (py (Solo.piece t) + 1)) = Ok true ->
  Solo.gravityTick t =
    if py (Solo.piece t) =? 0 then Ok (Solo.setOver true t)
    else
      let* merged := Solo.merge (Solo.grid t) (Solo.piece t) in
      let r := Solo.clearLines merged in
      let* (fresh, rng') := Solo.randomPiece (Solo.rng t) in
      Ok (Solo.mkSession (newGrid r) (Solo.nextPiece t) fresh
            (Solo.score t + 10 + cleared r * 100) (Solo.level t + cleared r)
            (Solo.started t) (Solo.over t) (Solo.countdown t)
            (Solo.paused t) rng').
Proof.
  intros Hs Ho Hp Hc. unfold Solo.gravityTick. rewrite Hs, Ho, Hp, Hc. done.
Qed.




(** ** The O piece on the empty board *)

Lemma O_free k :
  0 <= k <= 18 ->
  Aaa.collides emptyGrid (with_y pieceO k) = Ok false /\
  Solo.collides emptyGrid (with_y pieceO k) = Ok false.
Proof.
  intros Hk. rewrite <- (Z2Nat.id k) by lia.
  assert (Z.to_nat k <= 18)%nat as Hn by lia.
  revert Hn. generalize (Z.to_nat k). intros n Hn.
  do 19 (destruct n as [|n]; [split; vm_compute; reflexivity|]). lia.
Qed.

Lemma Aaa_setPiece_setPiece a b (s : Aaa.Session) :
  Aaa.setPiece a (Aaa.setPiece b s) = Aaa.setPiece a s.
Proof. done. Qed.

Lemma softDrops_O run (s : Aaa.Session) (n k : nat) :
  Aaa.started s = true -> Aaa.over s = false -> Aaa.paused s = false ->
  Aaa.grid s = emptyGrid -> (k + n <= 18)%nat ->
  softDrops run n (Aaa.setPiece (Some (with_y pieceO (Z.of_nat k))) s) =
    Ok (Aaa.setPiece (Some (with_y pieceO (Z.of_nat (k + n)))) s).
Proof.
  intros Hs Ho Hpa Hg. revert k. induction n as [|n IH]; intros k Hk.
  - by rewrite Nat.add_0_r.
  - cbn [softDrops]. rewrite handleKeyDown_running by done. eval_keys.
    rewrite (stepDown_free _ _ (with_y pieceO (Z.of_nat k))); [|done|].
    + cbn [bind]. rewrite Aaa_setPiece_setPiece, with_y_with_y.
      replace (py (with_y pieceO (Z.of_nat k)) + 1) with (Z.of_nat (S k))
        by (cbn [py with_y]; lia).
      rewrite IH by lia.
      by replace (S k + n)%nat with (k + S n)%nat by lia.
    + cbn [Aaa.grid Aaa.setPiece]. rewrite Hg, with_y_with_y.
      apply O_free. cbn [py with_y]. lia.
Qed.

Lemma soloTicks_O (t : Solo.Session) (n k : nat) :
  Solo.started t = true -> Solo.over t = false -> Solo.paused t = false ->
  Solo.grid t = emptyGrid -> (k + n <= 18)%nat ->
  soloTicks n (Solo.setPiece (with_y pieceO (Z.of_nat k)) t) =
    Ok (Solo.setPiece (with_y pieceO (Z.of_nat (k + n))) t).
Proof.
  intros Hs Ho Hpa Hg. revert k. induction n as [|n IH]; intros k Hk.
  - by rewrite Nat.add_0_r.
  - cbn [soloTicks]. unfold Solo.gravityTick at 1.
    cbn [Solo.started Solo.over Solo.paused Solo.grid Solo.piece Solo.setPiece].
    rewrite Hs, Ho, Hpa, Hg. cbn [negb orb]. cbv zeta.
    rewrite with_y_with_y.
    destruct (O_free (py (with_y pieceO (Z.of_nat k)) + 1)) as [_ ->];
      [cbn [py with_y]; lia|].
    cbn [bind].
    replace (py (with_y pieceO (Z.of_nat k)) + 1) with (Z.of_nat (S k))
      by (cbn [py with_y]; lia).
    change (Solo.setPiece ?a (Solo.setPiece ?b t)) with (Solo.setPiece a t).
    rewrite IH by lia.
    by replace (S k + n)%nat with (k + S n)%nat by lia.
Qed.

(** C6 (as amended). On the empty 20 by 10 board the O piece at its
    spawn position (x = floor((COLS - 2) / 2) = 4, y = 0) does not
    collide; the piece is two rows high, so each of the first 18
    one-row moves down succeeds and the 19th attempt collides.  AAA
    ruleset: after 18 soft drops the piece stands at row 18 and the 19th
    soft drop runs [lockPiece], which goes through and leaves the piece
    on rows 18 and 19 of the grid, the head of the preview queue being
    the new active piece (the updater of the 19th drop runs in a
    render, the 18 before it having changed the state; however React
    runs it, the piece ends on rows 18 and 19).  Solo ruleset: after
    18 gravity ticks the piece stands at row 18 and the 19th tick
    locks it on rows 18 and 19. *)
Theorem o_piece_descent (run : Aaa.UpdaterRun) (s : Aaa.Session)
    (t : Solo.Session) :
  (centreX (shape pieceO) = Ok (px pieceO) /\ py pieceO = 0 /\
   Aaa.collides emptyGrid pieceO = Ok false /\
   Solo.collides emptyGrid pieceO = Ok false /\
   (forall k, 1 <= k <= 18 ->
      Aaa.collides emptyGrid (with_y pieceO k) = Ok false /\
      Solo.collides emptyGrid (with_y pieceO k) = Ok false) /\
   Aaa.collides emptyGrid (with_y pieceO 19) = Ok true /\
   Solo.collides emptyGrid (with_y pieceO 19) = Ok true /\
   Aaa.mergedGrid emptyGrid (with_y pieceO 18) = Ok restingO /\
   Solo.merge emptyGrid (with_y pieceO 18) = Ok restingO) /\
  (Aaa.started s = true -> Aaa.over s = false -> Aaa.paused s = false ->
   Aaa.grid s = emptyGrid -> Aaa.piece s = Some pieceO ->
   (forall n, (n <= 18)%nat ->
      softDrops run n s =
        Ok (Aaa.setPiece (Some (with_y pieceO (Z.of_nat n))) s)) /\
   Aaa.handleKeyDown Aaa.InRender 0 "ArrowDown"
     (Aaa.setPiece (Some (with_y pieceO 18)) s)
     = Aaa.lockPiece (Aaa.setPiece (Some (with_y pieceO 18)) s) /\
   (Aaa.nextPieces s <> [] -> bagInv (Aaa.pieceBag s) ->
    exists s',
      Aaa.lockPiece (Aaa.setPiece (Some (with_y pieceO 18)) s) = Ok s' /\
      Aaa.grid s' = restingO /\ Aaa.piece s' = head (Aaa.nextPieces s)) /\
   (Aaa.nextPieces s <> [] -> bagInv (Aaa.pieceBag s) ->
    exists s',
      Aaa.handleKeyDown run 0 "ArrowDown"
        (Aaa.setPiece (Some (with_y pieceO 18)) s) = Ok s' /\
      Aaa.grid s' = restingO)) /\
  (Solo.started t = true -> Solo.over t = false -> Solo.paused t = false ->
   Solo.grid t = emptyGrid -> Solo.piece t = pieceO ->
   (forall n, (n <= 18)%nat ->
      soloTicks n t = Ok (Solo.setPiece (with_y pieceO (Z.of_nat n)) t)) /\
   exists t',
     Solo.gravityTick (Solo.setPiece (with_y pieceO 18) t) = Ok t' /\
     Solo.grid t' = restingO /\ Solo.piece t' = Solo.nextPiece t).
Proof.
  split; [|split].
  - split; [done|]. split; [done|].
    split; [vm_compute; reflexivity|]. split; [vm_compute; reflexivity|].
    split; [intros k Hk; apply O_free; lia|].
    repeat split; vm_compute; reflexivity.
  - intros Hs Ho Hpa Hg Hp.
    set (s18 := Aaa.setPiece (Some (with_y pieceO 18)) s).
    assert (Aaa.collides (Aaa.grid s18)
              (with_y (with_y pieceO 18) (py (with_y pieceO 18) + 1))
            = Ok true) as Hhit.
    { cbn [s18 Aaa.grid Aaa.setPiece]. rewrite Hg. vm_compute. reflexivity. }
    assert (Aaa.nextPieces s <> [] -> bagInv (Aaa.pieceBag s) ->
            exists s', Aaa.lockPiece s18 = Ok s' /\
              Aaa.grid s' = restingO /\
              Aaa.piece s' = head (Aaa.nextPieces s)) as Hlock.
    { intros Hq Hbag.
      destruct (lockPiece_total s18 (with_y pieceO 18)) as [s' Hs']; try done.
      { cbn [s18 Aaa.grid Aaa.setPiece]. by rewrite Hg. }
      { cbn [s18 Aaa.grid Aaa.setPiece]. rewrite Hg. apply fits_emptyGrid_O.
        lia. }
      exists s'. split; [done|].
      destruct (lockPiece_result s18 s' (with_y pieceO 18) eq_refl Hs')
        as (merged & Hm & Hgrid & _ & Hpiece & _).
      cbn [s18 Aaa.grid Aaa.setPiece] in Hm. rewrite Hg in Hm.
      vm_compute in Hm. injection Hm as <-. split; [|done].
      rewrite Hgrid. vm_compute. reflexivity. }
    split; [|split; [|split; [done|]]].
    + intros n Hn.
      rewrite <- (Aaa_setPiece_same s pieceO Hp) at 1.
      by apply (softDrops_O run s n 0).
    + rewrite handleKeyDown_running by done. eval_keys.
      by apply (stepDown_blocked _ (with_y pieceO 18)).
    + intros Hq Hbag. destruct (Hlock Hq Hbag) as (s' & Hs' & Hgrid & _).
      rewrite handleKeyDown_running by done. eval_keys. destruct run.
      * rewrite (stepDown_blocked_eager _ (with_y pieceO 18)) by done.
        rewrite Hs'. cbn [omap bind]. by eexists.
      * rewrite (stepDown_blocked _ (with_y pieceO 18)) by done.
        by exists s'.
  - intros Hs Ho Hpa Hg Hp. split.
    + intros n Hn.
      rewrite <- (Solo_setPiece_same t) at 1. rewrite Hp.
      by apply (soloTicks_O t n 0).
    + set (t18 := Solo.setPiece (with_y pieceO 18) t).
      rewrite (Solo_gravity_running t18); try done.
      2:{ cbn [t18 Solo.grid Solo.piece Solo.setPiece]. rewrite Hg.
          vm_compute. reflexivity. }
      cbn [t18 Solo.grid Solo.piece Solo.setPiece Solo.rng Solo.nextPiece
           Solo.score Solo.level Solo.started Solo.over Solo.countdown
           Solo.paused].
      rewrite Hg.
      change (py (with_y pieceO 18) =? 0) with false. cbv iota.
      replace (Solo.merge emptyGrid (with_y pieceO 18)) with (Ok restingO)
        by (vm_compute; reflexivity).
      cbn [bind]. cbv zeta.
      destruct (randomPiece_total (Solo.rng t)) as (fresh & rng' & ->).
      cbn [bind]. eexists. split; [done|]. cbn [Solo.grid Solo.piece].
      split; [vm_compute; reflexivity|done].
Qed.

Lemma o_piece_descent_witness :
  softDrops Aaa.InRender 18 (aaaRunning emptyGrid pieceO) =
    Ok (Aaa.setPiece (Some (with_y pieceO 18)) (aaaRunning emptyGrid pieceO))
  /\
  (exists s',
    Aaa.lockPiece
      (Aaa.setPiece (Some (with_y pieceO 18)) (aaaRunning emptyGrid pieceO))
      = Ok s' /\
    Aaa.grid s' = restingO /\ Aaa.piece s' = Some pieceI) /\
  soloTicks 18 (soloRunning emptyGrid pieceO) =
    Ok (Solo.setPiece (with_y pieceO 18) (soloRunning emptyGrid pieceO)).
Proof.
  destruct (o_piece_descent Aaa.InRender (aaaRunning emptyGrid pieceO)
              (soloRunning emptyGrid pieceO)) as (_ & HA & HS).
  destruct (HA eq_refl eq_refl eq_refl eq_refl eq_refl)
    as (Hdrops & _ & Hlock & _).
  destruct (HS eq_refl eq_refl eq_refl eq_refl eq_refl) as (Hticks & _).
  split; [|split].
  - apply (Hdrops 18%nat). lia.
  - apply Hlock.
    + discriminate.
    + exists [0; 1; 2; 3]%nat. unfold allTypes. simpl. solve_Permutation.
  - apply (Hticks 18%nat). lia.
Defined.

(** C6 as stated fails: the 19th move down of the O piece does not
    succeed, it collides with the floor. *)
Lemma o_piece_nineteenth_move :
  Aaa.collides emptyGrid (with_y pieceO 19) = Ok true /\
  Solo.collides emptyGrid (with_y pieceO 19) = Ok true /\
  ~ (forall k, 1 <= k <= 19 ->
       Aaa.collides emptyGrid (with_y pieceO k) = Ok false).
Proof.
  split; [vm_compute; reflexivity|]. split; [vm_compute; reflexivity|].
  intros H. specialize (H 19). vm_compute in H.
  assert (Ok true = Ok false :> outcome bool) as Habs by (apply H; by split).
  discriminate.
Qed.

(** ** Runs on concrete inputs *)

Example rotate_T :
  Solo.rotate [[0;1;0];[1;1;1]] = Ok [[1;0];[1;1];[1;0]] /\
  Aaa.rotate [[0;1;0];[1;1;1]] = Ok [[1;0];[1;1];[1;0]].
Proof. split; reflexivity. Qed.

Example rotate_empty_matrix :
  Solo.rotate [] = TypeError /\ Aaa.rotate [] = TypeError.
Proof. split; reflexivity. Qed.

(** Four quarter turns give every base shape back. *)
Example rotate_four_times :
  Forall (fun sh =>
    (let* a := Aaa.rotate sh in
     let* b := Aaa.rotate a in
     let* c := Aaa.rotate b in
     Aaa.rotate c) = Ok sh) SHAPES.
Proof. repeat constructor. Qed.

Example merge_above_top :
  omap (fun g => take 2 g) (Solo.merge emptyGrid (with_y pieceO (-1))) =
  Ok [[0;0;0;0;1;1;0;0;0;0]; zeroRow].
Proof. reflexivity. Qed.

Example merge_right_of_board :
  Solo.merge emptyGrid (with_x pieceO 9) = Undefined.
Proof. reflexivity. Qed.

Example clearLines_two_rows :
  omap (fun g => cleared (Solo.clearLines g))
    (Solo.merge gapGrid (with_y pieceO 18)) = Ok 2 /\
  omap (fun g => newGrid (Solo.clearLines g))
    (Solo.merge gapGrid (with_y pieceO 18)) = Ok emptyGrid.
Proof. split; reflexivity. Qed.

Example bag_draws :
  omap (fun '(ps, b) => (colorIdx <$> ps, Aaa.bag b))
    (drawMany 9 (Aaa.mkBag [] demoRng)) =
  Ok ([1; 4; 2; 5; 6; 0; 3; 5; 4]%nat, [2; 3; 1; 6; 0]%nat).
Proof. vm_compute. reflexivity. Qed.

Example hardDrop_to_floor :
  omap (fun s => (Aaa.piece s, Aaa.score s))
    (Aaa.hardDrop 30 (aaaRunning gapGrid pieceO)) =
  Ok (Some (with_y pieceO 18), 36).
Proof. vm_compute. reflexivity. Qed.

Example hardDrop_out_of_fuel :
  Aaa.hardDrop 5 (aaaRunning gapGrid pieceO) = OutOfFuel.
Proof. vm_compute. reflexivity. Qed.

Example score_table :
  Aaa.calculateScore 1 0 = 100 /\ Aaa.calculateScore 2 3 = 1200 /\
  Aaa.calculateScore 3 1 = 1000 /\ Aaa.calculateScore 4 0 = 800 /\
  Aaa.calculateScore 5 9 = 0.
Proof. repeat split. Qed.

(** * Further properties *)

(** ** Rotation composes to the identity *)

Lemma rect_dims (m : Shape) R C :
  rect m R C <-> (length <$> m) = replicate R C.
Proof.
  unfold rect. split.
  - intros [Hlen Hall]. subst R. induction Hall as [|r m Hr _ IH]; [done|].
    rewrite fmap_cons. cbn [length replicate]. by rewrite Hr, IH.
  - intros Hd. split.
    + by rewrite <- (length_fmap length), Hd, length_replicate.
    + apply Forall_forall. intros r Hr.
      assert (length r ∈ length <$> m) as Hin by (by apply list_elem_of_fmap_2).
      rewrite Hd in Hin. by apply elem_of_replicate in Hin as [-> _].
Qed.

Lemma cellAt_outside (m : Shape) R C j k :
  rect m R C -> ~ ((j < R)%nat /\ (k < C)%nat) -> cellAt m j k = None.
Proof.
  intros [Hlen Hall] Hout. unfold cellAt.
  destruct (m !! j) as [row|] eqn:Hrow; [|done].
  assert (j < R)%nat by (rewrite <- Hlen; by eapply lookup_lt_Some).
  assert (length row = C) as Hl by (by eapply Forall_lookup_1 in Hall).
  apply lookup_ge_None. lia.
Qed.

Lemma matrix_ext_rect (a b : Shape) R C :
  rect a R C -> rect b R C ->
  (forall j k, (j < R)%nat -> (k < C)%nat -> cellAt a j k = cellAt b j k) ->
  a = b.
Proof.
  intros Ha Hb Hc. apply matrix_ext.
  - apply rect_dims in Ha, Hb. congruence.
  - intros j k. destruct (decide ((j < R)%nat /\ (k < C)%nat)) as [[? ?]|Hout].
    + by apply Hc.
    + by rewrite (cellAt_outside a R C), (cellAt_outside b R C).
Qed.

(** Two quarter turns are a half turn. *)
Lemma rotate_twice (rot : Shape -> outcome Shape) (sh : Shape) R C :
  (forall m R C, (1 <= R)%nat -> rect m R C ->
     exists r, rot m = Ok r /\ (length <$> r) = replicate C R /\
       forall j k, (j < C)%nat -> (k < R)%nat ->
         cellAt r j k = cellAt m (R - 1 - k) j) ->
  (1 <= R)%nat -> (1 <= C)%nat -> rect sh R C ->
  exists r2, (let* a := rot sh in rot a) = Ok r2 /\ rect r2 R C /\
    forall i k, (i < R)%nat -> (k < C)%nat ->
      cellAt r2 i k = cellAt sh (R - 1 - i) (C - 1 - k).
Proof.
  intros Hrot HR HC Hrect.
  destruct (Hrot sh R C HR Hrect) as (r1 & H1 & Hd1 & Hc1).
  apply rect_dims in Hd1.
  destruct (Hrot r1 C R HC Hd1) as (r2 & H2 & Hd2 & Hc2).
  exists r2. rewrite H1. cbn [bind]. split; [done|].
  split; [by apply rect_dims|].
  intros i k Hi Hk. rewrite Hc2, Hc1 by lia. done.
Qed.

(** X1. Four quarter turns give back any matrix with at least one row
    and one column, in both implementations; two give the half turn. *)
Theorem rotate_four_is_identity (sh : Shape) (R C : nat) :
  (1 <= R)%nat -> (1 <= C)%nat -> rect sh R C ->
  soloRotate4 sh = Ok sh /\ aaaRotate4 sh = Ok sh /\
  exists half,
    (let* a := Solo.rotate sh in Solo.rotate a) = Ok half /\
    (let* a := Aaa.rotate sh in Aaa.rotate a) = Ok half /\
    rect half R C /\
    forall i k, (i < R)%nat -> (k < C)%nat ->
      cellAt half i k = cellAt sh (R - 1 - i) (C - 1 - k).
Proof.
  intros HR HC Hrect.
  assert (forall rot : Shape -> outcome Shape,
    (forall m R C, (1 <= R)%nat -> rect m R C ->
       exists r, rot m = Ok r /\ (length <$> r) = replicate C R /\
         forall j k, (j < C)%nat -> (k < R)%nat ->
           cellAt r j k = cellAt m (R - 1 - k) j) ->
    (let* a := rot sh in let* b := rot a in let* c := rot b in rot c)
      = Ok sh) as Hfour.
  { intros rot Hrot.
    destruct (rotate_twice rot sh R C Hrot HR HC Hrect)
      as (r2 & H2 & Hr2 & Hc2).
    destruct (rotate_twice rot r2 R C Hrot HR HC Hr2)
      as (r4 & H4 & Hr4 & Hc4).
    apply bind_Ok in H2 as (r1 & H1 & H2).
    apply bind_Ok in H4 as (r3 & H3 & H4).
    rewrite H1. cbn [bind]. rewrite H2. cbn [bind]. rewrite H3. cbn [bind].
    rewrite H4. f_equal. apply (matrix_ext_rect _ _ R C); [done|done|].
    intros i k Hi Hk. rewrite Hc4, Hc2 by lia.
    f_equal; lia. }
  split; [apply (Hfour Solo.rotate), Solo_rotate_spec|].
  split; [apply (Hfour Aaa.rotate), Aaa_rotate_spec|].
  destruct (rotate_twice Solo.rotate sh R C Solo_rotate_spec HR HC Hrect)
    as (h & Hs & Hrh & Hch).
  destruct (rotate_twice Aaa.rotate sh R C Aaa_rotate_spec HR HC Hrect)
    as (h' & Ha & Hrh' & Hch').
  assert (h' = h) as ->.
  { apply (matrix_ext_rect _ _ R C); [done|done|].
    intros i k Hi Hk. by rewrite Hch, Hch'. }
  by exists h.
Qed.

Lemma rotate_four_is_identity_witness :
  soloRotate4 [[0;1;1];[1;1;0]] = Ok [[0;1;1];[1;1;0]].
Proof.
  apply (rotate_four_is_identity [[0;1;1];[1;1;0]] 2 3).
  - lia.
  - lia.
  - split; [reflexivity | repeat constructor].
Defined.

(** ** Clearing lines, again *)

Lemma zeroRow_not_full : ~ fullRow zeroRow.
Proof. intros H. by inversion H. Qed.

Lemma clearLines_eq (B : Board) :
  length B = ROWS ->
  Solo.clearLines B =
    mkCleared
      (replicate (length (filter fullRow B)) zeroRow ++
       filter (fun r => ~ fullRow r) B)
      (Z.of_nat (length (filter fullRow B))).
Proof.
  intros Hlen. pose proof (length_filter_split B) as Hsplit.
  unfold Solo.clearLines. rewrite filter_hasEmpty.
  rewrite unshiftZeros_spec by apply Nat.le_sub_l.
  replace (ROWS - length (filter (fun r => ~ fullRow r) B))%nat
    with (length (filter fullRow B)) by lia.
  f_equal. lia.
Qed.

(** X2. On a board of [ROWS] rows, [clearLines] leaves no full row
    behind, so that clearing again changes nothing and reports 0; the
    count it reports lies between 0 and [ROWS], and it is [ROWS] less
    the number of rows that survive. *)
Theorem clearLines_settles (B : Board) :
  length B = ROWS ->
  Forall (fun r => ~ fullRow r) (newGrid (Solo.clearLines B)) /\
  Solo.clearLines (newGrid (Solo.clearLines B)) =
    mkCleared (newGrid (Solo.clearLines B)) 0 /\
  0 <= cleared (Solo.clearLines B) <= Z.of_nat ROWS /\
  cleared (Solo.clearLines B) =
    Z.of_nat ROWS - Z.of_nat (length (filter (fun r => ~ fullRow r) B)).
Proof.
  intros Hlen. pose proof (length_filter_split B) as Hsplit.
  rewrite (clearLines_eq B Hlen). cbn [newGrid cleared].
  set (k := length (filter fullRow B)) in *.
  set (kept := filter (fun r => ~ fullRow r) B) in *.
  assert (Forall (fun r => ~ fullRow r) (replicate k zeroRow ++ kept)) as Hnone.
  { apply Forall_app. split.
    - apply Forall_replicate, zeroRow_not_full.
    - apply Forall_forall. by intros r [Hr _]%list_elem_of_filter. }
  split; [done|]. split; [|lia].
  assert (length (replicate k zeroRow ++ kept) = ROWS) as Hlen'.
  { rewrite length_app, length_replicate. lia. }
  rewrite (clearLines_eq _ Hlen').
  assert (filter (fun r => ~ fullRow r) (replicate k zeroRow ++ kept)
          = replicate k zeroRow ++ kept) as Hsame.
  { clear -Hnone. induction Hnone as [|r l Hr _ IH]; [done|].
    rewrite filter_cons_True by done. by rewrite IH. }
  pose proof (length_filter_split (replicate k zeroRow ++ kept)) as Hs2.
  rewrite Hsame in *.
  assert (length (filter fullRow (replicate k zeroRow ++ kept)) = 0)%nat
    as -> by lia.
  done.
Qed.

Lemma clearLines_settles_witness :
  Solo.clearLines (newGrid (Solo.clearLines gapGrid)) =
    mkCleared (newGrid (Solo.clearLines gapGrid)) 0.
Proof. apply (clearLines_settles gapGrid). reflexivity. Defined.

(** ** The two [collides] are one function *)

Lemma some_from_ext {A} (f f' : A -> nat -> outcome bool) i l :
  (forall a k, f a k = f' a k) -> some_from f i l = some_from f' i l.
Proof.
  intros Hff. revert i. induction l as [|a l IH]; intros i; [done|].
  simpl. rewrite Hff. by rewrite IH.
Qed.

(** X3. The two implementations of [collides] test the bounds in a
    different order but give the same answer on every board and piece,
    the thrown [TypeError] on a board with too few rows included. *)
Theorem collides_same (g : Board) (p : Piece) :
  Solo.collides g p = Aaa.collides g p.
Proof.
  unfold Solo.collides, Aaa.collides, some.
  apply some_from_ext. intros row dy. apply some_from_ext. intros v dx.
  cbv zeta. destruct (truthy v); [|done]. cbn [negb].
  destruct (Z.of_nat ROWS <=? py p + Z.of_nat dy);
    destruct (px p + Z.of_nat dx <? 0);
    destruct (Z.of_nat COLS <=? px p + Z.of_nat dx); done.
Qed.

(** ** A piece that passed [collides] can be merged *)

Lemma free_piece_fits (g : Board) (p : Piece) :
  wf_board g -> Solo.collides g p = Ok false -> fits g p.
Proof.
  intros Hwf Hfree dy dx Hocc Hy.
  destruct (Solo_collides_spec g p (proj1 Hwf)) as (b & Hb & Hiff).
  rewrite Hfree in Hb. injection Hb as <-.
  assert (~ hits g p dy dx) as Hno.
  { intros Hh. assert (false = true) by (apply Hiff; by exists dy, dx). done. }
  unfold hits in Hno.
  assert (0 <= px p + Z.of_nat dx < Z.of_nat COLS) as Hx by lia.
  assert (py p + Z.of_nat dy < Z.of_nat ROWS) as Hr by lia.
  split; [lia|].
  apply (rect_cellAt g ROWS COLS); [done|lia|lia].
Qed.

Lemma cellAt_filled (g : Board) (r c : nat) v :
  cellAt g r c = Some v -> v <> 0 -> filled g (Z.of_nat r) (Z.of_nat c).
Proof.
  unfold cellAt, filled. intros Hc Hv. rewrite !Nat2Z.id.
  destruct (g !! r) as [row|]; [|done]. by exists row, v.
Qed.

(** X4. On a board of [ROWS] rows of [COLS] cells, a piece for which
    [collides] answered [false] is merged without an exception and
    without leaving the board's shape; no non-empty cell of the board
    is overwritten; and afterwards the same piece, if it has an
    occupied cell at a row [>= 0], collides with the merged board. *)
Theorem free_piece_merges (g : Board) (p : Piece) :
  wf_board g -> Solo.collides g p = Ok false ->
  exists ng,
    Solo.merge g p = Ok ng /\ wf_board ng /\
    (forall r c v, cellAt g r c = Some v -> v <> 0 ->
       cellAt ng r c = Some v) /\
    (forall dy dx, occupied p dy dx -> 0 <= py p + Z.of_nat dy ->
       Solo.collides ng p = Ok true).
Proof.
  intros Hwf Hfree. pose proof (free_piece_fits g p Hwf Hfree) as Hfit.
  destruct (merge_spec g p Hfit) as (ng & Hm & Hd & Hcov & Hrest).
  assert (wf_board ng) as Hwf'.
  { apply (rect_dims ng ROWS COLS). rewrite Hd.
    by apply (rect_dims g ROWS COLS). }
  exists ng. split; [done|]. split; [done|]. split.
  - intros r c v Hc Hv. rewrite Hrest; [done|].
    intros dy dx (Hocc & Hr & Hx).
    destruct (Solo_collides_spec g p (proj1 Hwf)) as (b & Hb & Hiff).
    rewrite Hfree in Hb. injection Hb as <-.
    assert (false = true); [|done].
    apply Hiff. exists dy, dx. split; [done|].
    unfold hits. right. right. right. rewrite Hr, Hx.
    split; [lia|]. by apply (cellAt_filled g r c v).
  - intros dy dx Hocc Hy.
    destruct (Hfit dy dx Hocc Hy) as [Hx _].
    destruct (Solo_collides_spec ng p (proj1 Hwf')) as (b & Hb & Hiff).
    rewrite Hb. f_equal. apply Hiff. exists dy, dx. split; [done|].
    unfold hits. right. right. right. split; [done|].
    set (r := Z.to_nat (py p + Z.of_nat dy)).
    set (c := Z.to_nat (px p + Z.of_nat dx)).
    replace (py p + Z.of_nat dy) with (Z.of_nat r) by (subst r; lia).
    replace (px p + Z.of_nat dx) with (Z.of_nat c) by (subst c; lia).
    apply (cellAt_filled ng r c (Z.of_nat (colorIdx p) + 1)); [|lia].
    apply (Hcov r c dy dx). split; [done|]. subst r c. lia.
Qed.

Lemma free_piece_merges_witness :
  exists ng,
    Solo.merge gapGrid (with_y pieceO 18) = Ok ng /\ wf_board ng /\
    (forall r c v, cellAt gapGrid r c = Some v -> v <> 0 ->
       cellAt ng r c = Some v) /\
    (forall dy dx, occupied (with_y pieceO 18) dy dx ->
       0 <= py (with_y pieceO 18) + Z.of_nat dy ->
       Solo.collides ng (with_y pieceO 18) = Ok true).
Proof.
  apply (free_piece_merges gapGrid (with_y pieceO 18)).
  - split; [reflexivity | repeat constructor].
  - vm_compute. reflexivity.
Defined.

(** ** The ghost piece and the hard drop *)

Lemma Aaa_setScore_same (s : Aaa.Session) :
  Aaa.setScore (Aaa.score s) s = s.
Proof. by destruct s. Qed.

(** X5. For a piece with an occupied cell on a board of [ROWS] rows,
    the hard drop puts the active piece exactly where the ghost piece
    is drawn, some rows further down in the same column, and adds two
    points per row dropped; the ghost of the ghost is the ghost, and a
    second hard drop changes nothing.  The Solo hard-drop button lands
    the piece on the same spot. *)
Theorem hard_drop_lands_on_ghost (fuel : nat) (s : Aaa.Session) (p : Piece)
    (dy dx : nat) :
  length (Aaa.grid s) = ROWS -> Aaa.piece s = Some p -> occupied p dy dx ->
  (Z.to_nat (Z.of_nat ROWS - py p) < fuel)%nat ->
  exists q,
    Aaa.getGhostPiece fuel p (Aaa.grid s) = Ok q /\
    q = with_y p (py q) /\ py p <= py q /\
    Aaa.hardDrop fuel s =
      Ok (Aaa.setScore (Aaa.score s + (py q - py p) * 2)
            (Aaa.setPiece (Some q) s)) /\
    Aaa.getGhostPiece fuel q (Aaa.grid s) = Ok q /\
    (forall s', Aaa.hardDrop fuel s = Ok s' -> Aaa.hardDrop fuel s' = Ok s') /\
    (forall t : Solo.Session,
       Solo.grid t = Aaa.grid s -> Solo.piece t = p ->
       Solo.hardDrop fuel t = Ok (Solo.setPiece q t)).
Proof.
  intros Hlen Hp Hocc Hfuel.
  destruct (ghostLoop_exits (Aaa.grid s) dy dx fuel p Hlen Hocc Hfuel)
    as (n & Hn & Hloop & Hhit & _).
  set (q := with_y p (py p + n)) in *.
  assert (forall d, Aaa.hardDropLoop fuel (Aaa.grid s) q d = Ok (q, d)) as Hq.
  { intros d. destruct fuel as [|fuel]; [lia|]. cbn [Aaa.hardDropLoop].
    unfold q at 1 2. rewrite with_y_with_y. cbn [py with_y].
    by rewrite Hhit. }
  exists q. split; [done|].
  apply conj; [reflexivity|]. apply conj; [cbn; lia|].
  assert (Aaa.hardDrop fuel s =
    Ok (Aaa.setScore (Aaa.score s + (py q - py p) * 2)
          (Aaa.setPiece (Some q) s))) as Hdrop.
  { unfold Aaa.hardDrop. rewrite Hp, hardDropLoop_ghostLoop, Hloop.
    cbn [omap bind]. by rewrite Z.add_0_l. }
  split; [done|]. split; [|split].
  - unfold Aaa.getGhostPiece.
    specialize (Hq 0). rewrite hardDropLoop_ghostLoop in Hq.
    destruct (Aaa.ghostLoop fuel (Aaa.grid s) q) as [q'| | |]; try done.
    cbn [omap bind] in Hq. by injection Hq as -> _.
  - intros s' Hs'. rewrite Hdrop in Hs'. injection Hs' as <-.
    unfold Aaa.hardDrop. cbn [Aaa.piece Aaa.grid Aaa.setScore Aaa.setPiece].
    rewrite Hq. cbn [bind]. rewrite Z.add_0_r. done.
  - intros t Hg <-. unfold Solo.hardDrop.
    rewrite Hg, dropLoop_ghostLoop, Hloop by done. done.
Qed.

Lemma hard_drop_lands_on_ghost_witness :
  exists q,
    Aaa.getGhostPiece 30 pieceO gapGrid = Ok q /\
    Aaa.hardDrop 30 (aaaRunning gapGrid pieceO) =
      Ok (Aaa.setScore (0 + (py q - 0) * 2)
            (Aaa.setPiece (Some q) (aaaRunning gapGrid pieceO))).
Proof.
  destruct (hard_drop_lands_on_ghost 30 (aaaRunning gapGrid pieceO) pieceO
              0 0) as (q & Hghost & _ & _ & Hdrop & _).
  - reflexivity.
  - reflexivity.
  - exists [1; 1], 1. done.
  - vm_compute. lia.
  - exists q. by split.
Defined.

(** ** The period of the gravity interval *)

(** X6. For levels [0 <= level <= level'] the period of the gravity
    interval lies between 100 and 500 ms and does not grow with the
    level; it reaches its floor of 100 ms exactly from level 20 on in
    the Solo ruleset and from level 14 on in the AAA ruleset, which is
    never the slower of the two. *)
Theorem gravity_period (level level' : Z) :
  0 <= level <= level' ->
  100 <= Solo.speed level' <= Solo.speed level /\ Solo.speed level <= 500 /\
  100 <= Aaa.speed level' <= Aaa.speed level /\ Aaa.speed level <= 500 /\
  (Solo.speed level = 100 <-> 20 <= level) /\
  (Aaa.speed level = 100 <-> 14 <= level) /\
  Aaa.speed level <= Solo.speed level.
Proof.
  intros H. unfold Solo.speed, Aaa.speed, START_SPEED.
  repeat split; lia.
Qed.

Lemma gravity_period_witness :
  Solo.speed 3 = 440 /\ Aaa.speed 3 = 410 /\ Aaa.speed 13 = 110 /\
  (Aaa.speed 14 = 100 <-> 14 <= 14).
Proof.
  destruct (gravity_period 14 14) as (_ & _ & _ & _ & _ & H & _); [lia|].
  repeat split; try reflexivity; apply H.
Defined.

(** ** The bag over several cycles *)

Lemma drawMany_app n m b :
  drawMany (n + m) b =
    let* (ps1, b1) := drawMany n b in
    let* (ps2, b2) := drawMany m b1 in
    Ok (ps1 ++ ps2, b2).
Proof.
  revert b. induction n as [|n IH]; intros b.
  - cbn [drawMany Nat.add bind].
    by destruct (drawMany m b) as [[ps2 b2]| | |].
  - cbn [drawMany Nat.add].
    destruct (Aaa.next b) as [[p b1]| | |]; try done. cbn [bind].
    rewrite IH.
    destruct (drawMany n b1) as [[ps1 b2]| | |]; try done. cbn [bind].
    by destruct (drawMany m b2) as [[ps2 b3]| | |].
Qed.

Lemma draw_one_cycle b :
  Aaa.bag b ≡ₚ allTypes \/ Aaa.bag b = [] ->
  exists ps b', drawMany 7 b = Ok (ps, b') /\
    colorIdx <$> ps ≡ₚ allTypes /\ Aaa.bag b' = [].
Proof.
  assert (forall b1, Aaa.bag b1 ≡ₚ allTypes ->
    exists ps b', drawMany 7 b1 = Ok (ps, b') /\
      colorIdx <$> ps ≡ₚ allTypes /\ Aaa.bag b' = []) as Hfull.
  { intros [l r1] Hp. simpl in Hp.
    destruct (drawMany_all l r1 (perm_allTypes_bound l Hp))
      as (ps & Hps & Hcols).
    rewrite (Permutation_length Hp) in Hps.
    exists ps, (Aaa.mkBag [] r1). split; [done|]. split; [|done].
    by rewrite Hcols, reverse_Permutation. }
  intros [Hp|Hempty]; [by apply Hfull|].
  destruct (next_empty b Hempty) as (b1 & _ & Hp & Heq).
  destruct (Hfull b1 Hp) as (ps & b' & Hdraw & Hres).
  exists ps, b'. split; [|done].
  cbn [drawMany] in *. by rewrite Heq.
Qed.

(** X7. From a refill boundary, [7 * k] draws succeed for every [k] and
    fall into [k] consecutive runs of seven, each of which holds every
    type exactly once; the bag is empty again at the end. *)
Theorem bag_many_cycles (k : nat) (b : Aaa.PieceBag) :
  Aaa.bag b ≡ₚ allTypes \/ Aaa.bag b = [] ->
  exists ps b' runs,
    drawMany (7 * k) b = Ok (ps, b') /\ Aaa.bag b' = match k with
                                                     | O => Aaa.bag b
                                                     | S _ => []
                                                     end /\
    colorIdx <$> ps = concat runs /\ length runs = k /\
    Forall (fun run => run ≡ₚ allTypes) runs.
Proof.
  revert b. induction k as [|k IH]; intros b Hb.
  - exists [], b, []. by rewrite Nat.mul_0_r.
  - replace (7 * S k)%nat with (7 + 7 * k)%nat by lia.
    rewrite drawMany_app.
    destruct (draw_one_cycle b Hb) as (ps1 & b1 & -> & Hp1 & Hb1).
    cbn [bind].
    destruct (IH b1 (or_intror Hb1)) as (ps2 & b2 & runs & -> & Hb2 & Hc & Hl & Hall).
    cbn [bind]. exists (ps1 ++ ps2), b2, ((colorIdx <$> ps1) :: runs).
    split; [done|]. split.
    { destruct k; [by rewrite Hb2|done]. }
    split; [by rewrite fmap_app, Hc|]. split; [by rewrite <- Hl|].
    by constructor.
Qed.

Lemma bag_many_cycles_witness :
  exists ps b' runs,
    drawMany (7 * 3) (Aaa.mkBag [] demoRng) = Ok (ps, b') /\
    Aaa.bag b' = [] /\
    colorIdx <$> ps = concat runs /\ length runs = 3%nat /\
    Forall (fun run => run ≡ₚ allTypes) runs.
Proof.
  apply (bag_many_cycles 3 (Aaa.mkBag [] demoRng)). by right.
Defined.

(** ** What every state of a game satisfies *)

Lemma goodPiece_centred (p : Piece) :
  goodPiece p -> centreX (shape p) = Ok (px p) -> py p = 0 -> inBounds p.
Proof.
  intros (_ & (R & C & HR & HC & Hlen & Hall) & _) Hx Hy.
  destruct (shape p) as [|r0 rest] eqn:Hs; [done|].
  injection Hx as Hx.
  assert (length r0 = C) as Hr0 by (by inversion Hall).
  split; [lia|]. intros dy dx (row & v & Hrow & Hv & _).
  rewrite Hs in Hrow.
  assert (dy < R)%nat by (rewrite <- Hlen; by eapply lookup_lt_Some).
  assert (length row = C) as Hl by (by eapply Forall_lookup_1 in Hall).
  assert (dx < C)%nat by (rewrite <- Hl; by eapply lookup_lt_Some).
  rewrite Hr0 in Hx. unfold COLS, ROWS in *.
  remember (px p) as x eqn:Ex. clear Ex.
  assert (C = 1 \/ C = 2 \/ C = 3 \/ C = 4)%nat as HCs by lia.
  destruct HCs as [-> | [-> | [-> | ->]]]; vm_compute in Hx; lia.
Qed.

Lemma spawned_good (p : Piece) : spawned p -> goodPiece p /\ inBounds p.
Proof.
  intros (Hsh & Hx & Hy).
  assert (goodPiece p) as Hgood.
  { unfold goodPiece.
    assert (colorIdx p < 7)%nat as Hlt by (by apply lookup_lt_Some in Hsh).
    split; [done|].
    assert (exists dy dx, occupied p dy dx) as Hocc.
    { unfold occupied.
      destruct (colorIdx p) as [|[|[|[|[|[|[|c]]]]]]]; [..|lia];
        simpl in Hsh; injection Hsh as <-.
      - by exists 0%nat, 0%nat, [1; 1], 1.
      - by exists 0%nat, 0%nat, [1; 1; 1; 1], 1.
      - by exists 1%nat, 0%nat, [1; 1; 1], 1.
      - by exists 1%nat, 0%nat, [1; 1; 0], 1.
      - by exists 0%nat, 0%nat, [1; 1; 0], 1.
      - by exists 0%nat, 0%nat, [1; 0; 0], 1.
      - by exists 1%nat, 0%nat, [1; 1; 1], 1. }
    split; [|done].
    destruct (colorIdx p) as [|[|[|[|[|[|[|c]]]]]]]; [..|lia];
      simpl in Hsh; injection Hsh as <-.
    - exists 2%nat, 2%nat. repeat split; try lia; repeat constructor.
    - exists 1%nat, 4%nat. repeat split; try lia; repeat constructor.
    - exists 2%nat, 3%nat. repeat split; try lia; repeat constructor.
    - exists 2%nat, 3%nat. repeat split; try lia; repeat constructor.
    - exists 2%nat, 3%nat. repeat split; try lia; repeat constructor.
    - exists 2%nat, 3%nat. repeat split; try lia; repeat constructor.
    - exists 2%nat, 3%nat. repeat split; try lia; repeat constructor. }
  split; [done|]. by apply goodPiece_centred.
Qed.

Lemma next_spawned b p b' : Aaa.next b = Ok (p, b') -> spawned p.
Proof.
  unfold Aaa.next. intros H. apply bind_Ok in H as (b1 & _ & H).
  destruct (last (Aaa.bag b1)) as [c|]; [|done].
  destruct (SHAPES !! c) as [sh|] eqn:Hsh; [|done].
  apply bind_Ok in H as (x & Hx & H). injection H as <- _.
  by split.
Qed.

Lemma randomPiece_spawned r p r' : Solo.randomPiece r = Ok (p, r') -> spawned p.
Proof.
  unfold Solo.randomPiece. destruct (randomBelow (length SHAPES) r) as [c r1].
  destruct (SHAPES !! c) as [sh|] eqn:Hsh; [|done]. intros H.
  apply bind_Ok in H as (x & Hx & H). injection H as <- _.
  by split.
Qed.

Lemma free_inBounds (g : Board) (p : Piece) :
  length g = ROWS -> Aaa.collides g p = Ok false -> 0 <= py p -> inBounds p.
Proof.
  intros Hlen Hfree Hy. split; [done|]. intros dy dx Hocc.
  destruct (Aaa_collides_spec g p Hlen) as (b & Hb & Hiff).
  rewrite Hfree in Hb. injection Hb as <-.
  assert (~ hits g p dy dx) as Hno.
  { intros Hh. assert (false = true) by (apply Hiff; by exists dy, dx). done. }
  unfold hits in Hno. lia.
Qed.

Lemma inBounds_fits (g : Board) (p : Piece) :
  wf_board g -> inBounds p -> fits g p.
Proof.
  intros Hwf [Hy Hin] dy dx Hocc _. destruct (Hin dy dx Hocc) as [Hx Hr].
  split; [lia|]. apply (rect_cellAt g ROWS COLS); [done|lia|lia].
Qed.

Lemma storeCell_palette (ng ng' : Board) r c v :
  palette ng -> 0 <= v <= 7 -> storeCell ng r c v = Ok ng' -> palette ng'.
Proof.
  unfold storeCell, palette. intros Hp Hv H. destruct (r <? 0); [done|].
  destruct (ng !! Z.to_nat r) as [row|] eqn:Hrow; [|done].
  destruct (_ && _); [|done]. injection H as <-.
  apply Forall_insert; [done|]. apply Forall_insert; [|done].
  by eapply Forall_lookup_1 in Hp.
Qed.

(** Merging a piece that lies inside the board keeps the board's shape
    and palette. *)
Lemma merge_keeps_board (g : Board) (p : Piece) :
  wf_board g -> palette g -> inBounds p -> (colorIdx p < 7)%nat ->
  exists ng, Solo.merge g p = Ok ng /\ wf_board ng /\ palette ng.
Proof.
  intros Hwf Hpal Hin Hc.
  destruct (merge_spec g p (inBounds_fits g p Hwf Hin)) as (ng & Hm & Hd & _).
  exists ng. split; [done|]. split.
  - apply (rect_dims ng ROWS COLS). rewrite Hd.
    by apply (rect_dims g ROWS COLS).
  - unfold Solo.merge, forEach in Hm.
    eapply (forEach_from_pres palette); [|exact Hpal|exact Hm].
    intros row dy s0 s1 Hs0 H1. simpl in H1.
    eapply (forEach_from_pres palette); [|exact Hs0|exact H1].
    intros v dx s2 s3 Hs2 H3. simpl in H3.
    destruct (truthy v && (0 <=? py p + Z.of_nat dy)).
    + eapply storeCell_palette; [exact Hs2| |exact H3]. lia.
    + by injection H3 as <-.
Qed.

Lemma clearLines_keeps_board (g : Board) :
  wf_board g -> palette g ->
  wf_board (newGrid (Solo.clearLines g)) /\
  palette (newGrid (Solo.clearLines g)) /\
  0 <= cleared (Solo.clearLines g).
Proof.
  intros [Hlen Hcols] Hpal. rewrite (clearLines_eq g Hlen).
  cbn [newGrid cleared]. pose proof (length_filter_split g) as Hsplit.
  split; [split|split].
  - rewrite length_app, length_replicate. lia.
  - apply Forall_app. split.
    + apply Forall_replicate, length_replicate.
    + apply Forall_forall. intros r [_ Hr]%list_elem_of_filter.
      by eapply Forall_forall in Hcols.
  - apply Forall_app. split.
    + apply Forall_replicate. apply Forall_replicate. lia.
    + apply Forall_forall. intros r [_ Hr]%list_elem_of_filter.
      by eapply Forall_forall in Hpal.
  - lia.
Qed.

Lemma clearLines_settled (g : Board) :
  length g = ROWS ->
  Forall (fun r => ~ fullRow r) (newGrid (Solo.clearLines g)).
Proof.
  intros Hlen. rewrite (clearLines_eq g Hlen). cbn [newGrid].
  apply Forall_app. split.
  - apply Forall_replicate, zeroRow_not_full.
  - apply Forall_forall. by intros r [Hr _]%list_elem_of_filter.
Qed.

Lemma emptyGrid_settled : Forall (fun r => ~ fullRow r) emptyGrid.
Proof. apply Forall_replicate, zeroRow_not_full. Qed.

Lemma goodPiece_same (p q : Piece) :
  shape q = shape p -> colorIdx q = colorIdx p -> goodPiece p -> goodPiece q.
Proof. unfold goodPiece, occupied. by intros -> ->. Qed.

(** A quarter turn of a sound piece succeeds, in both rulesets with
    the same matrix, and gives a sound piece. *)
Lemma rotate_good (p : Piece) :
  goodPiece p ->
  exists rot, Aaa.rotate (shape p) = Ok rot /\ Solo.rotate (shape p) = Ok rot /\
    goodPiece (with_shape p rot).
Proof.
  intros (Hc & (R & C & HR & HC & Hrect) & (dy & dx & row & v & Hrow & Hv & Hnz)).
  destruct (Aaa_rotate_spec (shape p) R C) as (rot & Hrot & Hd & Hcells);
    [lia|done|].
  destruct (Solo_rotate_spec (shape p) R C) as (rot' & Hrot' & Hd' & Hcells');
    [lia|done|].
  assert (rot' = rot) as ->.
  { apply (matrix_ext_rect _ _ C R); [by apply rect_dims|by apply rect_dims|].
    intros j k Hj Hk. by rewrite Hcells, Hcells'. }
  exists rot. split; [done|]. split; [done|].
  assert (dy < R)%nat as Hdy.
  { destruct Hrect as [<- _]. by eapply lookup_lt_Some. }
  assert (dx < C)%nat as Hdx.
  { destruct Hrect as [_ Hall]. eapply Forall_lookup_1 in Hall; [|exact Hrow].
    rewrite <- Hall. by eapply lookup_lt_Some. }
  split; [done|]. split.
  - exists C, R. split; [done|]. split; [done|]. by apply rect_dims.
  - exists dx, (R - 1 - dy)%nat.
    specialize (Hcells dx (R - 1 - dy)%nat Hdx ltac:(lia)).
    replace (R - 1 - (R - 1 - dy))%nat with dy in Hcells by lia.
    unfold cellAt in Hcells. rewrite Hrow, Hv in Hcells.
    unfold occupied. cbn [shape with_shape].
    destruct (rot !! dx) as [r|]; [|done]. by exists r, v.
Qed.

Lemma aaa_le_refl s : aaa_le s s.
Proof. unfold aaa_le. lia. Qed.

Lemma aaa_sound_setPiece (s : Aaa.Session) q :
  aaa_sound s -> goodPiece q -> inBounds q ->
  aaa_sound (Aaa.setPiece (Some q) s).
Proof.
  intros [] Hg Hb. constructor; try done. by exists q.
Qed.

Lemma aaa_sound_setPaused (s : Aaa.Session) b :
  aaa_sound s -> aaa_sound (Aaa.setPaused b s).
Proof. by intros []. Qed.

(** A move to the side or one row down of a piece inside the board,
    when it is free of collision, is inside the board. *)
Lemma moved_inBounds (g : Board) (p q : Piece) :
  wf_board g -> inBounds p -> py p <= py q ->
  Aaa.collides g q = Ok false -> inBounds q.
Proof.
  intros [Hlen _] [Hy _] Hle Hfree. apply (free_inBounds g); [done|done|lia].
Qed.

Lemma arrowLeft_sound (s : Aaa.Session) :
  aaa_sound s ->
  exists s', Aaa.arrowLeft s = Ok s' /\ aaa_sound s' /\ aaa_le s s'.
Proof.
  intros Hs. destruct (aaa_piece s Hs) as (p & Hp & Hg & Hb).
  unfold Aaa.arrowLeft. rewrite Hp.
  destruct (Aaa_collides_spec (Aaa.grid s) (with_x p (px p - 1)))
    as (b & Hcol & _); [apply (aaa_grid_wf s Hs)|].
  cbv zeta. rewrite Hcol. cbn [bind]. eexists. split; [reflexivity|].
  split; [|unfold aaa_le; destruct b; cbn; lia].
  destruct b.
  - by apply aaa_sound_setPiece.
  - apply aaa_sound_setPiece; [done|by eapply goodPiece_same|].
    eapply moved_inBounds; [apply (aaa_grid_wf s Hs)|exact Hb| |exact Hcol].
    cbn. lia.
Qed.

Lemma arrowRight_sound (s : Aaa.Session) :
  aaa_sound s ->
  exists s', Aaa.arrowRight s = Ok s' /\ aaa_sound s' /\ aaa_le s s'.
Proof.
  intros Hs. destruct (aaa_piece s Hs) as (p & Hp & Hg & Hb).
  unfold Aaa.arrowRight. rewrite Hp.
  destruct (Aaa_collides_spec (Aaa.grid s) (with_x p (px p + 1)))
    as (b & Hcol & _); [apply (aaa_grid_wf s Hs)|].
  cbv zeta. rewrite Hcol. cbn [bind]. eexists. split; [reflexivity|].
  split; [|unfold aaa_le; destruct b; cbn; lia].
  destruct b.
  - by apply aaa_sound_setPiece.
  - apply aaa_sound_setPiece; [done|by eapply goodPiece_same|].
    eapply moved_inBounds; [apply (aaa_grid_wf s Hs)|exact Hb| |exact Hcol].
    cbn. lia.
Qed.

Lemma rotatePiece_sound (s : Aaa.Session) :
  aaa_sound s ->
  exists s', Aaa.rotatePiece s = Ok s' /\ aaa_sound s' /\ aaa_le s s'.
Proof.
  intros Hs. destruct (aaa_piece s Hs) as (p & Hp & Hg & Hb).
  unfold Aaa.rotatePiece. rewrite Hp.
  destruct (rotate_good p Hg) as (rot & Hrot & _ & Hg').
  rewrite Hrot. cbn [bind]. cbv zeta.
  destruct (Aaa_collides_spec (Aaa.grid s) (with_shape p rot))
    as (b & Hcol & _); [apply (aaa_grid_wf s Hs)|].
  rewrite Hcol. cbn [bind]. destruct b; cbn [negb].
  - exists s. split; [done|]. split; [done|apply aaa_le_refl].
  - eexists. split; [reflexivity|]. split; [|unfold aaa_le; cbn; lia].
    apply aaa_sound_setPiece; [done|done|].
    eapply moved_inBounds; [apply (aaa_grid_wf s Hs)|exact Hb| |exact Hcol].
    cbn. lia.
Qed.

Lemma recentred_good (q : Piece) :
  goodPiece q ->
  exists q', Aaa.recentred q = Ok q' /\ goodPiece q' /\ inBounds q'.
Proof.
  intros Hg. unfold Aaa.recentred. pose proof Hg as Hg0.
  destruct Hg as (Hc & (R & C & HR & HC & Hrect) & Hocc).
  destruct (shape q) as [|r0 rest] eqn:Hs.
  { destruct Hrect as [Hl _]. simpl in Hl. lia. }
  cbn [centreX bind]. eexists. split; [reflexivity|].
  assert (goodPiece (mkPiece (r0 :: rest)
            ((Z.of_nat COLS - Z.of_nat (length r0)) / 2) 0 (colorIdx q))) as Hg'.
  { by apply (goodPiece_same q); [by rewrite Hs|done|]. }
  split; [done|]. by apply goodPiece_centred.
Qed.

Lemma emptyGrid_board : wf_board emptyGrid /\ palette emptyGrid.
Proof.
  split; [split|].
  - apply length_replicate.
  - apply Forall_replicate, length_replicate.
  - apply Forall_replicate, Forall_replicate. lia.
Qed.

(** Locking the piece of a sound state gives a sound state, and no
    counter goes down. *)
Lemma lockPiece_sound (s : Aaa.Session) :
  aaa_sound s ->
  exists s', Aaa.lockPiece s = Ok s' /\ aaa_sound s' /\ aaa_le s s'.
Proof.
  intros Hs. destruct (aaa_piece s Hs) as (p & Hp & Hg & Hb).
  destruct (merge_keeps_board (Aaa.grid s) p) as (merged & Hm & Hwf & Hpal);
    [apply (aaa_grid_wf s Hs)|apply (aaa_grid_palette s Hs)|done|apply Hg|].
  destruct (clearLines_keeps_board merged Hwf Hpal) as (Hwf' & Hpal' & Hcl).
  pose proof (clearLines_settled merged (proj1 Hwf)) as Hset.
  destruct (next_total _ (aaa_bag s Hs)) as (fresh & bag' & Hnext & Hbag').
  pose proof (next_spawned _ _ _ Hnext) as Hfresh.
  destruct (aaa_queue s Hs) as [Hql Hqs].
  destruct (Aaa.nextPieces s) as [|newPiece rest] eqn:Hq; [done|].
  apply Forall_cons in Hqs as [Hnew Hrest].
  destruct (Aaa_collides_spec (newGrid (Solo.clearLines merged)) newPiece)
    as (hit & Hhit & _); [apply Hwf'|].
  destruct (aaa_counts s Hs) as (Hsc & Hli & Hle).
  unfold Aaa.lockPiece. rewrite Hp, Aaa_mergedGrid_eq, Hm. cbn [bind].
  rewrite Hnext. cbn [bind]. rewrite Hq.
  change Aaa.clearLines with Solo.clearLines.
  remember (Solo.clearLines merged) as r eqn:Er. clear Er. cbv zeta.
  rewrite Hhit. cbn [bind]. eexists. split; [reflexivity|].
  assert (0 <= Aaa.calculateScore (cleared r) (Aaa.level s)) as Hpts.
  { rewrite calculateScore_tier. apply Z.mul_nonneg_nonneg; [|lia].
    unfold tierTable. repeat case_match; lia. }
  split.
  - constructor; cbn.
    + done.
    + done.
    + exists newPiece. split; [done|]. by apply spawned_good.
    + split.
      * rewrite length_app. simpl in *. lia.
      * apply Forall_app. split; [done|]. by apply Forall_singleton.
    + apply (aaa_hold s Hs).
    + done.
    + destruct (0 <? cleared r); lia.
    + done.
  - unfold aaa_le. cbn. destruct (0 <? cleared r); lia.
Qed.

Lemma stepDown_sound run (s : Aaa.Session) :
  aaa_sound s ->
  exists s', Aaa.stepDown run s = Ok s' /\ aaa_sound s' /\ aaa_le s s'.
Proof.
  intros Hs. destruct (aaa_piece s Hs) as (p & Hp & Hg & Hb).
  destruct (Aaa_collides_spec (Aaa.grid s) (with_y p (py p + 1)))
    as (b & Hcol & _); [apply (aaa_grid_wf s Hs)|].
  destruct b.
  - destruct (lockPiece_sound s Hs) as (s1 & H1 & Hs1 & Hle).
    destruct run.
    + rewrite (stepDown_blocked_eager s p Hp Hcol), H1. cbn [omap bind].
      eexists. split; [reflexivity|].
      split; [by apply aaa_sound_setPiece|].
      unfold aaa_le in *. by cbn.
    + rewrite (stepDown_blocked s p Hp Hcol). by exists s1.
  - rewrite (stepDown_free run s p Hp Hcol). eexists. split; [reflexivity|].
    split; [|unfold aaa_le; cbn; lia].
    apply aaa_sound_setPiece; [done|by eapply goodPiece_same|].
    eapply moved_inBounds; [apply (aaa_grid_wf s Hs)|exact Hb| |exact Hcol].
    cbn. lia.
Qed.

(** The descent loops end inside the board when they start there with
    more fuel than the board has rows. *)
Lemma ghostLoop_sound (g : Board) (p : Piece) fuel :
  wf_board g -> goodPiece p -> inBounds p -> (ROWS < fuel)%nat ->
  exists q, Aaa.ghostLoop fuel g p = Ok q /\ goodPiece q /\ inBounds q /\
    py p <= py q.
Proof.
  intros Hwf Hg Hb Hfuel.
  pose proof Hg as (Hc & Hrect & (dy & dx & Hocc)).
  destruct (ghostLoop_exits g dy dx fuel p) as (n & Hn & Hloop & _ & Hfree);
    [apply Hwf|done|destruct Hb; lia|].
  exists (with_y p (py p + n)). split; [done|].
  split; [by eapply goodPiece_same|]. split; [|cbn; lia].
  destruct (Z.eq_dec n 0) as [->|Hnz].
  - rewrite Z.add_0_r. by destruct p.
  - eapply moved_inBounds; [exact Hwf|exact Hb| |apply Hfree; lia].
    cbn. lia.
Qed.

Lemma hardDrop_sound (fuel : nat) (s : Aaa.Session) :
  aaa_sound s -> (ROWS < fuel)%nat ->
  exists s', Aaa.hardDrop fuel s = Ok s' /\ aaa_sound s' /\ aaa_le s s'.
Proof.
  intros Hs Hfuel. destruct (aaa_piece s Hs) as (p & Hp & Hg & Hb).
  destruct (ghostLoop_sound (Aaa.grid s) p fuel) as (q & Hq & Hgq & Hbq & Hle);
    [apply (aaa_grid_wf s Hs)|done|done|done|].
  unfold Aaa.hardDrop. rewrite Hp, hardDropLoop_ghostLoop, Hq.
  cbn [omap bind]. eexists. split; [reflexivity|].
  destruct (aaa_counts s Hs) as (Hsc & Hli & Hlv).
  split.
  - destruct Hs. constructor; try done.
    + by exists q.
    + cbn. lia.
  - unfold aaa_le. cbn. lia.
Qed.

Lemma hold_sound (s : Aaa.Session) :
  aaa_sound s ->
  exists s', Aaa.holdPieceAction s = Ok s' /\ aaa_sound s' /\ aaa_le s s'.
Proof.
  intros Hs. destruct (aaa_piece s Hs) as (p & Hp & Hg & Hb).
  unfold Aaa.holdPieceAction. rewrite Hp.
  destruct (Aaa.canHold s); cbn [negb];
    [|exists s; split; [done|]; split; [done|apply aaa_le_refl]].
  destruct (recentred_good p Hg) as (newHold & Hnew & Hgn & _).
  destruct (aaa_queue s Hs) as [Hql Hqs].
  destruct (Aaa.holdPiece s) as [h|] eqn:Hh.
  - destruct (recentred_good h (aaa_hold s Hs h Hh)) as (sw & Hsw & Hgs & Hbs).
    rewrite Hnew. cbn [bind]. rewrite Hsw. cbn [bind].
    eexists. split; [reflexivity|]. split; [|unfold aaa_le; cbn; lia].
    destruct Hs. constructor; cbn; try done.
    + by exists sw.
    + by intros ? [= <-].
  - destruct (next_total _ (aaa_bag s Hs)) as (fresh & bag' & Hnext & Hbag').
    pose proof (next_spawned _ _ _ Hnext) as Hfresh.
    rewrite Hnew. cbn [bind]. rewrite Hnext. cbn [bind]. cbv zeta.
    eexists. split; [reflexivity|]. split; [|unfold aaa_le; cbn; lia].
    destruct (Aaa.nextPieces s) as [|q0 rest] eqn:Hq; [done|].
    apply Forall_cons in Hqs as [Hq0 Hrest].
    destruct Hs. constructor; cbn; try done.
    + exists q0. split; [done|]. by apply spawned_good.
    + split.
      * rewrite drop_0, length_app. simpl in *. lia.
      * rewrite drop_0. apply Forall_app. split; [done|].
        by apply Forall_singleton.
    + by intros ? [= <-].
Qed.

Lemma newPieceBag_inv r : exists b, Aaa.newPieceBag r = Ok b /\ bagInv b.
Proof.
  destruct (refillBag_perm r) as (b & Hb & Hperm). exists b. split; [done|].
  exists []. by rewrite app_nil_r.
Qed.

(** [resetGame()] always succeeds and gives a sound state with all
    counters at 0; the active piece is the head of the preview queue. *)
Lemma resetGame_sound (s : Aaa.Session) :
  exists s', Aaa.resetGame s = Ok s' /\ aaa_sound s' /\
    Aaa.score s' = 0 /\ Aaa.lines s' = 0 /\ Aaa.level s' = 0 /\
    Aaa.piece s' = head (Aaa.nextPieces s') /\
    Aaa.paused s' = Aaa.paused s /\ Aaa.started s' = false /\
    Aaa.over s' = false.
Proof.
  destruct (newPieceBag_inv (Aaa.rng (Aaa.pieceBag s))) as (b0 & Hb0 & Hi0).
  destruct (next_total _ Hi0) as (p1 & b1 & Hn1 & Hi1).
  destruct (next_total _ Hi1) as (p2 & b2 & Hn2 & Hi2).
  destruct (next_total _ Hi2) as (p3 & b3 & Hn3 & Hi3).
  unfold Aaa.resetGame. rewrite Hb0. cbn [bind]. rewrite Hn1. cbn [bind].
  rewrite Hn2. cbn [bind]. rewrite Hn3. cbn [bind]. cbv zeta.
  eexists. split; [reflexivity|]. split; [|done].
  apply next_spawned in Hn1, Hn2, Hn3.
  constructor; cbn; try done.
  - apply emptyGrid_board.
  - apply emptyGrid_board.
  - exists p1. split; [done|]. by apply spawned_good.
  - split; [done|]. repeat (constructor; [done|]). constructor.
  - apply emptyGrid_settled.
Qed.

Lemma aaa_le_trans s1 s2 s3 : aaa_le s1 s2 -> aaa_le s2 s3 -> aaa_le s1 s3.
Proof. unfold aaa_le. lia. Qed.

Lemma handleKeyDown_sound run (fuel : nat) (key : string)
    (s : Aaa.Session) :
  aaa_sound s -> (ROWS < fuel)%nat ->
  exists s', Aaa.handleKeyDown run fuel key s = Ok s' /\ aaa_sound s' /\
    (aaaRestarts (AKey key run) = false -> aaa_le s s').
Proof.
  intros Hs Hfuel. unfold Aaa.handleKeyDown, aaaRestarts.
  destruct (negb (Aaa.started s) || Aaa.over s || Aaa.paused s).
  { exists s. split; [done|]. split; [done|]. intros _. apply aaa_le_refl. }
  repeat match goal with
  | |- context [String.eqb key ?k] => destruct (String.eqb key k)
  end; cbn [orb];
  try (destruct (arrowLeft_sound s Hs) as (s' & -> & ? & ?); by exists s');
  try (destruct (arrowRight_sound s Hs) as (s' & -> & ? & ?); by exists s');
  try (destruct (stepDown_sound run s Hs) as (s' & -> & ? & ?);
       by exists s');
  try (destruct (hardDrop_sound fuel s Hs Hfuel) as (s' & -> & ? & ?);
       by exists s');
  try (destruct (rotatePiece_sound s Hs) as (s' & -> & ? & ?); by exists s');
  try (destruct (hold_sound s Hs) as (s' & -> & ? & ?); by exists s');
  try (destruct (resetGame_sound s) as (s' & -> & ? & ?); by exists s');
  try (eexists; split; [reflexivity|]; split;
       [by apply aaa_sound_setPaused|intros _; unfold aaa_le; cbn; lia]).
  exists s. split; [done|]. split; [done|]. intros _. apply aaa_le_refl.
Qed.

Lemma gravityTick_sound run (s : Aaa.Session) :
  aaa_sound s ->
  exists s', Aaa.gravityTick run s = Ok s' /\ aaa_sound s' /\ aaa_le s s'.
Proof.
  intros Hs. unfold Aaa.gravityTick.
  destruct (negb (Aaa.started s) || Aaa.over s || Aaa.paused s).
  - exists s. split; [done|]. split; [done|apply aaa_le_refl].
  - by apply stepDown_sound.
Qed.

Lemma handleTouchEnd_sound m run (fuel : nat) (touch : Aaa.Touch)
    (s : Aaa.Session) :
  aaa_sound s -> (ROWS < fuel)%nat ->
  exists s', Aaa.handleTouchEnd m run fuel touch s = Ok s' /\
    aaa_sound s' /\ aaa_le s s'.
Proof.
  intros Hs Hfuel. unfold Aaa.handleTouchEnd.
  destruct (negb m || negb (Aaa.started s) || Aaa.over s || Aaa.paused s).
  { exists s. split; [done|]. split; [done|apply aaa_le_refl]. }
  destruct (Aaa.near touch).
  { destruct (Aaa.quick touch); [by apply rotatePiece_sound|].
    exists s. split; [done|]. split; [done|apply aaa_le_refl]. }
  destruct (Aaa.sideways touch).
  { destruct (Aaa.rightward touch);
      [by apply arrowRight_sound|by apply arrowLeft_sound]. }
  destruct (Aaa.downward touch);
    [by apply stepDown_sound|by apply hardDrop_sound].
Qed.

(** The level effect makes a sound state a good one, and takes the
    level up when the handler moved the line count up. *)
Lemma levelEffect_ok (s' : Aaa.Session) :
  aaa_sound s' -> aaa_ok (Aaa.levelEffect s').
Proof.
  intros Hs. unfold Aaa.levelEffect, aaa_ok.
  destruct (Z.eqb_spec (Aaa.lines s' / 10) (Aaa.level s')) as [E|E];
    cbn [negb].
  - by split.
  - split; [|done]. destruct Hs as [? ? ? ? ? ? (? & ? & ?)].
    constructor; try done. cbn. split; [done|]. split; [done|].
    by apply Z.div_pos.
Qed.

Lemma levelEffect_le (s s' : Aaa.Session) :
  aaa_ok s -> aaa_le s s' -> aaa_le s (Aaa.levelEffect s').
Proof.
  intros [_ Hlv] (Hsc & Hli & _). unfold Aaa.levelEffect, aaa_le.
  destruct (Z.eqb_spec (Aaa.lines s' / 10) (Aaa.level s')) as [E|E];
    cbn [negb].
  - rewrite <- E, Hlv. split; [done|]. split; [done|].
    by apply Z.div_le_mono.
  - cbn. rewrite Hlv. split; [done|]. split; [done|].
    by apply Z.div_le_mono.
Qed.

(** One event in a good state: the handler and the level effect
    succeed, the state stays good, and unless the event starts a new
    game no counter goes down. *)
Lemma aaaStep_ok (m : bool) (fuel : nat) (ev : AaaEvent) (s : Aaa.Session) :
  aaa_ok s -> (ROWS < fuel)%nat ->
  exists s', aaaStep m fuel ev s = Ok s' /\ aaa_ok s' /\
    (aaaRestarts ev = false -> aaa_le s s').
Proof.
  intros Hok Hfuel. pose proof Hok as [Hs Hlv].
  assert (exists s1,
    match ev with
    | ATick run => Aaa.gravityTick run s
    | AKey key run => Aaa.handleKeyDown run fuel key s
    | ATouchEnd touch run => Aaa.handleTouchEnd m run fuel touch s
    | APauseButton => Ok (AaaApp.pauseButton s)
    | AResume => Ok (AaaApp.resume s)
    | ANewGame => AaaApp.newGame s
    | AExit => AaaApp.exit s
    end = Ok s1 /\ aaa_sound s1 /\ (aaaRestarts ev = false -> aaa_le s s1))
    as (s1 & H1 & Hs1 & Hle1).
  { destruct ev as [run|key run|touch run| | | |].
    - destruct (gravityTick_sound run s Hs) as (s1 & ? & ? & ?).
      by exists s1.
    - by apply handleKeyDown_sound.
    - destruct (handleTouchEnd_sound m run fuel touch s Hs Hfuel)
        as (s1 & ? & ? & ?).
      by exists s1.
    - eexists. split; [reflexivity|]. split; [by apply aaa_sound_setPaused|].
      intros _. unfold aaa_le. cbn. lia.
    - eexists. split; [reflexivity|]. split; [by apply aaa_sound_setPaused|].
      intros _. unfold aaa_le. cbn. lia.
    - destruct (resetGame_sound s) as (s1 & H1 & ? & _).
      unfold AaaApp.newGame. rewrite H1. cbn [bind].
      eexists. split; [reflexivity|]. split; [|done].
      by apply aaa_sound_setPaused.
    - destruct (resetGame_sound s) as (s1 & H1 & ? & _). by exists s1. }
  unfold aaaStep. rewrite H1. cbn [omap bind].
  eexists. split; [reflexivity|]. split; [by apply levelEffect_ok|].
  intros Hev. apply levelEffect_le; [done|]. by apply Hle1.
Qed.

(** X8: in a good state of the AAA game (a 20 by 10 board of palette
    cells without a full row, an active piece inside it, three
    previews, a sound bag, the level at a tenth of the lines) no
    sequence of gravity ticks, keys, touches and button clicks throws
    or hangs, however React runs the updaters of the ticks, keys and
    swipes, given the hard drop more iterations than the board has
    rows; the state reached is good again. *)
Theorem aaa_game_never_throws (isMobileDevice : bool) (fuel : nat)
    (evs : list AaaEvent) (s : Aaa.Session) :
  aaa_ok s -> (ROWS < fuel)%nat ->
  exists s', aaaRun isMobileDevice fuel evs s = Ok s' /\ aaa_ok s'.
Proof.
  intros Hok Hfuel. revert s Hok.
  induction evs as [|ev evs IH]; intros s Hok.
  - by exists s.
  - destruct (aaaStep_ok isMobileDevice fuel ev s Hok Hfuel)
      as (s1 & H1 & Hok1 & _).
    destruct (IH s1 Hok1) as (s' & Hrun & Hok').
    exists s'. split; [|done]. cbn [aaaRun]. by rewrite H1.
Qed.

(** X9: as long as no event starts a new game, the score, the line
    count and the level of the AAA game never go down, whatever the
    ticks, keys, touches and button clicks and however React runs
    their updaters. *)
Theorem aaa_counters_grow (isMobileDevice : bool) (fuel : nat)
    (evs : list AaaEvent) (s s' : Aaa.Session) :
  aaa_ok s -> (ROWS < fuel)%nat ->
  Forall (fun ev => aaaRestarts ev = false) evs ->
  aaaRun isMobileDevice fuel evs s = Ok s' ->
  Aaa.score s <= Aaa.score s' /\ Aaa.lines s <= Aaa.lines s' /\
  Aaa.level s <= Aaa.level s'.
Proof.
  intros Hok Hfuel Hevs. revert s Hok.
  induction Hevs as [|ev evs Hev Hevs IH]; intros s Hok Hrun.
  - injection Hrun as <-. lia.
  - destruct (aaaStep_ok isMobileDevice fuel ev s Hok Hfuel)
      as (s1 & H1 & Hok1 & Hle).
    cbn [aaaRun] in Hrun. rewrite H1 in Hrun. cbn [bind] in Hrun.
    specialize (IH s1 Hok1 Hrun). specialize (Hle Hev).
    unfold aaa_le in Hle. lia.
Qed.

(** The running session of the examples, on the empty board, is a
    good state. *)
Lemma aaaRunning_ok : aaa_ok (aaaRunning emptyGrid pieceO).
Proof.
  split; [|reflexivity]. constructor; cbn.
  - apply emptyGrid_board.
  - apply emptyGrid_board.
  - exists pieceO. split; [done|]. by apply spawned_good.
  - split; [done|]. repeat (constructor; [done|]). constructor.
  - done.
  - exists [0; 1; 2; 3]%nat. cbn. unfold allTypes. solve_Permutation.
  - lia.
  - apply emptyGrid_settled.
Qed.

Lemma aaa_game_never_throws_witness :
  exists s',
    aaaRun true 30
      [AKey "ArrowLeft" Aaa.InRender; ATick Aaa.InRender;
       AKey " " Aaa.InRender; AKey "c" Aaa.Eager; AKey "ArrowUp" Aaa.Eager;
       AKey "ArrowLeft" Aaa.InRender; ATick Aaa.Eager;
       ATouchEnd (Aaa.mkTouch false false false false true) Aaa.InRender;
       AKey "p" Aaa.Eager; AResume; AKey "r" Aaa.Eager]
      (aaaRunning emptyGrid pieceO) = Ok s' /\ aaa_ok s'.
Proof.
  apply (aaa_game_never_throws true 30 _ (aaaRunning emptyGrid pieceO)).
  - apply aaaRunning_ok.
  - vm_compute. lia.
Defined.

(** The same session on the board with two rows filled but for a gap
    is a good state too. *)
Lemma gapRunning_ok : aaa_ok (aaaRunning gapGrid pieceO).
Proof.
  assert (Forall (fun v => 0 <= v <= 7) [1; 1; 1; 1; 0; 0; 1; 1; 1; 1])
    as Hrow by (repeat (constructor; [lia|]); constructor).
  split; [|reflexivity]. constructor;
    cbn [Aaa.grid Aaa.piece Aaa.nextPieces Aaa.holdPiece Aaa.pieceBag
         Aaa.score Aaa.lines Aaa.level aaaRunning].
  - split; [reflexivity|]. apply Forall_app. split.
    + apply Forall_replicate, length_replicate.
    + by apply Forall_replicate.
  - apply Forall_app. split.
    + apply Forall_replicate, Forall_replicate. lia.
    + by apply Forall_replicate.
  - exists pieceO. split; [done|]. by apply spawned_good.
  - split; [done|]. repeat (constructor; [done|]). constructor.
  - done.
  - exists [0; 1; 2; 3]%nat. cbn. unfold allTypes. solve_Permutation.
  - lia.
  - apply Forall_app. split.
    + apply Forall_replicate, zeroRow_not_full.
    + apply Forall_replicate. intros H.
      apply (Forall_lookup_1 _ _ 4%nat 0) in H; done.
Qed.

Lemma aaa_counters_grow_witness :
  match aaaRun true 30
          [AKey "ArrowUp" Aaa.InRender; AKey "ArrowLeft" Aaa.InRender;
           ATick Aaa.Eager;
           ATouchEnd (Aaa.mkTouch false false false false true) Aaa.InRender]
          (aaaRunning gapGrid pieceO) with
  | Ok s' =>
      Aaa.score (aaaRunning gapGrid pieceO) <= Aaa.score s' /\
      Aaa.lines (aaaRunning gapGrid pieceO) <= Aaa.lines s' /\
      Aaa.level (aaaRunning gapGrid pieceO) <= Aaa.level s'
  | _ => False
  end.
Proof.
  destruct (aaaRun true 30
              [AKey "ArrowUp" Aaa.InRender; AKey "ArrowLeft" Aaa.InRender;
               ATick Aaa.Eager;
               ATouchEnd (Aaa.mkTouch false false false false true)
                 Aaa.InRender]
              (aaaRunning gapGrid pieceO)) as [s'| | |] eqn:Hrun;
    try (vm_compute in Hrun; discriminate).
  apply (aaa_counters_grow true 30
           [AKey "ArrowUp" Aaa.InRender; AKey "ArrowLeft" Aaa.InRender;
            ATick Aaa.Eager;
            ATouchEnd (Aaa.mkTouch false false false false true)
              Aaa.InRender]
           (aaaRunning gapGrid pieceO) s').
  - apply gapRunning_ok.
  - vm_compute. lia.
  - repeat constructor.
  - exact Hrun.
Defined.

(** ** The same for the Solo ruleset *)

(** [collides(grid, np) ? p : np] for a candidate that is not higher
    than the piece. *)
Lemma candidate_sound (g : Board) (p np : Piece) :
  wf_board g -> goodPiece p -> inBounds p -> goodPiece np -> py p <= py np ->
  exists b, Solo.collides g np = Ok b /\
    goodPiece (if b then p else np) /\ inBounds (if b then p else np).
Proof.
  intros Hwf Hg Hb Hgn Hle.
  destruct (Solo_collides_spec g np) as (b & Hcol & _); [apply Hwf|].
  exists b. split; [done|]. destruct b; [done|]. split; [done|].
  eapply moved_inBounds; [exact Hwf|exact Hb|done|].
  rewrite <- Solo_Aaa_collides; [done|apply Hwf].
Qed.

Lemma keyUpdater_sound (fuel : nat) (key : string) (g : Board) (p : Piece) :
  wf_board g -> goodPiece p -> inBounds p -> (ROWS < fuel)%nat ->
  exists p', Solo.keyUpdater fuel key g p = Ok p' /\
    goodPiece p' /\ inBounds p'.
Proof.
  intros Hwf Hg Hb Hfuel. unfold Solo.keyUpdater. cbv zeta.
  destruct (String.eqb key "ArrowLeft") eqn:E1.
  { apply String.eqb_eq in E1 as ->. eval_keys. cbn [bind].
    destruct (candidate_sound g p (with_x p (px p - 1))) as (b & -> & ?);
      [done|done|done|by eapply goodPiece_same|cbn; lia|].
    cbn [bind]. by eexists. }
  destruct (String.eqb key "ArrowRight") eqn:E2.
  { apply String.eqb_eq in E2 as ->. eval_keys. cbn [bind].
    destruct (candidate_sound g p (with_x p (px p + 1))) as (b & -> & ?);
      [done|done|done|by eapply goodPiece_same|cbn; lia|].
    cbn [bind]. by eexists. }
  destruct (String.eqb key "ArrowDown") eqn:E3.
  { apply String.eqb_eq in E3 as ->. eval_keys. cbn [bind].
    destruct (candidate_sound g p (with_y p (py p + 1))) as (b & -> & ?);
      [done|done|done|by eapply goodPiece_same|cbn; lia|].
    cbn [bind]. by eexists. }
  destruct (String.eqb key " ") eqn:E4.
  { apply String.eqb_eq in E4 as ->. eval_keys.
    destruct (rotate_good p Hg) as (rot & _ & -> & Hgr). cbn [bind].
    destruct (candidate_sound g p (with_shape p rot)) as (b & -> & ?);
      [done|done|done|done|cbn; lia|].
    cbn [bind]. by eexists. }
  cbn [bind].
  destruct (String.eqb key "ArrowUp") eqn:E5.
  { destruct (ghostLoop_sound g p fuel) as (q & Hq & Hgq & Hbq & Hle);
      [done|done|done|done|].
    rewrite dropLoop_ghostLoop, Hq by apply Hwf. cbn [bind].
    destruct (candidate_sound g p q) as (b & -> & ?);
      [done|done|done|done|done|].
    cbn [bind]. by eexists. }
  cbn [bind].
  destruct (candidate_sound g p p) as (b & -> & ?);
    [done|done|done|done|lia|].
  cbn [bind]. by eexists.
Qed.

Lemma solo_le_refl t : solo_le t t.
Proof. unfold solo_le. lia. Qed.

Lemma solo_ok_setPiece (t : Solo.Session) q :
  solo_ok t -> goodPiece q -> inBounds q -> solo_ok (Solo.setPiece q t).
Proof. intros [] Hg Hb. by constructor. Qed.

Lemma solo_ok_setPaused (t : Solo.Session) b :
  solo_ok t -> solo_ok (Solo.setPaused b t).
Proof. by intros []. Qed.

(** [resetGame()] of the Solo component always succeeds and gives a
    good state with score and level 0. *)
Lemma Solo_resetGame_ok (t : Solo.Session) :
  exists t', Solo.resetGame t = Ok t' /\ solo_ok t' /\
    Solo.score t' = 0 /\ Solo.level t' = 0 /\
    Solo.paused t' = Solo.paused t /\ Solo.started t' = false /\
    Solo.over t' = false /\ Solo.countdown t' = None.
Proof.
  destruct (randomPiece_total (Solo.rng t)) as (p & r1 & H1).
  destruct (randomPiece_total r1) as (n & r2 & H2).
  unfold Solo.resetGame. rewrite H1. cbn [bind]. rewrite H2. cbn [bind].
  eexists. split; [reflexivity|]. split; [|done].
  apply randomPiece_spawned in H1, H2.
  constructor; cbn; try done.
  - apply emptyGrid_board.
  - apply emptyGrid_board.
  - by apply spawned_good.
  - apply emptyGrid_settled.
Qed.

Lemma Solo_onKey_ok (fuel : nat) (key : string) (t : Solo.Session) :
  solo_ok t -> (ROWS < fuel)%nat ->
  exists t', Solo.onKey fuel key t = Ok t' /\ solo_ok t' /\
    (String.eqb key "r" = false -> solo_le t t') /\
    (negb (String.eqb key "r") || negb (Solo.started t) || Solo.over t = true ->
     Solo.started t' = Solo.started t /\ Solo.over t' = Solo.over t /\
     Solo.paused t' = Solo.paused t).
Proof.
  intros Hok Hfuel. unfold Solo.onKey.
  destruct (negb (Solo.started t) || Solo.over t) eqn:Hrun.
  { exists t. split; [done|]. split; [done|]. split; [|done].
    intros _. apply solo_le_refl. }
  destruct (keyUpdater_sound fuel key (Solo.grid t) (Solo.piece t))
    as (p' & -> & Hg' & Hb');
    [apply Hok|apply Hok|apply Hok|done|].
  cbn [bind]. cbv zeta.
  pose proof (solo_ok_setPiece t p' Hok Hg' Hb') as Hok'.
  destruct (String.eqb key "r").
  - destruct (Solo_resetGame_ok (Solo.setPiece p' t)) as (t' & -> & ? & _).
    exists t'. split; [done|]. split; [done|]. split; [done|].
    apply orb_false_iff in Hrun as [-> ->]. done.
  - eexists. split; [reflexivity|]. split; [done|]. split; [|done].
    intros _. unfold solo_le. cbn. lia.
Qed.

Lemma Solo_gravityTick_ok (t : Solo.Session) :
  solo_ok t ->
  exists t', Solo.gravityTick t = Ok t' /\ solo_ok t' /\ solo_le t t'.
Proof.
  intros Hok. unfold Solo.gravityTick.
  destruct (negb (Solo.started t) || Solo.over t || Solo.paused t).
  { exists t. split; [done|]. split; [done|apply solo_le_refl]. }
  cbv zeta. pose proof (solo_piece t Hok) as [Hg Hb].
  destruct (Solo_collides_spec (Solo.grid t)
              (with_y (Solo.piece t) (py (Solo.piece t) + 1)))
    as (hit & Hcol & _); [apply (solo_grid_wf t Hok)|].
  rewrite Hcol. cbn [bind]. destruct hit.
  - destruct (py (Solo.piece t) =? 0).
    + eexists. split; [reflexivity|]. split; [by destruct Hok|].
      unfold solo_le. cbn. lia.
    + destruct (merge_keeps_board (Solo.grid t) (Solo.piece t))
        as (merged & -> & Hwf & Hpal);
        [apply Hok|apply Hok|done|apply Hg|].
      cbn [bind].
      destruct (clearLines_keeps_board merged Hwf Hpal) as (Hwf' & Hpal' & Hcl).
      pose proof (clearLines_settled merged (proj1 Hwf)) as Hset.
      remember (Solo.clearLines merged) as r eqn:Er. clear Er.
      destruct (randomPiece_total (Solo.rng t)) as (fresh & rng' & Hfresh).
      rewrite Hfresh. cbn [bind]. eexists. split; [reflexivity|].
      apply randomPiece_spawned in Hfresh.
      destruct (solo_counts t Hok) as [Hsc Hlv].
      split.
      * constructor; cbn; try done.
        -- apply spawned_good, (solo_next t Hok).
        -- nia.
      * unfold solo_le. cbn. nia.
  - eexists. split; [reflexivity|]. split; [|unfold solo_le; cbn; lia].
    apply solo_ok_setPiece; [done|by eapply goodPiece_same|].
    eapply moved_inBounds; [apply Hok|exact Hb|cbn; lia|].
    rewrite <- Solo_Aaa_collides; [done|apply Hok].
Qed.

Lemma Solo_touch_ok (t : Solo.Session) (np : Piece) :
  solo_ok t -> goodPiece np -> py (Solo.piece t) <= py np ->
  exists t',
    (let* hit := Solo.collides (Solo.grid t) np in
     Ok (Solo.setPiece (if hit then Solo.piece t else np) t)) = Ok t' /\
    solo_ok t' /\ solo_le t t'.
Proof.
  intros Hok Hgn Hle. pose proof (solo_piece t Hok) as [Hg Hb].
  destruct (candidate_sound (Solo.grid t) (Solo.piece t) np)
    as (b & -> & Hg' & Hb'); [apply Hok|done|done|done|done|].
  cbn [bind]. eexists. split; [reflexivity|].
  split; [by apply solo_ok_setPiece|unfold solo_le; cbn; lia].
Qed.

(** One event in a good state of the Solo game: the handler succeeds,
    the state stays good, and unless the event starts a new game
    neither score nor level goes down. *)
Lemma soloStep_ok (fuel : nat) (ev : SoloEvent) (t : Solo.Session) :
  solo_ok t -> (ROWS < fuel)%nat ->
  exists t', soloStep fuel ev t = Ok t' /\ solo_ok t' /\
    (soloRestarts ev = false -> solo_le t t').
Proof.
  intros Hok Hfuel. pose proof (solo_piece t Hok) as [Hg Hb].
  destruct ev as [|key| | | | | | | | |]; cbn [soloStep soloRestarts].
  - destruct (Solo_gravityTick_ok t Hok) as (t' & ? & ? & ?). by exists t'.
  - destruct (Solo_onKey_ok fuel key t Hok Hfuel) as (t' & H1 & Hok' & Hle & _).
    unfold SoloApp.keyDown. rewrite H1. cbn [bind].
    destruct (negb (Solo.started t) || Solo.over t); [by exists t'|].
    destruct (String.eqb key "p") eqn:Ep; [|by exists t'].
    eexists. split; [reflexivity|]. split; [by apply solo_ok_setPaused|].
    intros Hr. specialize (Hle Hr). unfold solo_le in *. cbn. lia.
  - destruct (Solo_touch_ok t (with_x (Solo.piece t) (px (Solo.piece t) - 1)))
      as (t' & ? & ? & ?); [done|by eapply goodPiece_same|cbn; lia|].
    by exists t'.
  - destruct (Solo_touch_ok t (with_x (Solo.piece t) (px (Solo.piece t) + 1)))
      as (t' & ? & ? & ?); [done|by eapply goodPiece_same|cbn; lia|].
    by exists t'.
  - destruct (Solo_touch_ok t (with_y (Solo.piece t) (py (Solo.piece t) + 1)))
      as (t' & ? & ? & ?); [done|by eapply goodPiece_same|cbn; lia|].
    by exists t'.
  - destruct (rotate_good _ Hg) as (rot & _ & Hrot & Hgr).
    unfold Solo.rotatePiece. cbv zeta. rewrite Hrot. cbn [bind].
    destruct (Solo_touch_ok t (with_shape (Solo.piece t) rot))
      as (t' & ? & ? & ?); [done|done|cbn; lia|].
    by exists t'.
  - destruct (ghostLoop_sound (Solo.grid t) (Solo.piece t) fuel)
      as (q & Hq & Hgq & Hbq & Hle); [apply Hok|done|done|done|].
    unfold Solo.hardDrop. rewrite dropLoop_ghostLoop, Hq by apply Hok.
    cbn [bind]. eexists. split; [reflexivity|].
    split; [by apply solo_ok_setPiece|intros _; unfold solo_le; cbn; lia].
  - eexists. split; [reflexivity|]. split; [by apply solo_ok_setPaused|].
    intros _. unfold solo_le. cbn. lia.
  - eexists. split; [reflexivity|]. split; [by apply solo_ok_setPaused|].
    intros _. unfold solo_le. cbn. lia.
  - destruct (Solo_resetGame_ok t) as (t' & H1 & Hok' & _).
    unfold SoloApp.replay. rewrite H1. cbn [bind].
    eexists. split; [reflexivity|]. split; [|done]. by destruct Hok'.
  - destruct (Solo_resetGame_ok t) as (t' & H1 & Hok' & _). by exists t'.
Qed.

(** X10: in a good state of the Solo game (a 20 by 10 board of palette
    cells without a full row, an active piece inside it, a spawned
    next piece) no sequence of gravity ticks, keys, touch buttons and
    pause-screen buttons throws or hangs, given the hard drop more
    iterations than the board has rows; the state reached is good
    again. *)
Theorem solo_game_never_throws (fuel : nat) (evs : list SoloEvent)
    (t : Solo.Session) :
  solo_ok t -> (ROWS < fuel)%nat ->
  exists t', soloRun fuel evs t = Ok t' /\ solo_ok t'.
Proof.
  intros Hok Hfuel. revert t Hok.
  induction evs as [|ev evs IH]; intros t Hok.
  - by exists t.
  - destruct (soloStep_ok fuel ev t Hok Hfuel) as (t1 & H1 & Hok1 & _).
    destruct (IH t1 Hok1) as (t' & Hrun & Hok').
    exists t'. split; [|done]. cbn [soloRun]. by rewrite H1.
Qed.

Lemma soloRunning_ok : solo_ok (soloRunning emptyGrid pieceO).
Proof.
  constructor; cbn.
  - apply emptyGrid_board.
  - apply emptyGrid_board.
  - by apply spawned_good.
  - done.
  - lia.
  - apply emptyGrid_settled.
Qed.

Lemma solo_game_never_throws_witness :
  exists t',
    soloRun 30 [SKey "ArrowLeft"; STick; SRotate; SKey "ArrowUp"; STick;
                SKey "p"; SResume; SHardDrop; SKey "r"]
      (soloRunning emptyGrid pieceO) = Ok t' /\ solo_ok t'.
Proof.
  apply (solo_game_never_throws 30 _ (soloRunning emptyGrid pieceO)).
  - apply soloRunning_ok.
  - vm_compute. lia.
Defined.

(** X11: as long as no event starts a new game, the score and the
    level of the Solo game never go down. *)
Theorem solo_counters_grow (fuel : nat) (evs : list SoloEvent)
    (t t' : Solo.Session) :
  solo_ok t -> (ROWS < fuel)%nat ->
  Forall (fun ev => soloRestarts ev = false) evs ->
  soloRun fuel evs t = Ok t' ->
  Solo.score t <= Solo.score t' /\ Solo.level t <= Solo.level t'.
Proof.
  intros Hok Hfuel Hevs. revert t Hok.
  induction Hevs as [|ev evs Hev Hevs IH]; intros t Hok Hrun.
  - injection Hrun as <-. lia.
  - destruct (soloStep_ok fuel ev t Hok Hfuel) as (t1 & H1 & Hok1 & Hle).
    cbn [soloRun] in Hrun. rewrite H1 in Hrun. cbn [bind] in Hrun.
    specialize (IH t1 Hok1 Hrun). specialize (Hle Hev).
    unfold solo_le in Hle. lia.
Qed.

Lemma soloResting_ok : solo_ok soloResting.
Proof.
  constructor; cbn.
  - apply emptyGrid_board.
  - apply emptyGrid_board.
  - split.
    + apply (goodPiece_same pieceO); [done|done|]. by apply spawned_good.
    + apply (free_inBounds emptyGrid); [done|by vm_compute|cbn; lia].
  - done.
  - lia.
  - apply emptyGrid_settled.
Qed.

Lemma solo_counters_grow_witness :
  match soloRun 30 [STick; SKey "ArrowLeft"] soloResting with
  | Ok t' => Solo.score soloResting <= Solo.score t' /\
             Solo.level soloResting <= Solo.level t'
  | _ => False
  end.
Proof.
  destruct (soloRun 30 [STick; SKey "ArrowLeft"] soloResting) as [t'| | |]
    eqn:Hrun; try (vm_compute in Hrun; discriminate).
  apply (solo_counters_grow 30 [STick; SKey "ArrowLeft"] soloResting t').
  - apply soloResting_ok.
  - vm_compute. lia.
  - repeat constructor.
  - exact Hrun.
Defined.

(** ** How a game begins *)

(** X12: the first render and the mount effect of the AAA component,
    the first render of the Solo component and [resetGame()] in any
    state all succeed and give a good state.  [resetGame()] puts the
    score, lines and level at 0 and leaves the pause flag as it
    was. *)
Theorem games_begin_sound (r : Rng) (s : Aaa.Session) (t : Solo.Session) :
  (exists s0, (let* i := AaaApp.initial r in AaaApp.mount i) = Ok s0 /\
     aaa_ok s0) /\
  (exists t0, SoloApp.initial r = Ok t0 /\ solo_ok t0) /\
  (exists s', Aaa.resetGame s = Ok s' /\ aaa_ok s' /\
     Aaa.score s' = 0 /\ Aaa.lines s' = 0 /\ Aaa.level s' = 0 /\
     Aaa.paused s' = Aaa.paused s) /\
  (exists t', Solo.resetGame t = Ok t' /\ solo_ok t' /\
     Solo.score t' = 0 /\ Solo.level t' = 0 /\
     Solo.paused t' = Solo.paused t).
Proof.
  split; [|split; [|split]].
  - destruct (newPieceBag_inv r) as (b0 & Hb0 & Hi0).
    destruct (next_total _ Hi0) as (p1 & b1 & Hn1 & Hi1).
    destruct (next_total _ Hi1) as (p2 & b2 & Hn2 & Hi2).
    destruct (next_total _ Hi2) as (p3 & b3 & Hn3 & Hi3).
    unfold AaaApp.initial, AaaApp.mount. rewrite Hb0. cbn [bind Aaa.pieceBag].
    rewrite Hn1. cbn [bind]. rewrite Hn2. cbn [bind]. rewrite Hn3.
    cbn [bind]. cbv zeta. eexists. split; [reflexivity|].
    apply next_spawned in Hn1, Hn2, Hn3.
    split; [|reflexivity]. constructor; cbn; try done.
    + apply emptyGrid_board.
    + apply emptyGrid_board.
    + exists p1. split; [done|]. by apply spawned_good.
    + split; [done|]. repeat (constructor; [done|]). constructor.
    + apply emptyGrid_settled.
  - destruct (randomPiece_total r) as (p & r1 & H1).
    destruct (randomPiece_total r1) as (n & r2 & H2).
    unfold SoloApp.initial. rewrite H1. cbn [bind]. rewrite H2. cbn [bind].
    eexists. split; [reflexivity|].
    apply randomPiece_spawned in H1, H2.
    constructor; cbn; try done.
    + apply emptyGrid_board.
    + apply emptyGrid_board.
    + by apply spawned_good.
    + apply emptyGrid_settled.
  - destruct (resetGame_sound s) as (s' & H & Hs & Hsc & Hli & Hlv & _ & Hp & _).
    exists s'. split; [done|]. split; [|done]. split; [done|].
    by rewrite Hli, Hlv.
  - destruct (Solo_resetGame_ok t) as (t' & H & Hok & Hsc & Hlv & Hp & _).
    by exists t'.
Qed.

(** ** The colours of the drawing *)

(** X13: in a good state the drawing effect finds what it draws: the
    loop of the ghost piece ends, inside the board; every non-empty
    cell of the board and every piece drawn (active, preview, held,
    next) has a colour, in both rulesets; and a cell written by
    [merge] for a piece gets the colour of that piece. *)
Theorem drawing_colours_defined (s : Aaa.Session) (t : Solo.Session) :
  aaa_ok s -> solo_ok t ->
  (forall fuel p, (ROWS < fuel)%nat -> Aaa.piece s = Some p ->
     exists q, Aaa.getGhostPiece fuel p (Aaa.grid s) = Ok q /\ inBounds q) /\
  (forall r c v, cellAt (Aaa.grid s) r c = Some v -> v <> 0 ->
     is_Some (AaaApp.cellColor v)) /\
  (forall p, Aaa.piece s = Some p \/ p ∈ Aaa.nextPieces s \/
             Aaa.holdPiece s = Some p ->
     is_Some (AaaApp.pieceColor p) /\
     AaaApp.cellColor (Z.of_nat (colorIdx p) + 1) = AaaApp.pieceColor p) /\
  (forall r c v, cellAt (Solo.grid t) r c = Some v -> v <> 0 ->
     is_Some (SoloApp.cellColor v)) /\
  (forall p, p = Solo.piece t \/ p = Solo.nextPiece t ->
     is_Some (SoloApp.pieceColor p) /\
     SoloApp.cellColor (Z.of_nat (colorIdx p) + 1) = SoloApp.pieceColor p).
Proof.
  intros [Hs _] Ht.
  assert (forall (g : Board) r c v, palette g -> cellAt g r c = Some v ->
            v <> 0 -> 1 <= v <= 7) as Hcell.
  { intros g r c v Hpal Hc Hv. unfold cellAt in Hc.
    destruct (g !! r) as [row|] eqn:Hrow; [|done].
    eapply Forall_lookup_1 in Hpal; [|exact Hrow].
    eapply Forall_lookup_1 in Hpal; [|exact Hc]. lia. }
  assert (forall v, 1 <= v <= 7 ->
            is_Some (AaaApp.cellColor v) /\ is_Some (SoloApp.cellColor v))
    as Hcol.
  { intros v Hv. unfold AaaApp.cellColor, SoloApp.cellColor.
    assert ((v - 1 <? 0) = false) as -> by lia.
    split; apply lookup_lt_is_Some; cbn; lia. }
  assert (forall p, goodPiece p ->
            (is_Some (AaaApp.pieceColor p) /\
             AaaApp.cellColor (Z.of_nat (colorIdx p) + 1) =
               AaaApp.pieceColor p) /\
            (is_Some (SoloApp.pieceColor p) /\
             SoloApp.cellColor (Z.of_nat (colorIdx p) + 1) =
               SoloApp.pieceColor p)) as Hpiece.
  { intros p (Hc & _).
    unfold AaaApp.pieceColor, SoloApp.pieceColor, AaaApp.cellColor,
      SoloApp.cellColor.
    assert ((Z.of_nat (colorIdx p) + 1 - 1 <? 0) = false) as -> by lia.
    replace (Z.to_nat (Z.of_nat (colorIdx p) + 1 - 1)) with (colorIdx p)
      by lia.
    split; (split; [apply lookup_lt_is_Some; cbn; lia|done]). }
  split.
  { intros fuel p Hfuel Hp. destruct (aaa_piece s Hs) as (q & Hq & Hg & Hb).
    rewrite Hp in Hq. injection Hq as <-.
    destruct (ghostLoop_sound (Aaa.grid s) p fuel) as (q & Hq & _ & Hbq & _);
      [apply Hs|done|done|done|].
    by exists q. }
  split; [|split; [|split]].
  - intros r c v Hc Hv.
    by apply Hcol, (Hcell (Aaa.grid s) r c), Hv; [apply Hs|].
  - intros p [Hp|[Hp|Hp]]; apply Hpiece.
    + destruct (aaa_piece s Hs) as (q & Hq & Hg & _).
      rewrite Hp in Hq. by injection Hq as <-.
    + destruct (aaa_queue s Hs) as [_ Hall].
      eapply Forall_forall in Hall; [|exact Hp]. by apply spawned_good.
    + by apply (aaa_hold s Hs).
  - intros r c v Hc Hv.
    by apply Hcol, (Hcell (Solo.grid t) r c), Hv; [apply Ht|].
  - intros p [->| ->]; apply Hpiece.
    + apply (solo_piece t Ht).
    + apply spawned_good, (solo_next t Ht).
Qed.

Lemma drawing_colours_defined_witness :
  is_Some (AaaApp.pieceColor pieceO) /\
  AaaApp.cellColor (Z.of_nat (colorIdx pieceO) + 1) = AaaApp.pieceColor pieceO.
Proof.
  destruct (drawing_colours_defined (aaaRunning emptyGrid pieceO)
              (soloRunning emptyGrid pieceO))
    as (_ & _ & Hp & _).
  - apply aaaRunning_ok.
  - apply soloRunning_ok.
  - apply Hp. by left.
Defined.

(** ** Pause, game over and the keyboard *)

Lemma levelEffect_same (s : Aaa.Session) :
  Aaa.level s = Aaa.lines s / 10 -> Aaa.levelEffect s = s.
Proof.
  intros H. unfold Aaa.levelEffect. rewrite <- H.
  by rewrite Z.eqb_refl.
Qed.

(** X14: while the AAA game is paused, over or not started, neither a
    key nor the gravity interval changes anything: the keyboard can
    pause the game but not resume or restart it; that takes a
    button. *)
Theorem aaa_keyboard_cannot_resume (isMobileDevice : bool) (fuel : nat)
    (evs : list AaaEvent) (s : Aaa.Session) :
  negb (Aaa.started s) || Aaa.over s || Aaa.paused s = true ->
  Aaa.level s = Aaa.lines s / 10 ->
  Forall (fun ev => aaaKeyOrTick ev = true) evs ->
  aaaRun isMobileDevice fuel evs s = Ok s.
Proof.
  intros Hidle Hlv Hevs. induction Hevs as [|ev evs Hev Hevs IH]; [done|].
  cbn [aaaRun].
  assert (aaaStep isMobileDevice fuel ev s = Ok s) as ->; [|done].
  unfold aaaStep. destruct ev as [run|key run|touch run| | | |]; try done.
  - unfold Aaa.gravityTick. rewrite Hidle. cbn [omap bind].
    by rewrite levelEffect_same.
  - unfold Aaa.handleKeyDown. rewrite Hidle. cbn [omap bind].
    by rewrite levelEffect_same.
Qed.

Lemma aaa_keyboard_cannot_resume_witness :
  aaaRun true 30
    [AKey "p" Aaa.Eager; AKey "P" Aaa.InRender; AKey "r" Aaa.Eager;
     ATick Aaa.Eager; AKey "ArrowUp" Aaa.InRender]
    (Aaa.setPaused true (aaaRunning emptyGrid pieceO)) =
  Ok (Aaa.setPaused true (aaaRunning emptyGrid pieceO)).
Proof.
  apply (aaa_keyboard_cannot_resume true 30 _
           (Aaa.setPaused true (aaaRunning emptyGrid pieceO))).
  - reflexivity.
  - reflexivity.
  - repeat constructor.
Defined.

Lemma Solo_setPaused_same (t : Solo.Session) :
  Solo.setPaused (Solo.paused t) t = t.
Proof. by destruct t. Qed.

(** One enabled event on a finished Solo game changes at most the
    pause flag. *)
Lemma solo_over_step (m : bool) (fuel : nat) (ev : SoloEvent)
    (t t1 : Solo.Session) :
  Solo.started t = true -> Solo.over t = true ->
  soloEnabled m ev t = true -> soloStep fuel ev t = Ok t1 ->
  exists b, t1 = Solo.setPaused b t.
Proof.
  intros Hst Hov Hen H.
  destruct ev as [|key| | | | | | | | |]; cbn [soloStep soloEnabled] in *;
    unfold SoloApp.touchVisible, SoloApp.pauseScreenVisible in Hen;
    rewrite ?Hst, ?Hov in Hen; cbn in Hen;
    rewrite ?andb_false_r in Hen; try discriminate.
  - unfold SoloApp.keyDown, Solo.onKey in H. rewrite Hst, Hov in H.
    cbn in H. injection H as <-. exists (Solo.paused t).
    by rewrite Solo_setPaused_same.
  - injection H as <-. by eexists.
Qed.

(** X15: once the Solo game is over nothing on the page brings it
    back: the keys (the key r of the message shown included), the
    touch buttons and the pause-screen buttons are dead or hidden, the
    start button is hidden, and the pause button only flips the pause
    flag.  Whatever enabled events follow, the state stays as it was
    but for that flag. *)
Theorem solo_game_over_is_final (m : bool) (fuel : nat)
    (evs : list SoloEvent) (t t' : Solo.Session) :
  Solo.started t = true -> Solo.over t = true ->
  soloRunEnabled m fuel evs t = true ->
  soloRun fuel evs t = Ok t' ->
  t' = Solo.setPaused (Solo.paused t') t /\
  SoloApp.startVisible t' = false /\
  Solo.onKey fuel "r" t' = Ok t'.
Proof.
  intros Hst Hov Hen Hrun.
  assert (exists b, t' = Solo.setPaused b t) as [b ->].
  { revert t Hst Hov Hen Hrun.
    induction evs as [|ev evs IH]; intros t Hst Hov Hen Hrun.
    - injection Hrun as <-. exists (Solo.paused t).
      by rewrite Solo_setPaused_same.
    - cbn [soloRunEnabled soloRun] in Hen, Hrun.
      apply andb_true_iff in Hen as [Hen1 Hen2].
      destruct (soloStep fuel ev t) as [t1| | |] eqn:H1; try done.
      cbn [bind] in Hrun.
      destruct (solo_over_step m fuel ev t t1 Hst Hov Hen1 H1) as [b1 ->].
      destruct (IH (Solo.setPaused b1 t) Hst Hov Hen2 Hrun) as [b ->].
      by exists b. }
  split; [done|]. split.
  - unfold SoloApp.startVisible. cbn. by rewrite Hst.
  - unfold Solo.onKey. cbn. by rewrite Hst, Hov.
Qed.

Lemma solo_game_over_is_final_witness :
  match soloRun 30 [SKey "r"; SPauseButton; SKey "ArrowLeft"; SKey "p"]
          (Solo.setOver true soloResting) with
  | Ok t' =>
      t' = Solo.setPaused (Solo.paused t') (Solo.setOver true soloResting) /\
      SoloApp.startVisible t' = false /\
      Solo.onKey 30 "r" t' = Ok t'
  | _ => False
  end.
Proof.
  destruct (soloRun 30 [SKey "r"; SPauseButton; SKey "ArrowLeft"; SKey "p"]
              (Solo.setOver true soloResting)) as [t'| | |] eqn:Hrun;
    try (vm_compute in Hrun; discriminate).
  apply (solo_game_over_is_final true 30
           [SKey "r"; SPauseButton; SKey "ArrowLeft"; SKey "p"]
           (Solo.setOver true soloResting) t').
  - reflexivity.
  - reflexivity.
  - vm_compute. reflexivity.
  - exact Hrun.
Defined.

(** ** Start and countdown *)

Lemma aaaCountdown_cleared k s : aaaCountdown k None s = (None, s).
Proof. by destruct k. Qed.

Lemma soloCountdown_cleared k t : soloCountdown k None t = (None, t).
Proof. by destruct k. Qed.

Lemma aaaCountdown_three k s :
  aaaCountdown (S (S (S k))) (Some 3) s =
  (None, AaaApp.setStarted true (AaaApp.setCountdown None s)).
Proof. by destruct k, s. Qed.

Lemma soloCountdown_three k t :
  soloCountdown (S (S (S k))) (Some 3) t =
  (None, SoloApp.setStarted true (SoloApp.setCountdown None t)).
Proof. by destruct k, t. Qed.

(** X16: after [startGame()] the countdown shows 3, then 2 and 1 at
    the first two firings of its interval; the third firing clears
    the interval, hides the countdown and starts the game.  It never
    shows 0, and it touches nothing but [countdown] and [started], in
    both rulesets. *)
Theorem countdown_three_two_one (k : nat) (s : Aaa.Session)
    (t : Solo.Session) :
  let '(c0, s0) := AaaApp.startGame s in
  let '(timer, sk) := aaaCountdown k (Some c0) s0 in
  let '(d0, t0) := SoloApp.startGame t in
  let '(timer', tk) := soloCountdown k (Some d0) t0 in
  Aaa.countdown sk <> Some 0 /\ Solo.countdown tk <> Some 0 /\
  sk = AaaApp.setStarted (Aaa.started sk)
         (AaaApp.setCountdown (Aaa.countdown sk) s) /\
  tk = SoloApp.setStarted (Solo.started tk)
         (SoloApp.setCountdown (Solo.countdown tk) t) /\
  if (k <? 3)%nat
  then timer = Some (3 - Z.of_nat k) /\ timer' = timer /\
       Aaa.countdown sk = timer /\ Solo.countdown tk = timer /\
       Aaa.started sk = Aaa.started s /\ Solo.started tk = Solo.started t
  else timer = None /\ timer' = None /\
       Aaa.countdown sk = None /\ Solo.countdown tk = None /\
       Aaa.started sk = true /\ Solo.started tk = true.
Proof.
  destruct k as [|[|[|k]]].
  - by destruct s, t.
  - by destruct s, t.
  - by destruct s, t.
  - unfold AaaApp.startGame, SoloApp.startGame. cbv beta iota zeta.
    rewrite aaaCountdown_three, soloCountdown_three. by destruct s, t.
Qed.

(** X17: [resetGame()] does not touch the pause flag.  So after EXIT
    on the pause screen the start button is back, and the game it
    starts is paused from its first moment: the pause screen is up,
    the gravity interval does nothing, and (AAA) every key is
    ignored. *)
Theorem exit_leaves_game_paused (run : Aaa.UpdaterRun) (fuel : nat)
    (key : string) (s s1 : Aaa.Session) (t t1 : Solo.Session) :
  AaaApp.pauseScreenVisible s = true -> AaaApp.exit s = Ok s1 ->
  SoloApp.pauseScreenVisible t = true -> SoloApp.exit t = Ok t1 ->
  AaaApp.startVisible s1 = true /\ SoloApp.startVisible t1 = true /\
  AaaApp.pauseScreenVisible (aaaStarted s1) = true /\
  SoloApp.pauseScreenVisible (soloStarted t1) = true /\
  Aaa.gravityTick run (aaaStarted s1) = Ok (aaaStarted s1) /\
  Solo.gravityTick (soloStarted t1) = Ok (soloStarted t1) /\
  Aaa.handleKeyDown run fuel key (aaaStarted s1) = Ok (aaaStarted s1).
Proof.
  intros Hs Hexit Ht Hexit'.
  destruct (resetGame_sound s) as (s' & Hr & _ & _ & _ & _ & _ & Hp & Hst & Hov).
  unfold AaaApp.exit in Hexit. rewrite Hr in Hexit. injection Hexit as <-.
  destruct (Solo_resetGame_ok t) as (t' & Hr' & _ & _ & _ & Hp' & Hst' & Hov' & Hc').
  unfold SoloApp.exit in Hexit'. rewrite Hr' in Hexit'.
  injection Hexit' as <-.
  unfold AaaApp.pauseScreenVisible in Hs.
  apply andb_true_iff in Hs as [[Hpa _]%andb_true_iff _].
  unfold SoloApp.pauseScreenVisible in Ht.
  apply andb_true_iff in Ht as [[Hpa' _]%andb_true_iff _].
  rewrite Hpa in Hp. rewrite Hpa' in Hp'.
  assert (Aaa.countdown s' = None) as Hc.
  { unfold Aaa.resetGame in Hr.
    apply bind_Ok in Hr as (b0 & _ & Hr).
    apply bind_Ok in Hr as ([p1 b1] & _ & Hr).
    apply bind_Ok in Hr as ([p2 b2] & _ & Hr).
    apply bind_Ok in Hr as ([p3 b3] & _ & Hr). by injection Hr as <-. }
  unfold aaaStarted, soloStarted, AaaApp.startGame, SoloApp.startGame.
  cbv beta iota zeta. rewrite aaaCountdown_three, soloCountdown_three.
  cbn [snd]. clear Hr Hr'.
  destruct s', t'. cbn in Hst, Hov, Hp, Hc, Hst', Hov', Hp', Hc'. subst.
  unfold Aaa.handleKeyDown. by cbn.
Qed.

Lemma exit_leaves_game_paused_witness :
  match AaaApp.exit (Aaa.setPaused true (aaaRunning emptyGrid pieceO)),
        SoloApp.exit (Solo.setPaused true soloResting) with
  | Ok s1, Ok t1 =>
      AaaApp.pauseScreenVisible (aaaStarted s1) = true /\
      Aaa.handleKeyDown Aaa.Eager 30 "p" (aaaStarted s1) = Ok (aaaStarted s1)
  | _, _ => False
  end.
Proof.
  destruct (AaaApp.exit (Aaa.setPaused true (aaaRunning emptyGrid pieceO)))
    as [s1| | |] eqn:Hs; try (vm_compute in Hs; discriminate).
  destruct (SoloApp.exit (Solo.setPaused true soloResting))
    as [t1| | |] eqn:Ht; try (vm_compute in Ht; discriminate).
  destruct (exit_leaves_game_paused Aaa.Eager 30 "p"
              (Aaa.setPaused true (aaaRunning emptyGrid pieceO)) s1
              (Solo.setPaused true soloResting) t1)
    as (_ & _ & Hv & _ & _ & _ & Hk).
  - reflexivity.
  - exact Hs.
  - reflexivity.
  - exact Ht.
  - by split.
Defined.

(** ** The first piece of an AAA game *)

(** X18: the mount effect and [resetGame()] make the first piece drawn
    the active piece and leave it at the head of the preview queue.
    So the first piece of every AAA game comes twice: when it is held,
    and when it locks with React running the updater in a render, the
    next active piece is the same piece again.  When React runs the
    updater eagerly, the locked piece itself stays active. *)
Theorem first_piece_comes_twice (run : Aaa.UpdaterRun) (s s0 : Aaa.Session) :
  Aaa.resetGame s = Ok s0 \/
  (Aaa.holdPiece s = None /\ Aaa.canHold s = true /\
   AaaApp.mount s = Ok s0) ->
  exists p1,
    Aaa.piece s0 = Some p1 /\ head (Aaa.nextPieces s0) = Some p1 /\
    spawned p1 /\
    forall q s2,
      (Aaa.collides (Aaa.grid s0) (with_y q (py q + 1)) = Ok true ->
       Aaa.stepDown run (Aaa.setPiece (Some q) s0) = Ok s2 ->
       Aaa.piece s2 =
         match run with
         | Aaa.InRender => Some p1
         | Aaa.Eager => Some q
         end) /\
      (Aaa.holdPieceAction (Aaa.setPiece (Some q) s0) = Ok s2 ->
       Aaa.piece s2 = Some p1).
Proof.
  intros H.
  assert (exists p1, Aaa.piece s0 = Some p1 /\
            head (Aaa.nextPieces s0) = Some p1 /\ spawned p1 /\
            Aaa.holdPiece s0 = None /\ Aaa.canHold s0 = true)
    as (p1 & Hp & Hq & Hsp & Hh & Hc).
  { destruct H as [H|(Hh & Hc & H)].
    - unfold Aaa.resetGame in H.
      apply bind_Ok in H as (b0 & _ & H).
      apply bind_Ok in H as ([p1 b1] & Hn & H).
      apply bind_Ok in H as ([p2 b2] & _ & H).
      apply bind_Ok in H as ([p3 b3] & _ & H). injection H as <-.
      exists p1. by apply next_spawned in Hn.
    - unfold AaaApp.mount in H.
      apply bind_Ok in H as ([p1 b1] & Hn & H).
      apply bind_Ok in H as ([p2 b2] & _ & H).
      apply bind_Ok in H as ([p3 b3] & _ & H). injection H as <-.
      exists p1. by apply next_spawned in Hn. }
  exists p1. split; [done|]. split; [done|]. split; [done|].
  intros q s2. split.
  - intros Hhit Hstep. destruct run.
    + rewrite (stepDown_blocked_eager _ q) in Hstep by done.
      apply bind_Ok in Hstep as (s1 & _ & Hs2). by injection Hs2 as <-.
    + rewrite (stepDown_blocked _ q) in Hstep by done.
      destruct (lockPiece_result (Aaa.setPiece (Some q) s0) s2 q)
        as (_ & _ & _ & _ & Hpiece & _); [done|done|].
      by rewrite Hpiece.
  - intros Hhold.
    destruct (hold_empty_slot (Aaa.setPiece (Some q) s0) s2 q)
      as (_ & Hpiece & _); [done|done|done|done|].
    by rewrite Hpiece.
Qed.

Lemma first_piece_comes_twice_witness :
  match Aaa.resetGame (aaaRunning emptyGrid pieceO) with
  | Ok s0 =>
      exists p1,
        Aaa.piece s0 = Some p1 /\ head (Aaa.nextPieces s0) = Some p1 /\
        spawned p1 /\
        forall q s2,
          (Aaa.collides (Aaa.grid s0) (with_y q (py q + 1)) = Ok true ->
           Aaa.stepDown Aaa.InRender (Aaa.setPiece (Some q) s0) = Ok s2 ->
           Aaa.piece s2 = Some p1) /\
          (Aaa.holdPieceAction (Aaa.setPiece (Some q) s0) = Ok s2 ->
           Aaa.piece s2 = Some p1)
  | _ => False
  end.
Proof.
  destruct (Aaa.resetGame (aaaRunning emptyGrid pieceO)) as [s0| | |] eqn:H;
    try (vm_compute in H; discriminate).
  apply (first_piece_comes_twice Aaa.InRender (aaaRunning emptyGrid pieceO)
           s0).
  left. exact H.
Defined.

(** ** Touch buttons, keys and pause in the Solo component *)

Lemma dropLoop_result (fuel : nat) (g : Board) (p np : Piece) :
  Solo.dropLoop fuel g p = Ok np -> np = p \/ Solo.collides g np = Ok false.
Proof.
  revert p. induction fuel as [|fuel IH]; intros p H; [done|].
  cbn [Solo.dropLoop] in H. apply bind_Ok in H as (hit & Hhit & H).
  destruct hit.
  - left. by injection H as <-.
  - right. destruct (IH _ H) as [->|Hfree]; done.
Qed.

(** X19: while the Solo game runs on a board of [ROWS] rows, each
    touch button does exactly what its key does: left, right, down,
    rotate and hard drop (whose key checks the landing position for a
    collision, which the button does not: the check never fails). *)
Theorem touch_buttons_are_keys (fuel : nat) (t : Solo.Session) :
  Solo.started t = true -> Solo.over t = false ->
  length (Solo.grid t) = ROWS ->
  Solo.onKey fuel "ArrowLeft" t = Solo.moveLeft t /\
  Solo.onKey fuel "ArrowRight" t = Solo.moveRight t /\
  Solo.onKey fuel "ArrowDown" t = Solo.moveDown t /\
  Solo.onKey fuel " " t = Solo.rotatePiece t /\
  Solo.onKey fuel "ArrowUp" t = Solo.hardDrop fuel t.
Proof.
  intros Hst Hov Hlen.
  rewrite !Solo_onKey_running by done. unfold Solo.keyUpdater.
  split; [|split; [|split; [|split]]]; eval_keys; cbn [bind].
  - unfold Solo.moveLeft. cbv zeta.
    by destruct (Solo.collides _ _) as [[]| | |].
  - unfold Solo.moveRight. cbv zeta.
    by destruct (Solo.collides _ _) as [[]| | |].
  - unfold Solo.moveDown. cbv zeta.
    by destruct (Solo.collides _ _) as [[]| | |].
  - unfold Solo.rotatePiece. cbv zeta.
    destruct (Solo.rotate _) as [sh| | |]; try done. cbn [bind].
    by destruct (Solo.collides _ _) as [[]| | |].
  - unfold Solo.hardDrop.
    destruct (Solo.dropLoop fuel (Solo.grid t) (Solo.piece t))
      as [np| | |] eqn:Hloop; try done.
    cbn [bind]. apply dropLoop_result in Hloop as [->|Hfree].
    + destruct (Solo_collides_spec (Solo.grid t) (Solo.piece t) Hlen)
        as (b & -> & _).
      cbn [bind]. by destruct b.
    + rewrite Hfree. done.
Qed.

Lemma touch_buttons_are_keys_witness :
  Solo.onKey 30 "ArrowUp" (soloRunning gapGrid pieceO) =
  Solo.hardDrop 30 (soloRunning gapGrid pieceO).
Proof.
  apply (touch_buttons_are_keys 30 (soloRunning gapGrid pieceO)).
  - reflexivity.
  - reflexivity.
  - reflexivity.
Defined.

(** X20: pausing the Solo game stops the gravity interval and nothing
    else: apart from the pause flag, a keydown event (both listeners)
    does to a paused game exactly what it does to the running one (the
    piece still moves, turns and drops, the key r still resets).  The
    flag itself is flipped by the key p while the game is started and
    not over, and kept by every other key. *)
Theorem solo_pause_stops_only_gravity (fuel : nat) (key : string)
    (b b' : bool) (t : Solo.Session) :
  Solo.gravityTick (Solo.setPaused true t) = Ok (Solo.setPaused true t) /\
  omap (Solo.setPaused b') (SoloApp.keyDown fuel key (Solo.setPaused b t)) =
    omap (Solo.setPaused b') (SoloApp.keyDown fuel key t) /\
  omap Solo.paused (SoloApp.keyDown fuel key (Solo.setPaused b t)) =
    omap (fun _ =>
            if String.eqb key "p" && Solo.started t && negb (Solo.over t)
            then negb b else b)
         (SoloApp.keyDown fuel key t).
Proof.
  assert (Solo.onKey fuel key (Solo.setPaused b t) =
          omap (Solo.setPaused b) (Solo.onKey fuel key t)) as Hkey.
  { unfold Solo.onKey. cbn [Solo.started Solo.over Solo.grid Solo.piece
      Solo.setPaused].
    destruct (negb (Solo.started t) || Solo.over t); [done|].
    destruct (Solo.keyUpdater fuel key (Solo.grid t) (Solo.piece t))
      as [p'| | |]; try done.
    cbn [bind omap]. cbv zeta. destruct (String.eqb key "r"); [|done].
    unfold Solo.resetGame. cbn [Solo.rng Solo.setPiece Solo.setPaused].
    destruct (Solo.randomPiece (Solo.rng t)) as [[p r1]| | |]; try done.
    cbn [bind]. destruct (Solo.randomPiece r1) as [[n r2]| | |]; done. }
  split; [|split].
  - unfold Solo.gravityTick.
    cbn [Solo.started Solo.over Solo.paused Solo.setPaused].
    by rewrite orb_true_r.
  - unfold SoloApp.keyDown. rewrite Hkey.
    cbn [Solo.started Solo.over Solo.setPaused].
    destruct (Solo.onKey fuel key t) as [t1| | |]; try done.
    cbn [omap bind].
    destruct (negb (Solo.started t) || Solo.over t); [done|].
    destruct (String.eqb key "p"); done.
  - unfold SoloApp.keyDown. rewrite Hkey.
    cbn [Solo.started Solo.over Solo.setPaused].
    destruct (Solo.onKey fuel key t) as [t1| | |]; try done.
    cbn [omap bind].
    destruct (Solo.started t), (Solo.over t), (String.eqb key "p"); done.
Qed.

(** ** What changes the board *)

Lemma levelEffect_frame (s : Aaa.Session) :
  Aaa.grid (Aaa.levelEffect s) = Aaa.grid s /\
  Aaa.lines (Aaa.levelEffect s) = Aaa.lines s.
Proof. unfold Aaa.levelEffect. by destruct (negb _). Qed.

(** The handlers that move, turn, drop or hold the piece leave the
    board and the line count alone. *)
Lemma aaa_moves_frame (fuel : nat) (s s1 : Aaa.Session) :
  Aaa.arrowLeft s = Ok s1 \/ Aaa.arrowRight s = Ok s1 \/
  Aaa.rotatePiece s = Ok s1 \/ Aaa.hardDrop fuel s = Ok s1 \/
  Aaa.holdPieceAction s = Ok s1 ->
  Aaa.grid s1 = Aaa.grid s /\ Aaa.lines s1 = Aaa.lines s.
Proof.
  unfold Aaa.arrowLeft, Aaa.arrowRight, Aaa.rotatePiece, Aaa.hardDrop,
    Aaa.holdPieceAction.
  destruct (Aaa.piece s) as [p|];
    [|by intros [H|[H|[H|[H|H]]]]; injection H as <-].
  intros [H|[H|[H|[H|H]]]].
  - apply bind_Ok in H as (hit & _ & H). by injection H as <-.
  - apply bind_Ok in H as (hit & _ & H). by injection H as <-.
  - apply bind_Ok in H as (rot & _ & H).
    apply bind_Ok in H as (hit & _ & H).
    by destruct hit; injection H as <-.
  - apply bind_Ok in H as ([q d] & _ & H). by injection H as <-.
  - destruct (negb (Aaa.canHold s)); [by injection H as <-|].
    destruct (Aaa.holdPiece s) as [h|].
    + apply bind_Ok in H as (newHold & _ & H).
      apply bind_Ok in H as (swapped & _ & H). by injection H as <-.
    + apply bind_Ok in H as (newHold & _ & H).
      apply bind_Ok in H as ([fresh b'] & _ & H). by injection H as <-.
Qed.

Lemma stepDown_frame run (s s1 : Aaa.Session) :
  Aaa.stepDown run s = Ok s1 ->
  (Aaa.grid s1 = Aaa.grid s /\ Aaa.lines s1 = Aaa.lines s) \/
  exists p, Aaa.piece s = Some p /\
    Aaa.collides (Aaa.grid s) (with_y p (py p + 1)) = Ok true.
Proof.
  unfold Aaa.stepDown. destruct (Aaa.piece s) as [p|];
    [|intros [= <-]; by left].
  intros H. apply bind_Ok in H as (hit & Hhit & H). destruct hit.
  - right. by exists p.
  - left. by injection H as <-.
Qed.

(** X21: in the AAA game the board and the line count change only
    when the game is reset or when a gravity tick, the key ArrowDown
    or a down swipe finds the piece blocked below in a running game,
    that is at a lock.  Moving, turning, holding, pausing and the hard
    drop, by key or by touch, never change them: a hard-dropped piece
    is not locked by the drop. *)
Theorem board_changes_only_at_lock (isMobileDevice : bool) (fuel : nat)
    (ev : AaaEvent) (s s' : Aaa.Session) :
  aaaStep isMobileDevice fuel ev s = Ok s' ->
  Aaa.grid s' <> Aaa.grid s \/ Aaa.lines s' <> Aaa.lines s ->
  aaaRestarts ev = true \/
  (aaaDescends ev = true /\
   negb (Aaa.started s) || Aaa.over s || Aaa.paused s = false /\
   exists p, Aaa.piece s = Some p /\
     Aaa.collides (Aaa.grid s) (with_y p (py p + 1)) = Ok true).
Proof.
  intros Hstep Hch. unfold aaaStep in Hstep.
  apply bind_Ok in Hstep as (s1 & H1 & Hs'). injection Hs' as <-.
  destruct (levelEffect_frame s1) as [Eg El]. rewrite Eg, El in Hch.
  assert (Aaa.grid s1 = Aaa.grid s /\ Aaa.lines s1 = Aaa.lines s -> False)
    as Hne by (intros [? ?]; destruct Hch; congruence).
  destruct ev as [run|key run|touch run| | | |]; try (by left).
  - right. unfold Aaa.gravityTick in H1.
    destruct (negb (Aaa.started s) || Aaa.over s || Aaa.paused s) eqn:Hrun.
    { injection H1 as <-. by destruct Hne. }
    split; [done|]. split; [done|].
    by destruct (stepDown_frame run s s1 H1) as [Hsame|Hlock];
      [destruct Hne|].
  - unfold Aaa.handleKeyDown in H1. cbn [aaaRestarts aaaDescends].
    destruct (negb (Aaa.started s) || Aaa.over s || Aaa.paused s) eqn:Hrun.
    { injection H1 as <-. by destruct Hne. }
    destruct (String.eqb key "ArrowLeft");
      [destruct Hne; apply (aaa_moves_frame fuel s s1); tauto|].
    destruct (String.eqb key "ArrowRight");
      [destruct Hne; apply (aaa_moves_frame fuel s s1); tauto|].
    destruct (String.eqb key "ArrowDown") eqn:Ed.
    { right. split; [done|]. split; [done|].
      by destruct (stepDown_frame run s s1 H1) as [Hsame|Hlock];
        [destruct Hne|]. }
    destruct (String.eqb key "ArrowUp");
      [destruct Hne; apply (aaa_moves_frame fuel s s1); tauto|].
    destruct (String.eqb key " ");
      [destruct Hne; apply (aaa_moves_frame fuel s s1); tauto|].
    destruct (String.eqb key "c" || String.eqb key "C");
      [destruct Hne; apply (aaa_moves_frame fuel s s1); tauto|].
    destruct (String.eqb key "p" || String.eqb key "P");
      [injection H1 as <-; by destruct Hne|].
    destruct (String.eqb key "r" || String.eqb key "R"); [by left|].
    injection H1 as <-. by destruct Hne.
  - right. unfold Aaa.handleTouchEnd in H1. cbn [aaaDescends].
    destruct isMobileDevice; [|injection H1 as <-; by destruct Hne].
    cbn [negb orb] in H1.
    destruct (negb (Aaa.started s) || Aaa.over s || Aaa.paused s) eqn:Hrun.
    { injection H1 as <-. by destruct Hne. }
    destruct (Aaa.near touch).
    { destruct (Aaa.quick touch);
        [destruct Hne; apply (aaa_moves_frame fuel s s1); tauto|].
      injection H1 as <-. by destruct Hne. }
    destruct (Aaa.sideways touch).
    { destruct (Aaa.rightward touch);
        destruct Hne; apply (aaa_moves_frame fuel s s1); tauto. }
    destruct (Aaa.downward touch);
      [|destruct Hne; apply (aaa_moves_frame fuel s s1); tauto].
    split; [done|]. split; [done|].
    by destruct (stepDown_frame run s s1 H1) as [Hsame|Hlock];
      [destruct Hne|].
  - injection H1 as <-. by destruct Hne.
  - injection H1 as <-. by destruct Hne.
Qed.

Lemma board_changes_only_at_lock_witness :
  match aaaStep true 30
          (ATouchEnd (Aaa.mkTouch false false false false true) Aaa.Eager)
          (aaaRunning emptyGrid (with_y pieceO 18)) with
  | Ok s' =>
      aaaRestarts
        (ATouchEnd (Aaa.mkTouch false false false false true) Aaa.Eager)
        = true \/
      (aaaDescends
         (ATouchEnd (Aaa.mkTouch false false false false true) Aaa.Eager)
         = true /\
       negb (Aaa.started (aaaRunning emptyGrid (with_y pieceO 18))) ||
       Aaa.over (aaaRunning emptyGrid (with_y pieceO 18)) ||
       Aaa.paused (aaaRunning emptyGrid (with_y pieceO 18)) = false /\
       exists p,
         Aaa.piece (aaaRunning emptyGrid (with_y pieceO 18)) = Some p /\
         Aaa.collides (Aaa.grid (aaaRunning emptyGrid (with_y pieceO 18)))
           (with_y p (py p + 1)) = Ok true)
  | _ => False
  end.
Proof.
  destruct (aaaStep true 30
              (ATouchEnd (Aaa.mkTouch false false false false true)
                 Aaa.Eager)
              (aaaRunning emptyGrid (with_y pieceO 18))) as [s'| | |] eqn:H;
    try (vm_compute in H; discriminate).
  apply (board_changes_only_at_lock true 30
           (ATouchEnd (Aaa.mkTouch false false false false true) Aaa.Eager)
           (aaaRunning emptyGrid (with_y pieceO 18)) s').
  - exact H.
  - left. vm_compute in H. injection H as <-. vm_compute. discriminate.
Defined.

Lemma Solo_keyDown_frame (fuel : nat) (key : string) (t t' : Solo.Session) :
  SoloApp.keyDown fuel key t = Ok t' -> String.eqb key "r" = false ->
  Solo.grid t' = Solo.grid t /\ Solo.score t' = Solo.score t /\
  Solo.level t' = Solo.level t /\ Solo.over t' = Solo.over t.
Proof.
  intros H Hr. unfold SoloApp.keyDown, Solo.onKey in H. rewrite Hr in H.
  destruct (negb (Solo.started t) || Solo.over t).
  { cbn [bind] in H. by injection H as <-. }
  apply bind_Ok in H as (s1 & H1 & H).
  apply bind_Ok in H1 as (p' & _ & H1). injection H1 as <-.
  destruct (String.eqb key "p"); by injection H as <-.
Qed.

(** X22: in the Solo game only the gravity interval and a reset change
    the board, the score, the level or the game-over flag: no key
    other than r and no button locks a piece, clears a line, scores or
    ends the game. *)
Theorem solo_only_gravity_locks (fuel : nat) (ev : SoloEvent)
    (t t' : Solo.Session) :
  soloStep fuel ev t = Ok t' -> ev <> STick -> soloRestarts ev = false ->
  Solo.grid t' = Solo.grid t /\ Solo.score t' = Solo.score t /\
  Solo.level t' = Solo.level t /\ Solo.over t' = Solo.over t.
Proof.
  intros H Htick Hres.
  destruct ev as [|key| | | | | | | | |]; try done; cbn [soloStep] in H.
  - by apply (Solo_keyDown_frame fuel key).
  - unfold Solo.moveLeft in H. apply bind_Ok in H as (hit & _ & H).
    by injection H as <-.
  - unfold Solo.moveRight in H. apply bind_Ok in H as (hit & _ & H).
    by injection H as <-.
  - unfold Solo.moveDown in H. apply bind_Ok in H as (hit & _ & H).
    by injection H as <-.
  - unfold Solo.rotatePiece in H. apply bind_Ok in H as (sh & _ & H).
    apply bind_Ok in H as (hit & _ & H). by injection H as <-.
  - unfold Solo.hardDrop in H. apply bind_Ok in H as (np & _ & H).
    by injection H as <-.
  - by injection H as <-.
  - by injection H as <-.
Qed.

Lemma solo_only_gravity_locks_witness :
  match soloStep 30 (SKey "ArrowDown") soloResting with
  | Ok t' =>
      Solo.grid t' = Solo.grid soloResting /\
      Solo.score t' = Solo.score soloResting /\
      Solo.level t' = Solo.level soloResting /\
      Solo.over t' = Solo.over soloResting
  | _ => False
  end.
Proof.
  destruct (soloStep 30 (SKey "ArrowDown") soloResting) as [t'| | |] eqn:H;
    try (vm_compute in H; discriminate).
  apply (solo_only_gravity_locks 30 (SKey "ArrowDown") soloResting t').
  - exact H.
  - discriminate.
  - reflexivity.
Defined.

(** ** The orders the shuffle can deal *)

(** The shuffle reads the oracle only from its cursor on. *)
Lemma shuffleFrom_ext (i : nat) (l : list nat) (d d' : nat -> nat) (c : nat) :
  (forall k, (c <= k)%nat -> d k = d' k) ->
  omap fst (Aaa.shuffleFrom i l (mkRng d c)) =
  omap fst (Aaa.shuffleFrom i l (mkRng d' c)).
Proof.
  revert l c. induction i as [|i IH]; intros l c Hext; [done|].
  cbn [Aaa.shuffleFrom]. unfold randomBelow. cbn [draws cursor].
  rewrite (Hext c) by lia.
  destruct (Aaa.swap (S i) (d' c mod (S i + 1)) l) as [l1| | |]; try done.
  cbn [bind]. apply IH. intros k Hk. apply Hext. lia.
Qed.

(** What [swap] does to the slot [i], to the part of the list behind
    it and to the part up to it. *)
Lemma swap_last (l : list nat) (i j : nat) x :
  (i < length l)%nat -> (j <= i)%nat -> l !! j = Some x ->
  exists l1, Aaa.swap i j l = Ok l1 /\ l1 !! i = Some x /\
    drop (S i) l1 = drop (S i) l /\ take (S i) l1 ≡ₚ take (S i) l.
Proof.
  intros Hi Hj Hx.
  destruct (swap_perm l i j) as (l1 & Hsw & Hperm); [done|lia|].
  exists l1. split; [done|].
  unfold Aaa.swap in Hsw. rewrite Hx in Hsw.
  destruct (l !! i) as [bi|] eqn:Hbi; [|done]. injection Hsw as <-.
  assert (drop (S i) (<[j:=bi]> (<[i:=x]> l)) = drop (S i) l) as Hdrop.
  { rewrite !drop_insert_lt by lia. done. }
  split; [|split; [done|]].
  - destruct (decide (j = i)) as [->|Hne].
    + rewrite Hx in Hbi. injection Hbi as ->.
      rewrite list_lookup_insert_eq; [done|]. by rewrite length_insert.
    + rewrite list_lookup_insert_ne by done.
      by rewrite list_lookup_insert_eq.
  - apply (Permutation_app_inv_r (drop (S i) l)).
    rewrite <- Hdrop at 1. by rewrite !take_drop.
Qed.

Lemma shuffleFrom_reaches (i : nat) (l target : list nat) (c : nat) :
  (i < length l)%nat ->
  take (S i) target ≡ₚ take (S i) l -> drop (S i) target = drop (S i) l ->
  exists d, omap fst (Aaa.shuffleFrom i l (mkRng d c)) = Ok target.
Proof.
  revert l c. induction i as [|i IH]; intros l c Hi Hperm Hdrop.
  - exists (fun _ => 0%nat). cbn. f_equal.
    rewrite <- (take_drop 1 target), <- (take_drop 1 l), Hdrop. f_equal.
    destruct target as [|a target], l as [|b l]; cbn in *; try lia.
    + by apply Permutation_nil_cons in Hperm.
    + rewrite !take_0 in *. by apply Permutation_singleton_l in Hperm.
  - assert (length (take (S (S i)) target) = S (S i)) as Hlt.
    { rewrite (Permutation_length Hperm), length_take. lia. }
    rewrite length_take in Hlt.
    destruct (lookup_lt_is_Some_2 target (S i)) as [x Hx]; [lia|].
    assert (x ∈ take (S (S i)) l) as Hin.
    { rewrite <- Hperm. apply (list_elem_of_lookup_2 _ (S i)).
      rewrite lookup_take_lt by lia. done. }
    apply list_elem_of_lookup_1 in Hin as [j Hj].
    assert (j < S (S i))%nat as Hjlt.
    { apply lookup_lt_Some in Hj. rewrite length_take in Hj. lia. }
    rewrite lookup_take_lt in Hj by lia.
    destruct (swap_last l (S i) j x) as (l1 & Hsw & Hl1 & Hd1 & Hp1);
      [done|lia|done|].
    destruct (IH l1 (S c)) as [d' Hd'].
    + apply lookup_lt_Some in Hl1. lia.
    + apply (Permutation_app_inv_r [x]).
      rewrite <- (take_S_r target (S i) x), <- (take_S_r l1 (S i) x) by done.
      by rewrite Hp1.
    + rewrite (drop_S target x (S i)), (drop_S l1 x (S i)) by done.
      by rewrite Hd1, Hdrop.
    + exists (fun k => if (k =? c)%nat then j else d' k).
      cbn [Aaa.shuffleFrom]. unfold randomBelow. cbn [draws cursor].
      rewrite Nat.eqb_refl, Nat.mod_small by lia.
      rewrite Hsw. cbn [bind]. rewrite <- Hd'.
      apply shuffleFrom_ext. intros k Hk.
      destruct (Nat.eqb_spec k c); [lia|done].
Qed.

(** X23: the Fisher-Yates loop of the bag excludes no order: for
    every arrangement of the seven piece types, and wherever the
    random source stands, there is an outcome of [Math.random] for
    which the refill leaves exactly that arrangement in the bag. *)
Theorem shuffle_reaches_every_order (target : list nat) (c : nat) :
  target ≡ₚ allTypes ->
  exists d r', Aaa.refillBag (mkRng d c) = Ok (Aaa.mkBag target r').
Proof.
  intros Hperm. pose proof (Permutation_length Hperm) as Hlen.
  destruct (shuffleFrom_reaches 6 allTypes target c) as [d Hd].
  - cbn. lia.
  - rewrite !take_ge by (cbn in *; lia). done.
  - rewrite !drop_ge by (cbn in *; lia). done.
  - exists d. unfold Aaa.refillBag. cbn [length Nat.sub].
    change [0; 1; 2; 3; 4; 5; 6]%nat with allTypes.
    destruct (Aaa.shuffleFrom 6 allTypes (mkRng d c)) as [[l r']| | |];
      try done.
    cbn in Hd. injection Hd as ->. by exists r'.
Qed.

Lemma shuffle_reaches_every_order_witness :
  exists d r',
    Aaa.refillBag (mkRng d 5) =
    Ok (Aaa.mkBag [6; 5; 4; 3; 2; 1; 0]%nat r').
Proof.
  apply (shuffle_reaches_every_order [6; 5; 4; 3; 2; 1; 0]%nat 5).
  unfold allTypes. solve_Permutation.
Defined.

(** The shuffle entered at [i] leaves the slots behind [i] alone. *)
Lemma shuffleFrom_drop (i : nat) (l t : list nat) (r r' : Rng) :
  (i < length l)%nat -> Aaa.shuffleFrom i l r = Ok (t, r') ->
  drop (S i) t = drop (S i) l.
Proof.
  revert l r. induction i as [|i IH]; intros l r Hi H.
  - by injection H as <- _.
  - cbn [Aaa.shuffleFrom] in H. unfold randomBelow in H.
    apply bind_Ok in H as (l1 & Hsw & H).
    assert (draws r (cursor r) mod (S i + 1) < S i + 1)%nat as Hj
      by (apply Nat.mod_upper_bound; lia).
    destruct (lookup_lt_is_Some_2 l (draws r (cursor r) mod (S i + 1)))
      as [x Hx]; [lia|].
    destruct (swap_last l (S i) (draws r (cursor r) mod (S i + 1)) x)
      as (l1' & Hsw' & Hl1 & Hd1 & _); [done|lia|done|].
    rewrite Hsw in Hsw'. injection Hsw' as <-.
    apply IH in H; [|apply lookup_lt_Some in Hl1; lia].
    rewrite <- Hd1. apply (f_equal (drop 1)) in H.
    by rewrite !drop_drop, Nat.add_1_r in H.
Qed.

Lemma shuffleFrom_inj (i : nat) (l t : list nat) (d d' : nat -> nat)
    (c : nat) (r r' : Rng) :
  NoDup l -> (i < length l)%nat ->
  Aaa.shuffleFrom i l (mkRng d c) = Ok (t, r) ->
  Aaa.shuffleFrom i l (mkRng d' c) = Ok (t, r') ->
  forall k, (k < i)%nat ->
    (d (c + k) mod (i - k + 1) = d' (c + k) mod (i - k + 1))%nat.
Proof.
  revert l c. induction i as [|i IH]; intros l c Hnd Hi H H' k Hk; [lia|].
  cbn [Aaa.shuffleFrom] in H, H'. unfold randomBelow in H, H'.
  cbn [draws cursor] in H, H'.
  apply bind_Ok in H as (l1 & Hsw & H).
  apply bind_Ok in H' as (l1' & Hsw' & H').
  assert (d c mod (S i + 1) < S i + 1)%nat as Hj
    by (apply Nat.mod_upper_bound; lia).
  assert (d' c mod (S i + 1) < S i + 1)%nat as Hj'
    by (apply Nat.mod_upper_bound; lia).
  destruct (lookup_lt_is_Some_2 l (d c mod (S i + 1))) as [x Hx]; [lia|].
  destruct (lookup_lt_is_Some_2 l (d' c mod (S i + 1))) as [x' Hx']; [lia|].
  destruct (swap_last l (S i) (d c mod (S i + 1)) x)
    as (m & Hm & Hl1 & _ & _); [done|lia|done|].
  destruct (swap_last l (S i) (d' c mod (S i + 1)) x')
    as (m' & Hm' & Hl1' & _ & _); [done|lia|done|].
  rewrite Hsw in Hm. injection Hm as <-.
  rewrite Hsw' in Hm'. injection Hm' as <-.
  assert (length l1 = length l) as Hlen.
  { destruct (swap_perm l (S i) (d c mod (S i + 1))) as (m & Hm & Hp);
      [done|lia|].
    rewrite Hsw in Hm. injection Hm as <-. by apply Permutation_length. }
  assert (length l1' = length l) as Hlen'.
  { destruct (swap_perm l (S i) (d' c mod (S i + 1))) as (m & Hm & Hp);
      [done|lia|].
    rewrite Hsw' in Hm. injection Hm as <-. by apply Permutation_length. }
  pose proof (shuffleFrom_drop i l1 t _ _ ltac:(lia) H) as Hd.
  pose proof (shuffleFrom_drop i l1' t _ _ ltac:(lia) H') as Hd'.
  assert (x = x') as <-.
  { assert (drop (S i) l1 !! 0%nat = drop (S i) l1' !! 0%nat) as E
      by (by rewrite <- Hd, <- Hd').
    rewrite !lookup_drop, Nat.add_0_r, Hl1, Hl1' in E. by injection E. }
  assert (d c mod (S i + 1) = d' c mod (S i + 1))%nat as Hjj
    by (by eapply NoDup_lookup).
  destruct k as [|k].
  - rewrite Nat.add_0_r, Nat.sub_0_r. done.
  - rewrite <- Hjj, Hsw in Hsw'. injection Hsw' as <-.
    replace (c + S k)%nat with (S c + k)%nat by lia.
    replace (S i - S k)%nat with (i - k)%nat by lia.
    apply (IH l1 (S c)); [|lia|done|done|lia].
    destruct (swap_perm l (S i) (d c mod (S i + 1))) as (m & Hm & Hp);
      [done|lia|].
    rewrite Hsw in Hm. injection Hm as <-. by rewrite Hp.
Qed.

(** X24: an order of the bag comes from exactly one sequence of
    choices of the Fisher-Yates loop: two outcomes of [Math.random]
    that give the same refill made the same six choices [j]. *)
Theorem shuffle_choices_unique (d d' : nat -> nat) (c : nat)
    (b b' : Aaa.PieceBag) :
  Aaa.refillBag (mkRng d c) = Ok b -> Aaa.refillBag (mkRng d' c) = Ok b' ->
  Aaa.bag b = Aaa.bag b' ->
  forall k, (k < 6)%nat ->
    (d (c + k) mod (7 - k) = d' (c + k) mod (7 - k))%nat.
Proof.
  unfold Aaa.refillBag. cbn [length Nat.sub]. intros H H' Hb k Hk.
  apply bind_Ok in H as ([t r] & Hsh & H). injection H as <-.
  apply bind_Ok in H' as ([t' r'] & Hsh' & H'). injection H' as <-.
  cbn [Aaa.bag] in Hb. subst t'.
  replace (7 - k)%nat with (6 - k + 1)%nat by lia.
  apply (shuffleFrom_inj 6 [0; 1; 2; 3; 4; 5; 6]%nat t d d' c r r');
    [|cbn; lia|done|done|done].
  apply NoDup_ListNoDup. repeat constructor; cbn; lia.
Qed.

Lemma shuffle_choices_unique_witness :
  ((3 * (0 + 2) + 1) mod (7 - 2) = (3 * (0 + 2) + 421) mod (7 - 2))%nat.
Proof.
  destruct (refillBag_perm (mkRng (fun k => 3 * k + 1)%nat 0))
    as (b & Hb & _).
  destruct (refillBag_perm (mkRng (fun k => 3 * k + 421)%nat 0))
    as (b' & Hb' & _).
  apply (shuffle_choices_unique (fun k => 3 * k + 1)%nat
           (fun k => 3 * k + 421)%nat 0 b b' Hb Hb'); [|lia].
  vm_compute in Hb, Hb'. injection Hb as <-. injection Hb' as <-.
  reflexivity.
Defined.
